(** * LLM-assisted JSON updater: decomposition / recombination engine

    A shallow embedding of the Python sources

      - [string_builder.py]   (class [StringBuilder]),
      - [json_operations.py]  (class [JsonOperations]),
      - [prepare_batch.py]    (class [PrepareBatch]),
      - [llm_operations.py]   ([run_inputs], [get_updated_data]),

    together with the part of the [json] and [re] standard modules that
    these sources call.

    Conventions of the embedding.

    - A Python [str] is a list of Unicode code points ([pystr]).
    - A Python [dict] is an association list in insertion order whose keys
      are pairwise distinct; [dict_set] overwrites in place or appends,
      exactly as assignment to a key does.
    - JSON numbers are the integers; a text holding a float literal is
      [Unmodelled] by [json_loads] (floating point is outside the
      embedding).  Interpreter resource limits (recursion depth, integer
      digits) are not modelled.
    - A raised exception is the outcome [Raise e]; nothing in the sources
      catches one, so the first exception ends the call. *)

From Stdlib Require Import List ZArith NArith Lia Bool String Ascii.
From Stdlib Require Import Permutation.
From Stdlib Require DecimalZ DecimalPos DecimalN DecimalFacts.
Import ListNotations.

Set Implicit Arguments.

(** ** Python strings *)

Definition pystr := list N.

Definition py (s : string) : pystr :=
  List.map N_of_ascii (list_ascii_of_string s).

Definition pystr_dec : forall x y : pystr, {x = y} + {x <> y} :=
  list_eq_dec N.eq_dec.

Definition pystr_eqb (x y : pystr) : bool :=
  if pystr_dec x y then true else false.

(** [prefix_of p s] is [Some r] when [s = p ++ r]. *)
Fixpoint prefix_of (p s : pystr) : option pystr :=
  match p with
  | [] => Some s
  | c :: p' =>
      match s with
      | [] => None
      | d :: s' => if N.eqb c d then prefix_of p' s' else None
      end
  end.

(** [sep.join(parts)] *)
Fixpoint str_join (sep : pystr) (parts : list pystr) : pystr :=
  match parts with
  | [] => []
  | x :: rest =>
      match rest with
      | [] => x
      | _ :: _ => x ++ sep ++ str_join sep rest
      end
  end.

(** [s.split(c)] for a one-character separator: never empty. *)
Fixpoint str_split (c : N) (s : pystr) : list pystr :=
  match s with
  | [] => [[]]
  | d :: s' =>
      if N.eqb d c then [] :: str_split c s'
      else match str_split c s' with
           | [] => [[d]]
           | w :: ws => (d :: w) :: ws
           end
  end.

(** [s.replace(old, new)] for a non-empty [old]: leftmost occurrences,
    not overlapping. *)
Fixpoint str_replace_fuel (fuel : nat) (old new s : pystr) : pystr :=
  match fuel with
  | O => s
  | S fuel' =>
      match prefix_of old s with
      | Some r => new ++ str_replace_fuel fuel' old new r
      | None =>
          match s with
          | [] => []
          | c :: s' => c :: str_replace_fuel fuel' old new s'
          end
      end
  end.

Definition str_replace (old new s : pystr) : pystr :=
  str_replace_fuel (S (List.length s)) old new s.

(** [needle in hay] on strings. *)
Fixpoint str_contains (needle hay : pystr) : bool :=
  match prefix_of needle hay with
  | Some _ => true
  | None =>
      match hay with
      | [] => false
      | _ :: hay' => str_contains needle hay'
      end
  end.

(** ** Outcomes of a call *)

Inductive exn :=
| KeyError | IndexError | TypeError | AttributeError | RuntimeError
| JSONDecodeError.

(** [Unmodelled]: the call leaves the embedding (a float literal).
    [NoFuel]: a bounded recursion of the model ran out of steps; the
    entry points give enough fuel for this never to happen. *)
Inductive result (A : Type) :=
| Ok (a : A)
| Raise (e : exn)
| Unmodelled
| NoFuel.

Arguments Ok {A} a.
Arguments Raise {A} e.
Arguments Unmodelled {A}.
Arguments NoFuel {A}.

Definition bind {A B} (r : result A) (k : A -> result B) : result B :=
  match r with
  | Ok a => k a
  | Raise e => Raise e
  | Unmodelled => Unmodelled
  | NoFuel => NoFuel
  end.

Notation "x <- c ;; k" := (bind c (fun x => k))
  (at level 61, c at next level, right associativity).
Notation "' p <- c ;; k" := (bind c (fun x => let p := x in k))
  (at level 61, p pattern, c at next level, right associativity).


(** ** Python dictionaries *)

Section PyDict.
Context {K V : Type} (K_dec : forall x y : K, {x = y} + {x <> y}).

Fixpoint dict_get (d : list (K * V)) (k : K) : option V :=
  match d with
  | [] => None
  | (k', v) :: d' => if K_dec k' k then Some v else dict_get d' k
  end.

(** [d[k] = v] *)
Fixpoint dict_set (d : list (K * V)) (k : K) (v : V) : list (K * V) :=
  match d with
  | [] => [(k, v)]
  | (k', v') :: d' =>
      if K_dec k' k then (k', v) :: d' else (k', v') :: dict_set d' k v
  end.

(** [d.pop(k)] keeps the other entries in order. *)
Fixpoint dict_remove (d : list (K * V)) (k : K) : list (K * V) :=
  match d with
  | [] => []
  | (k', v') :: d' =>
      if K_dec k' k then d' else (k', v') :: dict_remove d' k
  end.

Definition dict_mem (d : list (K * V)) (k : K) : bool :=
  match dict_get d k with Some _ => true | None => false end.

Definition dict_keys (d : list (K * V)) : list K := List.map fst d.

(** [dict(pairs)] *)
Definition dict_of_pairs (pairs : list (K * V)) : list (K * V) :=
  fold_left (fun d kv => dict_set d (fst kv) (snd kv)) pairs [].
End PyDict.

(** ** JSON values *)

#[warnings="-register-all"]
Inductive json :=
| JNull
| JBool (b : bool)
| JInt (z : Z)
| JStr (s : pystr)
| JList (l : list json)
| JDict (kvs : list (pystr * json)).

Definition jget := @dict_get pystr json pystr_dec.
Definition jset := @dict_set pystr json pystr_dec.

(** ** string_builder.py *)

Module StringBuilder.

Record t := mk { container : list pystr; delimeter : pystr }.

(** [__init__] *)
Definition init (delimiter : pystr) : t :=
  {| container := []; delimeter := delimiter |}.

Definition add (sb : t) (s : pystr) : t :=
  {| container := container sb ++ [s]; delimeter := delimeter sb |}.

Definition clear (sb : t) : t :=
  {| container := []; delimeter := delimeter sb |}.

(** [list.pop()] raises IndexError on an empty list. *)
Definition pop (sb : t) : result (pystr * t) :=
  match rev (container sb) with
  | [] => Raise IndexError
  | x :: r =>
      Ok (x, {| container := rev r; delimeter := delimeter sb |})
  end.

Definition get (sb : t) : pystr :=
  str_join (delimeter sb) (container sb).

End StringBuilder.

(** ** The [json] module: encoder

    [json.dumps(obj, indent=indent, ensure_ascii=False)]. *)

Definition hex_digit (n : N) : N :=
  if (n <? 10)%N then (48 + n)%N else (87 + n)%N.

(** One character of a string body, as [ESCAPE_DCT] replaces it. *)
Definition escape_char (c : N) : pystr :=
  if (c =? 34)%N then [92; 34]%N
  else if (c =? 92)%N then [92; 92]%N
  else if (c =? 10)%N then [92; 110]%N
  else if (c =? 13)%N then [92; 114]%N
  else if (c =? 9)%N then [92; 116]%N
  else if (c =? 8)%N then [92; 98]%N
  else if (c =? 12)%N then [92; 102]%N
  else if (c <? 32)%N then
    [92; 117; 48; 48; hex_digit (c / 16); hex_digit (c mod 16)]%N
  else [c].

Definition encode_basestring (s : pystr) : pystr :=
  (34 :: flat_map escape_char s ++ [34])%N.

Fixpoint uint_chars (u : Decimal.uint) : pystr :=
  match u with
  | Decimal.Nil => []
  | Decimal.D0 u' => 48%N :: uint_chars u'
  | Decimal.D1 u' => 49%N :: uint_chars u'
  | Decimal.D2 u' => 50%N :: uint_chars u'
  | Decimal.D3 u' => 51%N :: uint_chars u'
  | Decimal.D4 u' => 52%N :: uint_chars u'
  | Decimal.D5 u' => 53%N :: uint_chars u'
  | Decimal.D6 u' => 54%N :: uint_chars u'
  | Decimal.D7 u' => 55%N :: uint_chars u'
  | Decimal.D8 u' => 56%N :: uint_chars u'
  | Decimal.D9 u' => 57%N :: uint_chars u'
  end.

(** [int.__repr__] *)
Definition int_repr (z : Z) : pystr :=
  match Z.to_int z with
  | Decimal.Pos u => uint_chars u
  | Decimal.Neg u => 45%N :: uint_chars u
  end.

Definition newline_indent (indent : option nat) (level : nat) : pystr :=
  match indent with
  | None => []
  | Some n => 10%N :: repeat 32%N (n * level)
  end.

Definition item_separator (indent : option nat) : pystr :=
  match indent with
  | None => [44; 32]%N
  | Some _ => [44]%N
  end.

Definition key_separator : pystr := [58; 32]%N.

Fixpoint encode (indent : option nat) (level : nat) (o : json) : pystr :=
  match o with
  | JNull => py "null"
  | JBool true => py "true"
  | JBool false => py "false"
  | JInt z => int_repr z
  | JStr s => encode_basestring s
  | JList [] => py "[]"
  | JList l =>
      91%N :: newline_indent indent (S level)
        ++ str_join (item_separator indent ++ newline_indent indent (S level))
             (List.map (encode indent (S level)) l)
        ++ newline_indent indent level ++ [93%N]
  | JDict [] => py "{}"
  | JDict kvs =>
      123%N :: newline_indent indent (S level)
        ++ str_join (item_separator indent ++ newline_indent indent (S level))
             (List.map
                (fun kv =>
                   match kv with
                   | (k, v) =>
                       encode_basestring k ++ key_separator
                         ++ encode indent (S level) v
                   end) kvs)
        ++ newline_indent indent level ++ [125%N]
  end.

Definition json_dumps (o : json) (indent : option nat) : pystr :=
  encode indent 0 o.

(** ** The [json] module: decoder *)

Definition is_ws (c : N) : bool :=
  ((c =? 32) || (c =? 9) || (c =? 10) || (c =? 13))%N.

Fixpoint skip_ws (s : pystr) : pystr :=
  match s with
  | [] => []
  | c :: r => if is_ws c then skip_ws r else s
  end.

Definition is_digit (c : N) : bool := ((48 <=? c) && (c <=? 57))%N.

Definition hex_val (c : N) : option N :=
  if is_digit c then Some (c - 48)%N
  else if ((97 <=? c) && (c <=? 102))%N then Some (c - 87)%N
  else if ((65 <=? c) && (c <=? 70))%N then Some (c - 55)%N
  else None.

Definition decode_uXXXX (a b c d : N) : option N :=
  match hex_val a, hex_val b, hex_val c, hex_val d with
  | Some x, Some y, Some z, Some w => Some (((x * 16 + y) * 16 + z) * 16 + w)%N
  | _, _, _, _ => None
  end.

(** The [BACKSLASH] table. *)
Definition backslash (e : N) : option N :=
  if (e =? 34)%N then Some 34%N
  else if (e =? 92)%N then Some 92%N
  else if (e =? 47)%N then Some 47%N
  else if (e =? 98)%N then Some 8%N
  else if (e =? 102)%N then Some 12%N
  else if (e =? 110)%N then Some 10%N
  else if (e =? 114)%N then Some 13%N
  else if (e =? 116)%N then Some 9%N
  else None.

Definition is_high_surrogate (u : N) : bool :=
  ((55296 <=? u) && (u <=? 56319))%N.
Definition is_low_surrogate (u : N) : bool :=
  ((56320 <=? u) && (u <=? 57343))%N.

(** [scanstring] (strict): [s] starts just after the opening quote; the
    result is the decoded string and the text after the closing quote. *)
Fixpoint scanstring (s : pystr) : result (pystr * pystr) :=
  match s with
  | [] => Raise JSONDecodeError
  | c :: r =>
      if (c =? 34)%N then Ok ([], r)
      else if (c =? 92)%N then
        match r with
        | [] => Raise JSONDecodeError
        | e :: r1 =>
            if (e =? 117)%N then
              match r1 with
              | h1 :: h2 :: h3 :: h4 :: r5 =>
                  match decode_uXXXX h1 h2 h3 h4 with
                  | None => Raise JSONDecodeError
                  | Some uni =>
                      match r5 with
                      | b :: u :: r7 =>
                          if is_high_surrogate uni && (b =? 92)%N
                             && (u =? 117)%N
                          then
                            match r7 with
                            | l1 :: l2 :: l3 :: l4 :: r11 =>
                                match decode_uXXXX l1 l2 l3 l4 with
                                | None => Raise JSONDecodeError
                                | Some uni2 =>
                                    if is_low_surrogate uni2 then
                                      '(x, r') <- scanstring r11 ;;
                                      Ok ((65536 + (uni - 55296) * 1024
                                           + (uni2 - 56320))%N :: x, r')
                                    else
                                      '(x, r') <- scanstring r5 ;;
                                      Ok (uni :: x, r')
                                end
                            | _ => Raise JSONDecodeError
                            end
                          else
                            '(x, r') <- scanstring r5 ;; Ok (uni :: x, r')
                      | _ =>
                          '(x, r') <- scanstring r5 ;; Ok (uni :: x, r')
                      end
                  end
              | _ => Raise JSONDecodeError
              end
            else
              match backslash e with
              | None => Raise JSONDecodeError
              | Some ch => '(x, r') <- scanstring r1 ;; Ok (ch :: x, r')
              end
        end
      else if (c <? 32)%N then Raise JSONDecodeError
      else '(x, r') <- scanstring r ;; Ok (c :: x, r')
  end.

Fixpoint take_digits (s : pystr) : pystr * pystr :=
  match s with
  | [] => ([], [])
  | c :: r =>
      if is_digit c then
        let (ds, r') := take_digits r in (c :: ds, r')
      else ([], s)
  end.

Fixpoint chars_uint (ds : pystr) : Decimal.uint :=
  match ds with
  | [] => Decimal.Nil
  | c :: r =>
      (if (c =? 48)%N then Decimal.D0
       else if (c =? 49)%N then Decimal.D1
       else if (c =? 50)%N then Decimal.D2
       else if (c =? 51)%N then Decimal.D3
       else if (c =? 52)%N then Decimal.D4
       else if (c =? 53)%N then Decimal.D5
       else if (c =? 54)%N then Decimal.D6
       else if (c =? 55)%N then Decimal.D7
       else if (c =? 56)%N then Decimal.D8
       else Decimal.D9) (chars_uint r)
  end.

(** [int(ds)] for a run of decimal digits. *)
Definition digits_value (ds : pystr) : Z :=
  Z.of_N (N.of_uint (chars_uint ds)).

(** The integer part of [NUMBER_RE]: [0|[1-9][0-9]*]. *)
Definition match_int (s : pystr) : option (pystr * pystr) :=
  match s with
  | [] => None
  | c :: r =>
      if (c =? 48)%N then Some ([c], r)
      else if is_digit c then
        let (ds, r') := take_digits r in Some (c :: ds, r')
      else None
  end.

(** [(\.[0-9]+)] matches here. *)
Definition has_frac (s : pystr) : bool :=
  match s with
  | p :: c :: _ => (p =? 46)%N && is_digit c
  | _ => false
  end.

(** [([eE][-+]?[0-9]+)] matches here. *)
Definition has_exp (s : pystr) : bool :=
  match s with
  | e :: c :: r =>
      ((e =? 101) || (e =? 69))%N
      && (is_digit c
          || (((c =? 43) || (c =? 45))%N
              && match r with d :: _ => is_digit d | [] => false end))
  | _ => false
  end.

(** A number, or one of the constants [NaN], [Infinity], [-Infinity]. *)
Definition scan_number (s : pystr) : result (json * pystr) :=
  let body := match s with
              | c :: r => if (c =? 45)%N then r else s
              | [] => s
              end in
  let neg := match s with
             | c :: _ => (c =? 45)%N
             | [] => false
             end in
  match match_int body with
  | Some (ds, r) =>
      if has_frac r || has_exp r then Unmodelled
      else Ok (JInt (if neg then - digits_value ds else digits_value ds)%Z, r)
  | None =>
      match prefix_of (py "NaN") s, prefix_of (py "Infinity") s,
            prefix_of (py "-Infinity") s with
      | None, None, None => Raise JSONDecodeError
      | _, _, _ => Unmodelled
      end
  end.

(** [scan_once], with the loops of [JSONArray] and [JSONObject]:
    [array_items] starts at a value, [object_pairs] just after the
    opening quote of a key. *)
Fixpoint scan_once (fuel : nat) (s : pystr) : result (json * pystr) :=
  match fuel with
  | O => NoFuel
  | S f =>
      match s with
      | [] => Raise JSONDecodeError
      | c :: r =>
          if (c =? 34)%N then
            '(x, r') <- scanstring r ;; Ok (JStr x, r')
          else if (c =? 123)%N then
            match skip_ws r with
            | [] => Raise JSONDecodeError
            | c1 :: r1 =>
                if (c1 =? 125)%N then Ok (JDict [], r1)
                else if (c1 =? 34)%N then
                  '(pairs, r') <- object_pairs f r1 ;;
                  Ok (JDict (dict_of_pairs pystr_dec pairs), r')
                else Raise JSONDecodeError
            end
          else if (c =? 91)%N then
            match skip_ws r with
            | [] => Raise JSONDecodeError
            | c1 :: r1 =>
                if (c1 =? 93)%N then Ok (JList [], r1)
                else
                  '(items, r') <- array_items f (c1 :: r1) ;;
                  Ok (JList items, r')
            end
          else
            match prefix_of (py "null") s, prefix_of (py "true") s,
                  prefix_of (py "false") s with
            | Some r', _, _ => Ok (JNull, r')
            | None, Some r', _ => Ok (JBool true, r')
            | None, None, Some r' => Ok (JBool false, r')
            | None, None, None => scan_number s
            end
      end
  end
with array_items (fuel : nat) (s : pystr) : result (list json * pystr) :=
  match fuel with
  | O => NoFuel
  | S f =>
      '(v, r) <- scan_once f s ;;
      match skip_ws r with
      | [] => Raise JSONDecodeError
      | c :: r1 =>
          if (c =? 93)%N then Ok ([v], r1)
          else if (c =? 44)%N then
            '(vs, r2) <- array_items f (skip_ws r1) ;; Ok (v :: vs, r2)
          else Raise JSONDecodeError
      end
  end
with object_pairs (fuel : nat) (s : pystr)
  : result (list (pystr * json) * pystr) :=
  match fuel with
  | O => NoFuel
  | S f =>
      '(key, r) <- scanstring s ;;
      match skip_ws r with
      | [] => Raise JSONDecodeError
      | c :: r1 =>
          if (c =? 58)%N then
            '(v, r2) <- scan_once f (skip_ws r1) ;;
            match skip_ws r2 with
            | [] => Raise JSONDecodeError
            | c2 :: r3 =>
                if (c2 =? 125)%N then Ok ([(key, v)], r3)
                else if (c2 =? 44)%N then
                  match skip_ws r3 with
                  | [] => Raise JSONDecodeError
                  | q :: r4 =>
                      if (q =? 34)%N then
                        '(ps, r5) <- object_pairs f r4 ;;
                        Ok ((key, v) :: ps, r5)
                      else Raise JSONDecodeError
                  end
                else Raise JSONDecodeError
            end
          else Raise JSONDecodeError
      end
  end.

(** [json.loads(s)] *)
Definition json_loads (s : pystr) : result json :=
  '(v, r) <- scan_once (S (S (2 * List.length s))) (skip_ws s) ;;
  match skip_ws r with
  | [] => Ok v
  | _ :: _ => Raise JSONDecodeError
  end.

(** ** The pieces of [re] and [str] used by the formatter *)

(** [Py_UNICODE_ISSPACE]: what [\s] and [str.strip()] take for white
    space. *)
Definition is_space (c : N) : bool :=
  (((9 <=? c) && (c <=? 13)) || ((28 <=? c) && (c <=? 32))
   || (c =? 133) || (c =? 160) || (c =? 5760)
   || ((8192 <=? c) && (c <=? 8202))
   || (c =? 8232) || (c =? 8233) || (c =? 8239) || (c =? 8287)
   || (c =? 12288))%N.

(** [re.sub(r'\s+', ' ', s)]; [in_run] tells that the previous character
    belonged to the run being replaced. *)
Fixpoint sub_spaces (in_run : bool) (s : pystr) : pystr :=
  match s with
  | [] => []
  | c :: r =>
      if is_space c then
        if in_run then sub_spaces true r else 32%N :: sub_spaces true r
      else c :: sub_spaces false r
  end.

Fixpoint lstrip (s : pystr) : pystr :=
  match s with
  | [] => []
  | c :: r => if is_space c then lstrip r else s
  end.

Definition strip (s : pystr) : pystr := rev (lstrip (rev (lstrip s))).

(** The lazy group of ["{(.*?)}"] from just after the opening brace:
    the shortest run without a newline that is followed by a closing
    brace and a quote. *)
Fixpoint lazy_group (s : pystr) : option (pystr * pystr) :=
  match s with
  | [] => None
  | c :: r =>
      match prefix_of [125; 34]%N s with
      | Some rest => Some ([], rest)
      | None =>
          if (c =? 10)%N then None
          else match lazy_group r with
               | Some (g, rest) => Some (c :: g, rest)
               | None => None
               end
      end
  end.

(** [re.sub(r'"{(.*?)}"', r'{\1}', s)] *)
Fixpoint sub_quoted_braces_fuel (fuel : nat) (s : pystr) : pystr :=
  match fuel with
  | O => s
  | S f =>
      match s with
      | [] => []
      | c :: r =>
          match prefix_of [34; 123]%N s with
          | Some body =>
              match lazy_group body with
              | Some (g, rest) =>
                  (123%N :: g) ++ 125%N :: sub_quoted_braces_fuel f rest
              | None => c :: sub_quoted_braces_fuel f r
              end
          | None => c :: sub_quoted_braces_fuel f r
          end
      end
  end.

Definition sub_quoted_braces (s : pystr) : pystr :=
  sub_quoted_braces_fuel (S (List.length s)) s.

(** ** utility.py

    The configuration file is not part of the sources: the values it
    holds and the tokenizer are the fields of this record. *)

Record Utility := {
  get_dummy_placeholder : pystr;
  get_delimiter : pystr;
  get_max_token : Z;
  get_model_name : pystr;
  num_tokens_from_string : pystr -> pystr -> Z
}.

(** ** json_operations.py *)

Record JsonOperations := {
  data : json;
  json_list_dict : list (pystr * json);
  string_builder : StringBuilder.t
}.

Definition with_data (self : JsonOperations) (d : json) : JsonOperations :=
  {| data := d;
     json_list_dict := json_list_dict self;
     string_builder := string_builder self |}.

Definition with_builder (self : JsonOperations) (sb : StringBuilder.t)
  : JsonOperations :=
  {| data := data self;
     json_list_dict := json_list_dict self;
     string_builder := sb |}.

(** [JsonOperations.__init__]: a root that is not a mapping is wrapped
    under the placeholder key. *)
Definition JsonOperations_init (U : Utility) (d : json) : JsonOperations :=
  {| data := match d with
             | JDict _ => d
             | _ => JDict [(get_dummy_placeholder U, d)]
             end;
     json_list_dict := [];
     string_builder := StringBuilder.init (get_delimiter U) |}.

Definition to_json_string (input_dict : json) (indent : option nat) : pystr :=
  json_dumps input_dict indent.

(** The loop [for key in keys[:-1]: d = d.get(key, {})] followed by
    [d[keys[-1]] = new_value], returning the tree rooted at [d] after the
    assignment.  A missing key yields a fresh mapping that is attached
    nowhere, so the assignment is lost and nothing is raised. *)
Fixpoint update_walk (keys : list pystr) (last_key : pystr)
  (new_value : json) (d : json) : result json :=
  match keys with
  | [] =>
      match d with
      | JDict kvs => Ok (JDict (jset kvs last_key new_value))
      | _ => Raise TypeError
      end
  | k :: ks =>
      match d with
      | JDict kvs =>
          match jget kvs k with
          | Some child =>
              child' <- update_walk ks last_key new_value child ;;
              Ok (JDict (jset kvs k child'))
          | None => Ok d
          end
      | _ => Raise AttributeError
      end
  end.

Definition update_value (key_chain : pystr) (new_value : json) (base : json)
  : result json :=
  let keys := str_split 47%N key_chain in
  update_walk (removelast keys) (last keys []) new_value base.

(** The object a reference held by the traversal points to: references
    into the working document are paths of keys from its root. *)
Fixpoint node_at (ref : list pystr) (d : json) : option json :=
  match ref with
  | [] => Some d
  | k :: ks =>
      match d with
      | JDict kvs =>
          match jget kvs k with
          | Some c => node_at ks c
          | None => None
          end
      | _ => None
      end
  end.

Fixpoint json_depth (d : json) : nat :=
  match d with
  | JDict kvs =>
      S (fold_right (fun kv m => Nat.max (json_depth (snd kv)) m) 0 kvs)
  | JList l => S (fold_right (fun x m => Nat.max (json_depth x) m) 0 l)
  | _ => 0
  end.

(** The test of the [elif] branch of [json_traverse]. *)
Definition exceeds_max_token (U : Utility) (json_obj : json) : bool :=
  let serialized_json := json_dumps json_obj None in
  (num_tokens_from_string U serialized_json (get_model_name U)
   >? get_max_token U)%Z.

(** The loop [for key, value in json_obj.items()] of [json_traverse],
    from entry [i] on, where [json_obj] is the mapping at [ref] in
    [self.data] and had [size] entries when the loop began; [rec] is
    the recursive call.  The mapping is read from the working document
    at every step, as the dictionary iterator does: a change of size
    raises RuntimeError, an overwritten value is seen.  Were the
    iterated object no longer in the document the run would leave the
    embedding. *)
Fixpoint traverse_items
  (rec : list pystr -> JsonOperations -> result JsonOperations)
  (ref : list pystr) (size i remaining : nat) (self : JsonOperations)
  {struct remaining} : result JsonOperations :=
  match remaining with
  | O => Ok self
  | S remaining' =>
      match node_at ref (data self) with
      | Some (JDict now) =>
          if Nat.eqb (List.length now) size then
            match nth_error now i with
            | Some (key, _) =>
                let self1 :=
                  with_builder self
                    (StringBuilder.add (string_builder self) key) in
                self2 <- rec (ref ++ [key]) self1 ;;
                '(_, sb) <- StringBuilder.pop (string_builder self2) ;;
                traverse_items rec ref size (S i) remaining'
                  (with_builder self2 sb)
            | None => Raise RuntimeError
            end
          else Raise RuntimeError
      | _ => Unmodelled
      end
  end.

(** [json_traverse(json_obj)], where [json_obj] is the object at [ref]
    in [self.data]. *)
Fixpoint json_traverse_at (fuel : nat) (U : Utility) (ref : list pystr)
  (self : JsonOperations) : result JsonOperations :=
  match fuel with
  | O => NoFuel
  | S f =>
      match node_at ref (data self) with
      | None => Unmodelled
      | Some (JDict kvs) =>
          traverse_items (json_traverse_at f U) ref (List.length kvs)
            0 (List.length kvs) self
      | Some (JList l) =>
          if exceeds_max_token U (JList l) then
            let key_chain := StringBuilder.get (string_builder self) in
            let dict' :=
              dict_set pystr_dec (json_list_dict self) key_chain (JList l) in
            data' <- update_value key_chain (JStr (get_dummy_placeholder U))
                       (data self) ;;
            Ok {| data := data';
                  json_list_dict := dict';
                  string_builder := string_builder self |}
          else Ok self
      | Some _ => Ok self
      end
  end.

(** [self.json_traverse(self.data)], the only call in the sources. *)
Definition json_traverse (U : Utility) (self : JsonOperations)
  : result JsonOperations :=
  json_traverse_at (S (json_depth (data self))) U [] self.

(** [PH in json_object], then [json_object[PH]] or [json_object]. *)
Definition unwrap_placeholder (U : Utility) (json_object : json)
  : result json :=
  let ph := get_dummy_placeholder U in
  match json_object with
  | JDict kvs =>
      match jget kvs ph with
      | Some v => Ok v
      | None => Ok json_object
      end
  | JList l =>
      if existsb (fun x => match x with
                           | JStr s => pystr_eqb s ph
                           | _ => false
                           end) l
      then Raise TypeError else Ok json_object
  | JStr s => if str_contains ph s then Raise TypeError else Ok json_object
  | _ => Raise TypeError
  end.

(** The text handed to the final [json.loads]. *)
Definition cleanup (json_string : pystr) : pystr :=
  let replaced :=
    str_replace [226; 8364; 8221]%N [226; 8364; 8220]%N
      (str_replace [92; 34]%N [34%N]
         (str_replace [92; 110]%N [] json_string)) in
  let cleaned_string := strip (sub_spaces false replaced) in
  sub_quoted_braces cleaned_string.

Definition to_json_object_formatted (U : Utility) (input_dict : json)
  : result json :=
  json_object <- json_loads (cleanup (to_json_string input_dict None)) ;;
  unwrap_placeholder U json_object.

(** The result map: key chain to (index to text), as [run_inputs] builds
    it; [default_factory] tells a [defaultdict(dict)] from a [dict]. *)
Record resmap := {
  default_factory : bool;
  items : list (pystr * list (Z * pystr))
}.

(** [[data[key_chain][index] for index in range(n)]] with
    [n = len(data[key_chain])]. *)
Definition updated_list (entries : list (Z * pystr)) : result (list pystr) :=
  fold_right
    (fun index acc =>
       match dict_get Z.eq_dec entries (Z.of_nat index) with
       | Some text => rest <- acc ;; Ok (text :: rest)
       | None => Raise KeyError
       end)
    (Ok []) (seq 0 (List.length entries)).

(** [base[key_chain] = updated_list] *)
Definition setitem (base : json) (k : pystr) (v : json) : result json :=
  match base with
  | JDict kvs => Ok (JDict (jset kvs k v))
  | _ => Raise TypeError
  end.

(** The body of the loop of [json_recover] for one key chain. *)
Definition recover_chain (entries : list (Z * pystr)) (key_chain : pystr)
  (base : json) : result json :=
  texts <- updated_list entries ;;
  let value := JList (List.map JStr texts) in
  base1 <- setitem base key_chain value ;;
  update_value key_chain value base1.

Fixpoint recover_loop (chains : list (pystr * list (Z * pystr)))
  (base : json) : result json :=
  match chains with
  | [] => Ok base
  | (key_chain, entries) :: rest =>
      base' <- recover_chain entries key_chain base ;;
      recover_loop rest base'
  end.

(** [json_recover(data)]: the caller's map after the call, and the
    outcome. *)
Definition json_recover (U : Utility) (d : resmap) : resmap * result json :=
  match dict_get pystr_dec (items d) [47%N] with
  | None =>
      ({| default_factory := default_factory d;
          items := if default_factory d then items d ++ [([47%N], [])]
                   else items d |},
       Raise KeyError)
  | Some root =>
      match dict_get Z.eq_dec root 0%Z with
      | None => (d, Raise KeyError)
      | Some text =>
          match json_loads text with
          | Ok base =>
              let d' := {| default_factory := default_factory d;
                           items := dict_remove pystr_dec (items d) [47%N] |} in
              (d', base' <- recover_loop (items d') base ;;
                   to_json_object_formatted U base')
          | Raise e => (d, Raise e)
          | Unmodelled => (d, Unmodelled)
          | NoFuel => (d, NoFuel)
          end
      end
  end.

(** ** prepare_batch.py *)

Definition work_unit := (pystr * Z * pystr * Z)%type.

Definition prepare_tuple_for_input_list (U : Utility) (d : json)
  (full_key_sequence : pystr) (index : Z) : work_unit :=
  let system_content := to_json_string d (Some 4) in
  let num_tokens :=
    num_tokens_from_string U system_content (get_model_name U) in
  (full_key_sequence, index, system_content, (num_tokens * 3)%Z).

(** [enumerate(list_data)] *)
Fixpoint enumerate {A} (start : Z) (l : list A) : list (Z * A) :=
  match l with
  | [] => []
  | x :: r => (start, x) :: enumerate (start + 1)%Z r
  end.

(** The units of one extracted entry; iterating a value that is not a
    list does not occur, the map only holds lists. *)
Definition units_of_entry (U : Utility) (entry : pystr * json) : list work_unit :=
  match entry with
  | (key_sequence, JList list_data) =>
      List.map (fun ix => prepare_tuple_for_input_list U (snd ix)
                            key_sequence (fst ix))
        (enumerate 0%Z list_data)
  | (_, _) => []
  end.

(** [create_input_list]: the operations object after the traversal, and
    the list. *)
Definition create_input_list (U : Utility) (self : JsonOperations)
  : result (JsonOperations * list work_unit) :=
  self' <- json_traverse U self ;;
  Ok (self',
      prepare_tuple_for_input_list U (data self') [47%N] 0%Z
        :: flat_map (units_of_entry U) (json_list_dict self')).

(** ** llm_operations.py *)

Definition address_dec : forall x y : pystr * Z, {x = y} + {x <> y}.
Proof. decide equality; [apply Z.eq_dec | apply pystr_dec]. Defined.

(** [run_inputs], for an external service [get_response] that maps the
    system input and the token budget to a text. *)
Definition run_inputs (get_response : pystr -> Z -> pystr)
  (input_list : list work_unit) : resmap :=
  let tasks :=
    dict_of_pairs address_dec
      (List.map (fun u => match u with
                          | (key_chain, index, system_input, num_tokens) =>
                              ((key_chain, index),
                               get_response system_input num_tokens)
                          end) input_list) in
  {| default_factory := true;
     items :=
       fold_left
         (fun final_result t =>
            match t with
            | ((key_chain, index), r) =>
                let inner := match dict_get pystr_dec final_result key_chain with
                             | Some m => m
                             | None => []
                             end in
                dict_set pystr_dec final_result key_chain
                  (dict_set Z.eq_dec inner index r)
            end) tasks [] |}.

(** [LlmOperations(data, ...).get_updated_data()]; [data.copy()] in the
    constructor needs a list or a mapping. *)
Definition get_updated_data (U : Utility) (get_response : pystr -> Z -> pystr)
  (d : json) : result json :=
  match d with
  | JDict _ | JList _ =>
      '(_, input_list) <- create_input_list U (JsonOperations_init U d) ;;
      snd (json_recover U (run_inputs get_response input_list))
  | _ => Raise AttributeError
  end.

(** The external service that returns its input unchanged. *)
Definition identity_response (system_input : pystr) (_ : Z) : pystr :=
  system_input.

(** ** Notions used by the statements *)

(** A Python dictionary has pairwise distinct keys. *)
Definition dict_wf {K V : Type} (d : list (K * V)) : Prop :=
  NoDup (dict_keys d).

(** The text stored at the root address [("/", 0)]. *)
Definition root_text (d : resmap) : option pystr :=
  match dict_get pystr_dec (items d) [47%N] with
  | Some root => dict_get Z.eq_dec root 0%Z
  | None => None
  end.

(** The entries [json_recover] loops over once the root is popped. *)
Definition remaining_chains (d : resmap) : list (pystr * list (Z * pystr)) :=
  dict_remove pystr_dec (items d) [47%N].

(** The text stored at an address [(chain, index)]. *)
Definition entry_at (d : resmap) (a : pystr * Z) : option pystr :=
  match dict_get pystr_dec (items d) (fst a) with
  | Some m => dict_get Z.eq_dec m (snd a)
  | None => None
  end.

Definition address (u : work_unit) : pystr * Z :=
  match u with
  | (key_chain, index, _, _) => (key_chain, index)
  end.

Definition payload (u : work_unit) : pystr :=
  match u with
  | (_, _, system_content, _) => system_content
  end.

(** The elements of an extracted array. *)
Definition elements (arr : json) : list json :=
  match arr with
  | JList l => l
  | _ => []
  end.

(** What the representation of a document guarantees: the keys of every
    mapping are pairwise distinct. *)
Fixpoint distinct (l : list pystr) : bool :=
  match l with
  | [] => true
  | x :: r => negb (existsb (pystr_eqb x) r) && distinct r
  end.

Fixpoint json_wf (d : json) : bool :=
  match d with
  | JDict kvs =>
      distinct (List.map fst kvs)
      && forallb (fun kv => match kv with (_, v) => json_wf v end) kvs
  | JList l => forallb json_wf l
  | _ => true
  end.

Definition no_slash (k : pystr) : bool := negb (existsb (N.eqb 47) k).

(** No key of a mapping reached through mappings only holds the
    separator. *)
Fixpoint slash_free (d : json) : bool :=
  match d with
  | JDict kvs =>
      forallb (fun kv => match kv with
                         | (k, v) => no_slash k && slash_free v
                         end) kvs
  | _ => true
  end.

(** The arrays reached through mappings only, with the keys that lead
    to each. *)
Fixpoint arrays_at (path : list pystr) (d : json)
  : list (list pystr * list json) :=
  match d with
  | JDict kvs =>
      flat_map (fun kv => match kv with
                          | (k, v) => arrays_at (path ++ [k]) v
                          end) kvs
  | JList l => [(path, l)]
  | _ => []
  end.

(** The working document after one pass, as a function of the
    document: every array over budget reached through mappings only is
    the placeholder. *)
Fixpoint index_doc (U : Utility) (d : json) : json :=
  match d with
  | JDict kvs =>
      JDict (List.map (fun kv => match kv with
                                 | (k, v) => (k, index_doc U v)
                                 end) kvs)
  | JList l =>
      if exceeds_max_token U d then JStr (get_dummy_placeholder U) else d
  | _ => d
  end.

(** The arrays one pass records, in the order it meets them. *)
Fixpoint extract (U : Utility) (path : list pystr) (d : json)
  : list (pystr * json) :=
  match d with
  | JDict kvs =>
      flat_map (fun kv => match kv with
                          | (k, v) => extract U (path ++ [k]) v
                          end) kvs
  | JList l =>
      if exceeds_max_token U d then [(str_join [47%N] path, d)] else []
  | _ => []
  end.

Definition record_all (m : list (pystr * json)) (es : list (pystr * json))
  : list (pystr * json) :=
  fold_left (fun m e => dict_set pystr_dec m (fst e) (snd e)) es m.

(** The document with the node at [ref] replaced. *)
Fixpoint set_at (ref : list pystr) (v : json) (d : json) : json :=
  match ref with
  | [] => v
  | k :: ks =>
      match d with
      | JDict kvs =>
          match jget kvs k with
          | Some c => JDict (jset kvs k (set_at ks v c))
          | None => d
          end
      | _ => d
      end
  end.


Definition is_dict (d : json) : bool :=
  match d with
  | JDict _ => true
  | _ => false
  end.

(** The working document [JsonOperations(d).data]. *)
Definition working_document (U : Utility) (d : json) : json :=
  data (JsonOperations_init U d).

Definition idx (U : Utility) (kv : pystr * json) : pystr * json :=
  match kv with
  | (k, v) => (k, index_doc U v)
  end.

(** The operations object after the traversal of the node at [ref], as
    a function of the object before it. *)
Definition indexed (U : Utility) (ref : list pystr) (node : json)
  (self : JsonOperations) : JsonOperations :=
  {| data := set_at ref (index_doc U node) (data self);
     json_list_dict := record_all (json_list_dict self) (extract U ref node);
     string_builder := string_builder self |}.

(** The builder holds the keys of [ref], with the separator of key
    chains as its delimiter. *)
Definition builder_at (ref : list pystr) (self : JsonOperations) : Prop :=
  string_builder self =
    {| StringBuilder.container := ref; StringBuilder.delimeter := [47%N] |}.


(** The checks behind the round trip of the encoder and the decoder. *)

Definition control_ok (c : N) : bool :=
  match decode_uXXXX 48 48 (hex_digit (c / 16)) (hex_digit (c mod 16)) with
  | Some u => (u =? c)%N
  | None => false
  end.

Definition num_follow (rest : pystr) : bool :=
  match rest with
  | [] => true
  | c :: _ =>
      negb (is_digit c) && negb (c =? 46)%N && negb (c =? 101)%N
      && negb (c =? 69)%N
  end.

Definition value_parses (indent : option nat) (lvl : nat) (x : json) : Prop :=
  forall rest fuel,
    num_follow rest = true ->
    2 * List.length (encode indent lvl x ++ rest) < fuel ->
    scan_once fuel (encode indent lvl x ++ rest) = Ok (x, rest).

Definition pair_text (indent : option nat) (lvl : nat) (kv : pystr * json)
  : pystr :=
  match kv with
  | (k, v) => encode_basestring k ++ key_separator ++ encode indent lvl v
  end.

(** The input of the engine is a list or a mapping. *)
Definition is_container (d : json) : bool :=
  match d with
  | JDict _ | JList _ => true
  | _ => false
  end.

(** The document has no top-level key equal to the placeholder. *)
Definition no_placeholder_key (U : Utility) (d : json) : bool :=
  match d with
  | JDict kvs => negb (dict_mem pystr_dec kvs (get_dummy_placeholder U))
  | _ => true
  end.


(** Every array reached through mappings only fits the budget. *)
Definition nothing_to_extract (U : Utility) (d : json) : bool :=
  forallb (fun pl => negb (exceeds_max_token U (JList (snd pl))))
    (arrays_at [] d).

(** Two key paths part ways: after a common prefix they go on with
    different keys. *)
Definition diverge (p q : list pystr) : Prop :=
  exists (common : list pystr) (k1 k2 : pystr) (r1 r2 : list pystr),
    p = common ++ k1 :: r1 /\ q = common ++ k2 :: r2 /\ k1 <> k2.

(** [PrepareBatch]: the operations object and the instructions. *)

(** The dictionary [create_batch_message] serializes. *)
Definition message_dict (U : Utility)
  (system_content user_content custom_id : pystr) : json :=
  let system_message :=
    JDict [(py "role", JStr (py "system"));
           (py "content", JStr system_content)] in
  let user_message :=
    JDict [(py "role", JStr (py "user"));
           (py "content", JStr user_content)] in
  let num_tokens :=
    num_tokens_from_string U system_content (get_model_name U) in
  let request_body :=
    JDict [(py "model", JStr (get_model_name U));
           (py "messages", JList [system_message; user_message]);
           (py "max_tokens", JInt (num_tokens * 3)%Z)] in
  JDict [(py "custom_id", JStr custom_id);
         (py "method", JStr (py "POST"));
         (py "url", JStr (py "/v1/chat/completions"));
         (py "body", request_body)].

Definition create_batch_message (U : Utility)
  (system_content user_content custom_id : pystr) : pystr :=
  to_json_string (message_dict U system_content user_content custom_id) None.

(** The messages of one extracted entry: the inner loop of
    [batch_lists], [str(i)] being [int_repr]. *)
Definition messages_of_entry (U : Utility) (instructions : pystr)
  (entry : pystr * json) : list pystr :=
  match entry with
  | (custom_id, JList list_data) =>
      List.map
        (fun ix =>
           create_batch_message U (to_json_string (snd ix) (Some 4))
             instructions (custom_id ++ [47%N] ++ int_repr (fst ix)))
        (enumerate 0%Z list_data)
  | (_, _) => []
  end.

(** The messages [batch_lists] adds to its builder, in order. *)
Definition batch_messages (U : Utility) (instructions : pystr)
  (self : JsonOperations) : list pystr :=
  create_batch_message U (to_json_string (data self) (Some 4))
    instructions [47%N]
    :: flat_map (messages_of_entry U instructions) (json_list_dict self).

(** [batch_lists]: the operations object after the traversal, and the
    text. *)
Definition batch_lists (U : Utility) (instructions : pystr)
  (self : JsonOperations) : result (JsonOperations * pystr) :=
  self' <- json_traverse U self ;;
  let string_builder :=
    fold_left StringBuilder.add
      (batch_messages U instructions self' ++ [[]])
      (StringBuilder.init [10%N]) in
  Ok (self', StringBuilder.get string_builder).

(** The custom id [batch_lists] gives to an extracted work unit. *)
Definition custom_id (u : work_unit) : pystr :=
  match u with
  | (key_chain, index, _, _) => key_chain ++ [47%N] ++ int_repr index
  end.

(** No character of the text is a control character. *)
Definition no_control (s : pystr) : Prop := Forall (fun c => (32 <= c)%N) s.

(** The task [run_inputs] creates for a work unit: its address and the
    response of the service. *)
Definition task_of (get_response : pystr -> Z -> pystr) (u : work_unit)
  : (pystr * Z) * pystr :=
  match u with
  | (key_chain, index, system_input, num_tokens) =>
      ((key_chain, index), get_response system_input num_tokens)
  end.

(** An entry of the extraction map holds an array over the budget. *)
Definition over_budget_array (U : Utility) (e : pystr * json) : Prop :=
  exists l : list json,
    snd e = JList l /\ exceeds_max_token U (JList l) = true.

(** What any pass keeps, whatever the keys look like: the builder ends
    as it began, the working document stays a mapping, the extraction
    map keeps distinct keys, and it only gains arrays over the budget. *)
Definition pass_keeps (U : Utility) (before after : JsonOperations) : Prop :=
  string_builder after = string_builder before /\
  (is_dict (data before) = true -> is_dict (data after) = true) /\
  (dict_wf (json_list_dict before) -> dict_wf (json_list_dict after)) /\
  (forall e : pystr * json,
      In e (json_list_dict after) ->
      In e (json_list_dict before) \/ over_budget_array U e).

(** The response of the service to the work unit of one element. *)
Definition response_to (U : Utility) (get_response : pystr -> Z -> pystr)
  (element : json) : pystr :=
  match prepare_tuple_for_input_list U element [] 0%Z with
  | (_, _, system_input, num_tokens) => get_response system_input num_tokens
  end.

(** The white space of the text is single spaces, each after a
    character that is none; [in_run] tells that the previous character
    was white space. *)
Fixpoint single_spaced (in_run : bool) (s : pystr) : bool :=
  match s with
  | [] => true
  | c :: r =>
      if is_space c then (c =? 32)%N && negb in_run && single_spaced true r
      else single_spaced false r
  end.

(** The text neither starts nor ends with white space. *)
Definition trimmed (s : pystr) : bool :=
  match s, rev s with
  | c :: _, e :: _ => negb (is_space c) && negb (is_space e)
  | _, _ => true
  end.

(** The text holds none of the sequences the formatter rewrites:
    backslash n, backslash quote, the three characters U+00E2 U+20AC
    U+201D, a quote followed by an opening brace; and its white space
    is single spaces inside the text. *)
Definition clean_text (s : pystr) : bool :=
  negb (str_contains [92; 110]%N s)
  && negb (str_contains [92; 34]%N s)
  && negb (str_contains [226; 8364; 8221]%N s)
  && single_spaced false s && trimmed s
  && negb (str_contains [34; 123]%N s).

(** A character that the encoder writes as it is and that the clean-up
    has no rule for; the space is one. *)
Definition plain_char (c : N) : bool :=
  (32 <=? c)%N && negb (c =? 34)%N && negb (c =? 92)%N
  && negb (c =? 8221)%N && (negb (is_space c) || (c =? 32)%N).

(** A string of plain characters whose spaces are single and which does
    not start with an opening brace. *)
Definition plain_str (s : pystr) : bool :=
  forallb plain_char s && single_spaced false s
  && match s with
     | c :: _ => negb (c =? 123)%N
     | [] => true
     end.

(** Every string and every key of the document is plain. *)
Fixpoint plain_doc (d : json) : bool :=
  match d with
  | JStr s => plain_str s
  | JList l => forallb plain_doc l
  | JDict kvs =>
      forallb (fun kv => match kv with
                         | (k, v) => plain_str k && plain_doc v
                         end) kvs
  | _ => true
  end.

(** Shapes of a text that concatenation keeps, for the serialization of
    a plain document: it holds no backslash and no U+201D; *)
Definition never_rewritten (t : pystr) : Prop :=
  Forall (fun c => c <> 92%N /\ c <> 8221%N) t.

(** its white space is single spaces, whatever comes before and after; *)
Definition spaced (t : pystr) : Prop :=
  forall (in_run : bool) (rest : pystr),
    single_spaced in_run (t ++ rest) = single_spaced false rest.

(** no quote of it is followed by an opening brace, when the text goes
    on with a character that is none; *)
Definition unquoted (t : pystr) : Prop :=
  forall (c : N) (rest : pystr),
    c <> 123%N ->
    str_contains [34; 123]%N (t ++ c :: rest)
    = str_contains [34; 123]%N (c :: rest).

(** it starts and ends with a character that is no white space. *)
Definition solid_ends (t : pystr) : Prop :=
  (exists h r, t = h :: r /\ is_space h = false) /\
  (exists x e, t = x ++ [e] /\ is_space e = false).

(** The result maps of the malformed-recovery property, with the
    exception each one ends in. *)
Inductive malformed (d : resmap) : exn -> Prop :=
| Missing_root :
    root_text d = None -> malformed d KeyError
| Malformed_root (text : pystr) :
    root_text d = Some text ->
    json_loads text = Raise JSONDecodeError ->
    malformed d JSONDecodeError
| Malformed_cleaned (text : pystr) (base base' : json) :
    root_text d = Some text ->
    json_loads text = Ok base ->
    recover_loop (remaining_chains d) base = Ok base' ->
    json_loads (cleanup (to_json_string base' None)) = Raise JSONDecodeError ->
    malformed d JSONDecodeError.



Definition inner_wf (d : resmap) : Prop :=
  Forall (fun e => dict_wf (snd e)) (items d).

(** Concrete configurations and inputs for the examples: the tokenizer
    counts characters. *)
Module Examples.

Definition utility (max_token : Z) : Utility :=
  {| get_dummy_placeholder := py "__PLACEHOLDER__";
     get_delimiter := py "/";
     get_max_token := max_token;
     get_model_name := py "gpt-4o";
     num_tokens_from_string := fun s _ => Z.of_nat (List.length s) |}.

Definition placeholder : json := JStr (py "__PLACEHOLDER__").

(** [[1, 2, 3]] *)
Definition one_two_three : json := JList [JInt 1; JInt 2; JInt 3].

(** [{"a": {"b": "__PLACEHOLDER__"}}] *)
Definition nested_base : json :=
  JDict [(py "a", JDict [(py "b", placeholder)])].

(** [{"/": {0: "not json"}}] *)
Definition not_json_map : resmap :=
  {| default_factory := true;
     items := [(py "/", [(0%Z, py "not json")])] |}.

(** [{"/": {0: "5"}}] *)
Definition five_map : resmap :=
  {| default_factory := true;
     items := [(py "/", [(0%Z, py "5")])] |}.

(** [{"a": [1, 2]}] *)
Definition two_items : json := JDict [(py "a", JList [JInt 1; JInt 2])].


(** Entries of one chain, stored out of order. *)
Definition shuffled : list (Z * pystr) :=
  [(2%Z, py "c"); (0%Z, py "a"); (1%Z, py "b")].

(** [{"a/b": [1, 2, 3]}] *)
Definition slash_key : json := JDict [(py "a/b", one_two_three)].

(** [{"a/b/c": [1], "a": {}, "a/b": [3]}] *)
Definition three_keys : json :=
  JDict [(py "a/b/c", JList [JInt 1]); (py "a", JDict []);
         (py "a/b", JList [JInt 3])].

(** [{"a": {"b": [1, 2, 3]}, "c": [1]}] *)
Definition nested_doc : json :=
  JDict [(py "a", JDict [(py "b", one_two_three)]); (py "c", JList [JInt 1])].


End Examples.

(** * Properties *)

Arguments N.eqb : simpl never.
Arguments N.leb : simpl never.
Arguments N.ltb : simpl never.

(** ** Dictionaries *)

Section DictFacts.
Context {K V : Type} (K_dec : forall x y : K, {x = y} + {x <> y}).

Lemma dict_get_In (d : list (K * V)) (k : K) (v : V) :
  dict_get K_dec d k = Some v -> In (k, v) d.
Proof.
  induction d as [|[k' v'] d IH]; simpl; [discriminate|].
  destruct (K_dec k' k) as [->|Hne]; intros H.
  - inversion H; subst; now left.
  - right; auto.
Qed.

Lemma dict_get_None (d : list (K * V)) (k : K) :
  dict_get K_dec d k = None <-> ~ In k (dict_keys d).
Proof.
  induction d as [|[k' v'] d IH]; simpl.
  - split; auto.
  - destruct (K_dec k' k) as [->|Hne]; split; intros H.
    + discriminate.
    + exfalso; apply H; now left.
    + intros [E|I]; [contradiction|]. now apply IH in I.
    + apply IH. intros I; apply H; now right.
Qed.

Lemma In_dict_get (d : list (K * V)) (k : K) (v : V) :
  dict_wf d -> In (k, v) d -> dict_get K_dec d k = Some v.
Proof.
  unfold dict_wf, dict_keys.
  induction d as [|[k' v'] d IH]; simpl; [tauto|].
  intros Hnd [E|I].
  - inversion E; subst. destruct (K_dec k k); congruence.
  - inversion Hnd; subst.
    destruct (K_dec k' k) as [->|Hne].
    + exfalso. apply H1. apply (in_map fst) in I. exact I.
    + auto.
Qed.

Lemma dict_get_perm (d1 d2 : list (K * V)) (k : K) :
  dict_wf d1 -> Permutation d1 d2 ->
  dict_get K_dec d1 k = dict_get K_dec d2 k.
Proof.
  intros Hwf HP.
  assert (Hwf2 : dict_wf d2).
  { unfold dict_wf, dict_keys in *.
    eapply Permutation_NoDup; [|exact Hwf]. now apply Permutation_map. }
  destruct (dict_get K_dec d1 k) as [v|] eqn:E1.
  - symmetry. apply In_dict_get; auto.
    eapply Permutation_in; [exact HP|]. now apply dict_get_In.
  - symmetry. apply dict_get_None. apply dict_get_None in E1.
    intros I. apply E1. unfold dict_keys in *.
    eapply Permutation_in; [|exact I].
    apply Permutation_map. now apply Permutation_sym.
Qed.

Lemma dict_remove_not_In (d : list (K * V)) (k : K) :
  dict_wf d -> ~ In k (dict_keys (dict_remove K_dec d k)).
Proof.
  unfold dict_wf, dict_keys.
  induction d as [|[k' v'] d IH]; simpl; [tauto|].
  intros Hnd. inversion Hnd; subst.
  destruct (K_dec k' k) as [->|Hne]; simpl; [assumption|].
  intros [E|I]; [contradiction|]. now apply IH.
Qed.

End DictFacts.

(** ** StringBuilder *)

Lemma str_join_snoc (sep : pystr) (l : list pystr) (s : pystr) :
  str_join sep (l ++ [s]) =
    match l with
    | [] => s
    | _ :: _ => str_join sep l ++ sep ++ s
    end.
Proof.
  induction l as [|x l IH]; simpl; [reflexivity|].
  destruct l as [|y l]; simpl in *; [reflexivity|].
  rewrite IH. now rewrite <- !app_assoc.
Qed.

(** C9, as stated, fails: with no pushed segment [StringBuilder.get]
    returns the empty string, not the root sentinel ["/"]. *)
Lemma StringBuilder_get_empty_is_not_root :
  StringBuilder.get (StringBuilder.init (py "/")) <> py "/".
Proof. vm_compute. discriminate. Qed.

(** C9 (amended): on a fresh builder [get] returns the empty string;
    after pushes it returns the pushed segments in push order joined by
    the delimiter: the first push yields the segment itself, each later
    push appends the delimiter and the segment; a pop undoes the last
    push. *)
Theorem StringBuilder_get_spec :
  forall (delimiter : pystr),
    StringBuilder.get (StringBuilder.init delimiter) = [] /\
    (forall segs : list pystr,
        StringBuilder.container
          (fold_left StringBuilder.add segs (StringBuilder.init delimiter))
        = segs) /\
    (forall (sb : StringBuilder.t) (s : pystr),
        StringBuilder.get (StringBuilder.add sb s) =
          match StringBuilder.container sb with
          | [] => s
          | _ :: _ =>
              StringBuilder.get sb ++ StringBuilder.delimeter sb ++ s
          end) /\
    (forall (sb : StringBuilder.t) (s : pystr),
        StringBuilder.pop (StringBuilder.add sb s) = Ok (s, sb)).
Proof.
  intros delimiter. split; [reflexivity|]. split; [|split].
  - intros segs.
    assert (G : forall sb,
               StringBuilder.container (fold_left StringBuilder.add segs sb)
               = StringBuilder.container sb ++ segs).
    { induction segs as [|s segs IH]; intros sb; simpl.
      - now rewrite app_nil_r.
      - rewrite IH. simpl. now rewrite <- app_assoc. }
    now rewrite G.
  - intros sb s. unfold StringBuilder.get; simpl. apply str_join_snoc.
  - intros [c d] s. unfold StringBuilder.pop, StringBuilder.add; simpl.
    rewrite rev_app_distr; simpl. now rewrite rev_involutive.
Qed.

(** ** json_recover: failures *)






Lemma json_recover_unfold (U : Utility) (d : resmap) (text : pystr)
  (base : json) :
  root_text d = Some text ->
  json_loads text = Ok base ->
  json_recover U d =
    ({| default_factory := default_factory d;
        items := remaining_chains d |},
     base' <- recover_loop (remaining_chains d) base ;;
     to_json_object_formatted U base').
Proof.
  unfold root_text, json_recover, remaining_chains. intros Hroot Hload.
  destruct (dict_get pystr_dec (items d) [47%N]) as [root|]; [|discriminate].
  rewrite Hroot, Hload. reflexivity.
Qed.

Lemma json_recover_missing_root (U : Utility) (d : resmap) :
  root_text d = None -> snd (json_recover U d) = Raise KeyError.
Proof.
  unfold root_text, json_recover. intros Hnone.
  destruct (dict_get pystr_dec (items d) [47%N]) as [root|]; [|reflexivity].
  now rewrite Hnone.
Qed.

(** C4: a result map without a root entry, or whose root text (or whose
    cleaned text) does not parse as JSON, makes [json_recover] raise -
    KeyError for the missing root, JSONDecodeError for the text - and
    never return a structure. *)
Theorem json_recover_malformed :
  forall (U : Utility) (d : resmap) (e : exn),
    malformed d e ->
    snd (json_recover U d) = Raise e.
Proof.
  intros U d e H. destruct H as [Hnone|text Hroot Hload|text base base' Hroot Hload Hloop Hclean].
  - now apply json_recover_missing_root.
  - unfold root_text in Hroot. unfold json_recover.
    destruct (dict_get pystr_dec (items d) [47%N]) as [root|]; [|discriminate].
    now rewrite Hroot, Hload.
  - rewrite (json_recover_unfold U d Hroot Hload). simpl.
    rewrite Hloop. simpl. unfold to_json_object_formatted.
    now rewrite Hclean.
Qed.

Lemma json_recover_malformed_witness :
  malformed Examples.not_json_map JSONDecodeError /\
  snd (json_recover (Examples.utility 5) Examples.not_json_map)
  = Raise JSONDecodeError.
Proof.
  assert (H : malformed Examples.not_json_map JSONDecodeError).
  { apply Malformed_root with (text := py "not json"); vm_compute; reflexivity. }
  split; [exact H|].
  exact (@json_recover_malformed (Examples.utility 5) Examples.not_json_map
           JSONDecodeError H).
Defined.

(** C10, as stated, fails: a result map whose root text does not parse
    still holds its root entry after the call, which raised before the
    [pop]. *)
Lemma json_recover_keeps_unparsable_root :
  dict_mem pystr_dec (items Examples.not_json_map) [47%N] = true /\
  dict_mem pystr_dec
    (items (fst (json_recover (Examples.utility 5) Examples.not_json_map)))
    [47%N] = true /\
  snd (json_recover (Examples.utility 5) Examples.not_json_map)
  = Raise JSONDecodeError.
Proof. vm_compute. repeat split. Qed.

(** C10 (amended): when the root entry holds, at index 0, a text that
    parses as JSON, [json_recover] removes the entry ["/"] from the
    caller's map before it processes the remaining chains; whatever the
    later steps do - return or raise - the caller's map has lost its
    root entry. *)
Theorem json_recover_pops_root :
  forall (U : Utility) (d : resmap) (text : pystr) (base : json),
    dict_wf (items d) ->
    root_text d = Some text ->
    json_loads text = Ok base ->
    items (fst (json_recover U d)) = remaining_chains d /\
    dict_mem pystr_dec (items (fst (json_recover U d))) [47%N] = false /\
    snd (json_recover U d) =
      (base' <- recover_loop (remaining_chains d) base ;;
       to_json_object_formatted U base').
Proof.
  intros U d text base Hwf Hroot Hload.
  rewrite (json_recover_unfold U d Hroot Hload). simpl.
  split; [reflexivity|]. split; [|reflexivity].
  unfold dict_mem, remaining_chains.
  destruct (dict_get pystr_dec (dict_remove pystr_dec (items d) [47%N]) [47%N])
    eqn:E; [|reflexivity].
  exfalso. apply dict_get_In in E. apply (in_map fst) in E.
  revert E. now apply dict_remove_not_In.
Qed.

Lemma json_recover_pops_root_witness :
  dict_wf (items Examples.five_map) /\
  root_text Examples.five_map = Some (py "5") /\
  json_loads (py "5") = Ok (JInt 5) /\
  dict_mem pystr_dec
    (items (fst (json_recover (Examples.utility 5) Examples.five_map)))
    [47%N] = false /\
  snd (json_recover (Examples.utility 5) Examples.five_map) = Raise TypeError.
Proof.
  assert (Hwf : dict_wf (items Examples.five_map)).
  { unfold dict_wf; simpl. constructor; [simpl; tauto | constructor]. }
  assert (Hroot : root_text Examples.five_map = Some (py "5"))
    by reflexivity.
  assert (Hload : json_loads (py "5") = Ok (JInt 5))
    by (vm_compute; reflexivity).
  destruct (@json_recover_pops_root (Examples.utility 5) Examples.five_map
              (py "5") (JInt 5) Hwf Hroot Hload) as (_ & Hmem & Hout).
  split; [exact Hwf|]. split; [exact Hroot|]. split; [exact Hload|].
  split; [exact Hmem|]. rewrite Hout. vm_compute. reflexivity.
Defined.




(** ** Index stability *)

Lemma enumerate_map_fst {A B} (g : Z -> B) (l : list A) (s : Z) :
  List.map (fun ix => g (fst ix)) (enumerate s l) =
  List.map (fun i => g (s + Z.of_nat i)%Z) (seq 0 (List.length l)).
Proof.
  revert s. induction l as [|x l IH]; intros s; simpl; [reflexivity|].
  f_equal.
  - f_equal. lia.
  - rewrite IH, <- seq_shift, map_map. apply map_ext. intros i.
    f_equal. lia.
Qed.




Lemma enumerate_get {A} (l : list A) (s : Z) (i : nat) (x : A) :
  nth_error l i = Some x ->
  dict_get Z.eq_dec (enumerate s l) (s + Z.of_nat i)%Z = Some x.
Proof.
  revert s i. induction l as [|y l IH]; intros s i; [destruct i; discriminate|].
  destruct i as [|i]; simpl.
  - intros E; inversion E; subst.
    destruct (Z.eq_dec s (s + 0)); [reflexivity | lia].
  - intros E. destruct (Z.eq_dec s (s + Z.pos (Pos.of_succ_nat i))); [lia|].
    replace (s + Z.pos (Pos.of_succ_nat i))%Z with (s + 1 + Z.of_nat i)%Z
      by lia.
    now apply IH.
Qed.


Lemma lookup_all (entries : list (Z * pystr)) (l : list pystr) (start : nat) :
  (forall i x, nth_error l i = Some x ->
               dict_get Z.eq_dec entries (Z.of_nat (start + i)) = Some x) ->
  fold_right
    (fun index acc =>
       match dict_get Z.eq_dec entries (Z.of_nat index) with
       | Some text => rest <- acc ;; Ok (text :: rest)
       | None => Raise KeyError
       end)
    (Ok []) (seq start (List.length l)) = Ok l.
Proof.
  revert start. induction l as [|x l IH]; intros start H; simpl; [reflexivity|].
  rewrite <- (Nat.add_0_r start) at 1. rewrite (H 0 x eq_refl).
  rewrite IH; [reflexivity|].
  intros i y E. replace (S start + i) with (start + S i) by lia.
  now apply H.
Qed.








Lemma units_of_entry_address (U : Utility) (e : pystr * json) :
  List.map address (units_of_entry U e) =
  List.map (fun i => (fst e, Z.of_nat i))
    (seq 0 (List.length (elements (snd e)))).
Proof.
  destruct e as [k v]. destruct v; simpl; try reflexivity.
  rewrite map_map.
  transitivity (List.map (fun ix : Z * json => (k, fst ix)) (enumerate 0 l)).
  { apply map_ext. now intros [i x]. }
  rewrite (enumerate_map_fst (fun z => (k, z)) l 0).
  apply map_ext. intros i. reflexivity.
Qed.




(** ** The two writes of json_recover *)

(** C2 fails on the code for a nested chain: with base
    [{"a": {"b": P}}] and chain ["a/b"], the direct assignment adds the
    top-level key ["a/b"], [update_value] writes under ["a"] at ["b"],
    and the loop body leaves both in the document. *)
Theorem direct_assignment_and_update_value_differ :
  let v := JList [JStr (py "1")] in
  setitem Examples.nested_base (py "a/b") v
  = Ok (JDict [(py "a", JDict [(py "b", Examples.placeholder)]);
               (py "a/b", v)]) /\
  update_value (py "a/b") v Examples.nested_base
  = Ok (JDict [(py "a", JDict [(py "b", v)])]) /\
  recover_chain [(0%Z, py "1")] (py "a/b") Examples.nested_base
  = Ok (JDict [(py "a", JDict [(py "b", v)]); (py "a/b", v)]).
Proof. vm_compute. repeat split. Qed.

(** ** Top-level arrays *)

(** C7 fails on the code at its own example: [[1, 2, 3]] over budget,
    processed by the identity, comes back as the list of the texts
    ["1"], ["2"], ["3"]. *)
Theorem top_level_array_comes_back_as_strings :
  get_updated_data (Examples.utility 5) identity_response
    Examples.one_two_three
  = Ok (JList [JStr (py "1"); JStr (py "2"); JStr (py "3")]).
Proof. vm_compute. reflexivity. Qed.

(** ** The traversal

    Updates of dictionaries. *)

Section DictUpdates.
Context {K V : Type} (K_dec : forall x y : K, {x = y} + {x <> y}).

Lemma dict_get_set_same (d : list (K * V)) k v :
  dict_get K_dec (dict_set K_dec d k v) k = Some v.
Proof.
  induction d as [|[k' v'] d IH]; simpl.
  - destruct (K_dec k k); congruence.
  - destruct (K_dec k' k) as [->|Hne]; simpl.
    + destruct (K_dec k k); congruence.
    + destruct (K_dec k' k); congruence.
Qed.

Lemma dict_get_set_other (d : list (K * V)) k k' v :
  k <> k' -> dict_get K_dec (dict_set K_dec d k v) k' = dict_get K_dec d k'.
Proof.
  intros Hne. induction d as [|[k0 v0] d IH]; simpl.
  - destruct (K_dec k k'); congruence.
  - destruct (K_dec k0 k) as [->|Hne0]; simpl.
    + destruct (K_dec k k'); congruence.
    + destruct (K_dec k0 k'); congruence.
Qed.

Lemma dict_set_set (d : list (K * V)) k v v' :
  dict_set K_dec (dict_set K_dec d k v) k v' = dict_set K_dec d k v'.
Proof.
  induction d as [|[k0 v0] d IH]; simpl.
  - destruct (K_dec k k); congruence.
  - destruct (K_dec k0 k) as [->|Hne0]; simpl.
    + destruct (K_dec k k); congruence.
    + destruct (K_dec k0 k); congruence.
Qed.

Lemma dict_set_same (d : list (K * V)) k v :
  dict_get K_dec d k = Some v -> dict_set K_dec d k v = d.
Proof.
  induction d as [|[k0 v0] d IH]; simpl; [discriminate|].
  destruct (K_dec k0 k) as [->|Hne0]; intros H.
  - congruence.
  - f_equal; auto.
Qed.

Lemma dict_get_mid (done todo : list (K * V)) k v :
  ~ In k (dict_keys done) ->
  dict_get K_dec (done ++ (k, v) :: todo) k = Some v.
Proof.
  induction done as [|[k0 v0] done IH]; simpl; intros H.
  - destruct (K_dec k k); congruence.
  - destruct (K_dec k0 k) as [->|Hne0]; [tauto|]. apply IH. tauto.
Qed.

Lemma dict_set_mid (done todo : list (K * V)) k v v' :
  ~ In k (dict_keys done) ->
  dict_set K_dec (done ++ (k, v) :: todo) k v' = done ++ (k, v') :: todo.
Proof.
  induction done as [|[k0 v0] done IH]; simpl; intros H.
  - destruct (K_dec k k); congruence.
  - destruct (K_dec k0 k) as [->|Hne0]; [tauto|]. f_equal. apply IH. tauto.
Qed.
End DictUpdates.

Lemma no_slash_cons c w : no_slash (c :: w) = true <-> c <> 47%N /\ no_slash w = true.
Proof.
  unfold no_slash; simpl. destruct (N.eqb_spec 47 c) as [E|E]; simpl.
  - split; [discriminate | intros [H _]; congruence].
  - split; [intros H; split; [congruence | exact H] | tauto].
Qed.

Lemma str_split_no_slash w rest :
  no_slash w = true ->
  str_split 47%N (w ++ 47%N :: rest) = w :: str_split 47%N rest.
Proof.
  induction w as [|c w IH]; intros H; simpl.
  - reflexivity.
  - apply no_slash_cons in H. destruct H as [Hc Hw].
    destruct (N.eqb_spec c 47%N); [contradiction|]. now rewrite IH.
Qed.

Lemma str_split_single w : no_slash w = true -> str_split 47%N w = [w].
Proof.
  induction w as [|c w IH]; intros H; simpl; [reflexivity|].
  apply no_slash_cons in H. destruct H as [Hc Hw].
  destruct (N.eqb_spec c 47%N); [contradiction|]. now rewrite IH.
Qed.

Lemma str_split_join (ref : list pystr) :
  ref <> [] -> forallb no_slash ref = true ->
  str_split 47%N (str_join [47%N] ref) = ref.
Proof.
  induction ref as [|w ref IH]; [congruence|]. intros _ H.
  simpl in H. apply andb_true_iff in H. destruct H as [Hw Href].
  destruct ref as [|w' ref].
  - simpl. now apply str_split_single.
  - change (str_join [47%N] (w :: w' :: ref))
      with (w ++ [47%N] ++ str_join [47%N] (w' :: ref)).
    simpl app at 2. rewrite str_split_no_slash by assumption.
    f_equal. apply IH; [discriminate | assumption].
Qed.

Lemma node_at_app p q d :
  node_at (p ++ q) d =
  match node_at p d with Some x => node_at q x | None => None end.
Proof.
  revert d. induction p as [|k p IH]; intros d; simpl; [reflexivity|].
  destruct d; try reflexivity. destruct (jget kvs k); auto.
Qed.

Lemma set_at_twice ref a b d : set_at ref a (set_at ref b d) = set_at ref a d.
Proof.
  revert d. induction ref as [|k ks IH]; intros d; simpl; [reflexivity|].
  destruct d; try reflexivity.
  destruct (jget kvs k) as [c|] eqn:E; simpl.
  - unfold jget, jset in *. rewrite dict_get_set_same, dict_set_set. now rewrite IH.
  - now rewrite E.
Qed.

Lemma set_at_app ref q x n d :
  node_at ref d = Some n -> set_at (ref ++ q) x d = set_at ref (set_at q x n) d.
Proof.
  revert d. induction ref as [|k ks IH]; intros d; simpl.
  - intros E; now inversion E.
  - destruct d; try discriminate. destruct (jget kvs k) as [c|]; [|discriminate].
    intros E. now rewrite (IH _ E).
Qed.

Lemma node_at_set_at ref x d n :
  node_at ref d = Some n -> node_at ref (set_at ref x d) = Some x.
Proof.
  revert d. induction ref as [|k ks IH]; intros d; simpl; [reflexivity|].
  destruct d; try discriminate. destruct (jget kvs k) as [c|] eqn:E; [|discriminate].
  intros H. simpl. unfold jget, jset in *. rewrite dict_get_set_same. eauto.
Qed.

Lemma set_at_same ref x d : node_at ref d = Some x -> set_at ref x d = d.
Proof.
  revert d. induction ref as [|k ks IH]; intros d; simpl.
  - intros E; now inversion E.
  - destruct d; try discriminate. destruct (jget kvs k) as [c|] eqn:E; [|discriminate].
    intros H. rewrite (IH _ H). unfold jget, jset in *. now rewrite dict_set_same.
Qed.

Lemma update_walk_set_at ref v d x :
  ref <> [] -> node_at ref d = Some x ->
  update_walk (removelast ref) (last ref []) v d = Ok (set_at ref v d).
Proof.
  revert d. induction ref as [|k ks IH]; [congruence|]. intros d _.
  destruct ks as [|k' ks].
  - simpl. destruct d; try discriminate.
    destruct (jget kvs k); [reflexivity | discriminate].
  - intros H. change (removelast (k :: k' :: ks)) with (k :: removelast (k' :: ks)).
    change (last (k :: k' :: ks) []) with (last (k' :: ks) (@nil N)).
    simpl in H |- *. destruct d; try discriminate.
    destruct (jget kvs k) as [c|] eqn:E; [|discriminate].
    simpl in IH. rewrite (IH c); [reflexivity | discriminate | exact H].
Qed.

Lemma pop_add sb s : StringBuilder.pop (StringBuilder.add sb s) = Ok (s, sb).
Proof.
  destruct sb as [c d]. unfold StringBuilder.pop, StringBuilder.add; simpl.
  rewrite rev_app_distr; simpl. now rewrite rev_involutive.
Qed.

Lemma distinct_NoDup l : distinct l = true <-> NoDup l.
Proof.
  induction l as [|x l IH]; simpl.
  - split; [constructor | reflexivity].
  - rewrite andb_true_iff, negb_true_iff, IH. split.
    + intros [Hx Hl]. constructor; [|assumption]. intros I.
      assert (existsb (pystr_eqb x) l = true); [|congruence].
      apply existsb_exists. exists x. split; [assumption|].
      unfold pystr_eqb. destruct (pystr_dec x x); congruence.
    + intros H. inversion H; subst. split; [|assumption].
      destruct (existsb (pystr_eqb x) l) eqn:E; [|reflexivity].
      apply existsb_exists in E. destruct E as (y & Hy & Heq).
      unfold pystr_eqb in Heq. destruct (pystr_dec x y); [subst; contradiction | discriminate].
Qed.

Lemma json_wf_dict kvs :
  json_wf (JDict kvs) = true ->
  NoDup (List.map fst kvs) /\ forall k v, In (k, v) kvs -> json_wf v = true.
Proof.
  simpl. rewrite andb_true_iff, distinct_NoDup, forallb_forall.
  intros [H1 H2]. split; [assumption|]. intros k v I. exact (H2 _ I).
Qed.

Lemma slash_free_dict kvs :
  slash_free (JDict kvs) = true ->
  forall k v, In (k, v) kvs -> no_slash k = true /\ slash_free v = true.
Proof.
  simpl. rewrite forallb_forall. intros H k v I.
  specialize (H _ I). simpl in H. now apply andb_true_iff in H.
Qed.

Lemma json_depth_child kvs k v :
  In (k, v) kvs -> json_depth v < json_depth (JDict kvs).
Proof.
  simpl. induction kvs as [|[k0 v0] kvs IH]; simpl; [tauto|].
  intros [E|I]; [inversion E; subst; lia|]. specialize (IH I). lia.
Qed.

Lemma map_idx_keys U l : List.map fst (List.map (idx U) l) = List.map fst l.
Proof. rewrite map_map. apply map_ext. now intros [k v]. Qed.

Section Loop.
Variable U : Utility.
Variable rec : list pystr -> JsonOperations -> result JsonOperations.
Variable ref : list pystr.

Lemma traverse_items_spec :
  forall (todo done : list (pystr * json)) (self : JsonOperations),
    (forall k v self1,
        In (k, v) todo -> builder_at (ref ++ [k]) self1 ->
        node_at (ref ++ [k]) (data self1) = Some v ->
        rec (ref ++ [k]) self1 = Ok (indexed U (ref ++ [k]) v self1)) ->
    NoDup (List.map fst (done ++ todo)) ->
    node_at ref (data self) = Some (JDict (List.map (idx U) done ++ todo)) ->
    builder_at ref self ->
    traverse_items rec ref (List.length (done ++ todo)) (List.length done)
      (List.length todo) self
    = Ok {| data := set_at ref (JDict (List.map (idx U) (done ++ todo)))
                      (data self);
            json_list_dict :=
              record_all (json_list_dict self)
                (flat_map (fun kv => match kv with
                                     | (k, v) => extract U (ref ++ [k]) v
                                     end) todo);
            string_builder := string_builder self |}.
Proof.
  induction todo as [|[k v] todo IH]; intros done self Hrec Hnd Hnode Hsb.
  - simpl. rewrite app_nil_r in *. rewrite (@set_at_same ref _ _ Hnode).
    now destruct self.
  - assert (Hk : ~ In k (dict_keys (List.map (idx U) done))).
    { unfold dict_keys. rewrite map_idx_keys. rewrite map_app in Hnd. simpl in Hnd.
      apply NoDup_remove_2 in Hnd. intros I. apply Hnd. apply in_or_app. now left. }
    cbn [traverse_items List.length]. rewrite Hnode.
    assert (Hlen : List.length (List.map (idx U) done ++ (k, v) :: todo)
                   = List.length (done ++ (k, v) :: todo)).
    { rewrite !length_app, length_map. reflexivity. }
    rewrite Hlen, Nat.eqb_refl.
    assert (Hnth : nth_error (List.map (idx U) done ++ (k, v) :: todo)
                     (List.length done) = Some (k, v)).
    { rewrite nth_error_app2; rewrite length_map; [|lia].
      now rewrite Nat.sub_diag. }
    rewrite Hnth.
    set (self1 := with_builder self (StringBuilder.add (string_builder self) k)).
    assert (Hget : jget (List.map (idx U) done ++ (k, v) :: todo) k = Some v)
      by (apply dict_get_mid; exact Hk).
    assert (H1 : rec (ref ++ [k]) self1 = Ok (indexed U (ref ++ [k]) v self1)).
    { apply Hrec.
      - now left.
      - unfold builder_at, self1 in *. simpl. rewrite Hsb. reflexivity.
      - unfold self1; simpl. rewrite node_at_app, Hnode. simpl. now rewrite Hget. }
    rewrite H1. cbn [bind]. unfold indexed at 1. cbn [string_builder].
    unfold self1 at 1. cbn [with_builder string_builder].
    rewrite pop_add. cbn [bind].
    match goal with |- traverse_items _ _ _ _ _ ?s = _ => set (self3 := s) end.
    replace (List.length (done ++ (k, v) :: todo))
      with (List.length ((done ++ [(k, v)]) ++ todo))
      by (now rewrite <- app_assoc).
    replace (S (List.length done)) with (List.length (done ++ [(k, v)]))
      by (rewrite length_app; simpl; lia).
    rewrite (IH (done ++ [(k, v)]) self3).
    + f_equal. unfold self3, indexed, self1. cbn [data json_list_dict string_builder with_builder].
      f_equal.
      * rewrite (@set_at_app ref [k] (index_doc U v) _ _ Hnode).
        rewrite set_at_twice. now rewrite <- app_assoc.
      * unfold record_all. simpl. now rewrite fold_left_app.
    + intros k' v' s1 I. apply Hrec. now right.
    + now rewrite <- app_assoc.
    + unfold self3, indexed, self1. cbn [data with_builder].
      rewrite (@set_at_app ref [k] (index_doc U v) _ _ Hnode).
      rewrite (@node_at_set_at ref _ _ _ Hnode). f_equal.
      simpl. rewrite Hget. f_equal. unfold jset.
      rewrite dict_set_mid by exact Hk.
      rewrite map_app. simpl. now rewrite <- app_assoc.
    + unfold builder_at, self3 in *. simpl. exact Hsb.
Qed.
End Loop.

Lemma json_traverse_at_spec (U : Utility) :
  forall (fuel : nat) (node : json) (ref : list pystr) (self : JsonOperations),
    json_depth node < fuel ->
    node_at ref (data self) = Some node ->
    json_wf node = true -> slash_free node = true ->
    forallb no_slash ref = true ->
    builder_at ref self ->
    is_dict node = true \/ ref <> [] ->
    json_traverse_at fuel U ref self = Ok (indexed U ref node self).
Proof.
  induction fuel as [|f IH]; intros node ref self Hfuel Hnode Hwf Hsf Href Hsb Hshape;
    [lia|].
  cbn [json_traverse_at]. rewrite Hnode.
  assert (Hsame : forall self0 : JsonOperations,
             node_at ref (data self0) = Some node -> index_doc U node = node ->
             extract U ref node = [] ->
             Ok self0 = Ok (indexed U ref node self0)).
  { intros self0 Hn Hi He. unfold indexed. rewrite Hi, He, (@set_at_same ref _ _ Hn).
    now destruct self0. }
  destruct node as [| b | z | s | l | kvs]; try (apply Hsame; auto; reflexivity).
  - (* list *)
    destruct (exceeds_max_token U (JList l)) eqn:Eb.
    + destruct Hshape as [Hd|Hne]; [discriminate|].
      unfold update_value. rewrite Hsb. unfold StringBuilder.get. simpl.
      rewrite (@str_split_join ref Hne Href).
      rewrite (@update_walk_set_at ref (JStr (get_dummy_placeholder U)) _ _ Hne Hnode).
      simpl. unfold indexed. simpl. rewrite Eb. simpl. now rewrite Hsb.
    + apply Hsame; auto; simpl; now rewrite Eb.
  - (* dict *)
    destruct (json_wf_dict _ Hwf) as [Hnd Hwfc].
    pose proof (slash_free_dict _ Hsf) as Hsfc.
    pose proof (@traverse_items_spec U (json_traverse_at f U) ref kvs [] self) as L.
    simpl in L. rewrite L; auto.
    intros k v self1 I Hb1 Hn1.
    apply IH; auto.
    + pose proof (json_depth_child _ _ _ I). lia.
    + eapply Hwfc; eauto.
    + apply (Hsfc _ _ I).
    + rewrite forallb_app, Href. simpl. now rewrite (proj1 (Hsfc _ _ I)).
    + right. now destruct ref.
Qed.

Lemma json_ind' (P : json -> Prop) :
  P JNull -> (forall b, P (JBool b)) -> (forall z, P (JInt z)) ->
  (forall s, P (JStr s)) ->
  (forall l, Forall P l -> P (JList l)) ->
  (forall kvs, Forall (fun kv => P (snd kv)) kvs -> P (JDict kvs)) ->
  forall d, P d.
Proof.
  intros Hn Hb Hz Hs Hl Hd.
  fix IH 1. intros [| b | z | s | l | kvs].
  - exact Hn.
  - apply Hb.
  - apply Hz.
  - apply Hs.
  - apply Hl. induction l as [|x l IHl]; constructor;
      [apply IH | exact IHl].
  - apply Hd. induction kvs as [|[k v] kvs IHk]; constructor;
      [simpl; apply IH | exact IHk].
Qed.

Lemma jget_map_idx U kvs k :
  jget (List.map (idx U) kvs) k = option_map (index_doc U) (jget kvs k).
Proof.
  unfold jget. induction kvs as [|[k0 v0] kvs IH]; simpl; [reflexivity|].
  destruct (pystr_dec k0 k); auto.
Qed.

Lemma index_doc_dict U kvs :
  index_doc U (JDict kvs) = JDict (List.map (idx U) kvs).
Proof. reflexivity. Qed.

Lemma arrays_at_node U d :
  forall pre p l,
    json_wf d = true ->
    In (p, l) (arrays_at pre d) ->
    exists q, p = pre ++ q /\ node_at q d = Some (JList l) /\
              node_at q (index_doc U d) = Some (index_doc U (JList l)).
Proof.
  induction d as [| b | z | s | l0 _ | kvs IH] using json_ind';
    intros pre p l Hwf I; simpl in I; try tauto.
  - destruct I as [E|[]]. inversion E; subst.
    exists []. rewrite app_nil_r. auto.
  - destruct (json_wf_dict _ Hwf) as [Hnd Hwfc].
    apply in_flat_map in I. destruct I as ([k v] & Ikv & I).
    rewrite Forall_forall in IH. specialize (IH _ Ikv). simpl in IH.
    destruct (IH _ _ _ (Hwfc _ _ Ikv) I) as (q & -> & Hq & Hq').
    exists (k :: q). rewrite <- app_assoc. split; [reflexivity|].
    assert (G : jget kvs k = Some v) by (apply In_dict_get; assumption).
    rewrite index_doc_dict. cbn [node_at]. rewrite jget_map_idx, G. simpl. auto.
Qed.

Lemma arrays_at_no_slash d :
  forall pre p l,
    slash_free d = true -> forallb no_slash pre = true ->
    In (p, l) (arrays_at pre d) -> forallb no_slash p = true.
Proof.
  induction d as [| b | z | s | l0 _ | kvs IH] using json_ind';
    intros pre p l Hsf Hpre I; simpl in I; try tauto.
  - destruct I as [E|[]]. now inversion E; subst.
  - apply in_flat_map in I. destruct I as ([k v] & Ikv & I).
    rewrite Forall_forall in IH. specialize (IH _ Ikv). simpl in IH.
    destruct (slash_free_dict _ Hsf _ _ Ikv) as [Hk Hv].
    apply (IH _ _ _ Hv) in I; [assumption|].
    rewrite forallb_app, Hpre. simpl. now rewrite Hk.
Qed.

Lemma extract_arrays U d :
  forall pre c v,
    In (c, v) (extract U pre d) <->
    exists p l, In (p, l) (arrays_at pre d) /\ c = str_join [47%N] p /\
                v = JList l /\ exceeds_max_token U (JList l) = true.
Proof.
  induction d as [| b | z | s | l0 _ | kvs IH] using json_ind';
    intros pre c v; simpl;
    try (split; [tauto | intros (p & l & [] & _)]).
  - destruct (exceeds_max_token U (JList l0)) eqn:E; simpl; split.
    + intros [H|[]]. inversion H; subst. exists pre, l0. auto.
    + intros (p & l & [H|[]] & -> & -> & _). inversion H; subst. now left.
    + tauto.
    + intros (p & l & [H|[]] & -> & -> & E'). inversion H; subst. congruence.
  - rewrite Forall_forall in IH. split.
    + intros I. apply in_flat_map in I. destruct I as ([k x] & Ikv & I).
      apply (IH _ Ikv) in I. destruct I as (p & l & I & Hc & Hv & He).
      exists p, l. split; [|auto]. apply in_flat_map. exists (k, x). auto.
    + intros (p & l & I & Hc & Hv & He).
      apply in_flat_map in I. destruct I as ([k x] & Ikv & I).
      apply in_flat_map. exists (k, x). split; [assumption|].
      apply (IH _ Ikv). exists p, l. auto.
Qed.

Lemma dict_set_In {K V} (K_dec : forall x y : K, {x = y} + {x <> y})
  (m : list (K * V)) k v e :
  In e (dict_set K_dec m k v) -> In e m \/ e = (k, v).
Proof.
  induction m as [|[k0 v0] m IH]; simpl.
  - intros [<-|[]]; auto.
  - destruct (K_dec k0 k) as [->|Hne]; simpl; intros [<-|I]; auto.
    destruct (IH I); auto.
Qed.

Lemma record_all_In m es e :
  In e (record_all m es) -> In e m \/ In e es.
Proof.
  unfold record_all. revert m. induction es as [|[k v] es IH]; intros m; simpl; auto.
  intros I. destruct (IH _ I) as [H|H]; auto.
  destruct (dict_set_In _ _ _ _ _ H) as [H'|H']; auto.
Qed.

Lemma record_all_get_other m es k :
  ~ In k (List.map fst es) ->
  dict_get pystr_dec (record_all m es) k = dict_get pystr_dec m k.
Proof.
  unfold record_all. revert m. induction es as [|[k0 v0] es IH]; intros m H; simpl; auto.
  simpl in H. rewrite IH by tauto. apply dict_get_set_other. tauto.
Qed.

Lemma record_all_get m es k v :
  (forall v', In (k, v') es -> v' = v) -> In (k, v) es ->
  dict_get pystr_dec (record_all m es) k = Some v.
Proof.
  revert m. induction es as [|[k0 v0] es IH]; intros m Hf I; [destruct I|].
  change (record_all m ((k0, v0) :: es))
    with (record_all (dict_set pystr_dec m k0 v0) es).
  destruct (in_dec pystr_dec k (List.map fst es)) as [Hin|Hout].
  - apply in_map_iff in Hin. destruct Hin as ([k' v'] & Hk & Hin). simpl in Hk; subst k'.
    apply IH.
    + intros v'' I'. apply Hf. now right.
    + rewrite <- (Hf v') at 1; [exact Hin | now right].
  - rewrite record_all_get_other by assumption.
    destruct I as [E|I].
    + inversion E; subst. apply dict_get_set_same.
    + exfalso. apply Hout. apply in_map_iff. exists (k, v). auto.
Qed.

Lemma str_join_inj p q :
  p <> [] -> q <> [] -> forallb no_slash p = true -> forallb no_slash q = true ->
  str_join [47%N] p = str_join [47%N] q -> p = q.
Proof.
  intros Hp Hq Hsp Hsq E.
  rewrite <- (@str_split_join p Hp Hsp), <- (@str_split_join q Hq Hsq).
  now rewrite E.
Qed.

Lemma index_doc_idem U d : index_doc U (index_doc U d) = index_doc U d.
Proof.
  induction d as [| b | z | s | l0 _ | kvs IH] using json_ind'; try reflexivity.
  - simpl. destruct (exceeds_max_token U (JList l0)) eqn:E; [reflexivity|].
    simpl. now rewrite E.
  - simpl. f_equal. rewrite map_map.
    apply map_ext_in. intros [k v] I. rewrite Forall_forall in IH.
    specialize (IH _ I). simpl in *. now rewrite IH.
Qed.

Lemma extract_index_doc U d : forall pre, extract U pre (index_doc U d) = [].
Proof.
  induction d as [| b | z | s | l0 _ | kvs IH] using json_ind'; intros pre;
    try reflexivity.
  - simpl. destruct (exceeds_max_token U (JList l0)) eqn:E; [reflexivity|].
    simpl. now rewrite E.
  - simpl. rewrite Forall_forall in IH.
    induction kvs as [|[k v] kvs IHk]; simpl; [reflexivity|].
    rewrite (IH (k, v)); [|now left]. simpl. apply IHk.
    intros x I. apply IH. now right.
Qed.

Lemma json_wf_index_doc U d : json_wf d = true -> json_wf (index_doc U d) = true.
Proof.
  induction d as [| b | z | s | l0 _ | kvs IH] using json_ind'; intros H; auto.
  - simpl. destruct (exceeds_max_token U (JList l0)); auto.
  - simpl in *. apply andb_true_iff in H. destruct H as [H1 H2].
    apply andb_true_iff. split.
    + rewrite map_map. erewrite map_ext; [exact H1|]. now intros [k v].
    + rewrite forallb_forall in *. intros [k v] I.
      apply in_map_iff in I. destruct I as ([k' v'] & E & I).
      inversion E; subst. rewrite Forall_forall in IH.
      apply (IH _ I). exact (H2 _ I).
Qed.

Lemma slash_free_index_doc U d :
  slash_free d = true -> slash_free (index_doc U d) = true.
Proof.
  induction d as [| b | z | s | l0 _ | kvs IH] using json_ind'; intros H; auto.
  - simpl. destruct (exceeds_max_token U (JList l0)); auto.
  - simpl in *. rewrite forallb_forall in *. intros [k v] I.
    apply in_map_iff in I. destruct I as ([k' v'] & E & I).
    inversion E; subst. rewrite Forall_forall in IH.
    specialize (H _ I). simpl in H. apply andb_true_iff in H. destruct H as [Hk Hv].
    rewrite Hk. simpl. now apply (IH _ I).
Qed.

Lemma is_dict_index_doc U x :
  is_dict x = true -> is_dict (index_doc U x) = true.
Proof. destruct x; try discriminate; reflexivity. Qed.

Lemma json_traverse_spec U self :
  builder_at [] self -> is_dict (data self) = true ->
  json_wf (data self) = true -> slash_free (data self) = true ->
  json_traverse U self = Ok (indexed U [] (data self) self).
Proof.
  intros Hsb Hd Hwf Hsf. unfold json_traverse.
  apply json_traverse_at_spec; auto.
Qed.

Lemma builder_init U d :
  get_delimiter U = [47%N] -> builder_at [] (JsonOperations_init U d).
Proof. intros H. unfold builder_at, JsonOperations_init; simpl. now rewrite H. Qed.

Lemma is_dict_init U d : is_dict (data (JsonOperations_init U d)) = true.
Proof. destruct d; reflexivity. Qed.

Lemma extraction_core (U : Utility) (doc : json) (m : list (pystr * json)) :
  is_dict doc = true -> json_wf doc = true -> slash_free doc = true ->
  m = record_all [] (extract U [] doc) ->
  (forall (path : list pystr) (l : list json),
      In (path, l) (arrays_at [] doc) ->
      if exceeds_max_token U (JList l) then
        node_at path (index_doc U doc) = Some (JStr (get_dummy_placeholder U)) /\
        dict_get pystr_dec m (str_join [47%N] path) = Some (JList l)
      else
        node_at path (index_doc U doc) = Some (JList l) /\
        dict_get pystr_dec m (str_join [47%N] path) = None) /\
  (forall (chain : pystr) (v : json),
      In (chain, v) m ->
      exists (path : list pystr) (l : list json),
        In (path, l) (arrays_at [] doc) /\
        chain = str_join [47%N] path /\ v = JList l /\
        exceeds_max_token U (JList l) = true).
Proof.
  intros Hd Hwf Hsf ->.
  assert (Hne : forall p l, In (p, l) (arrays_at [] doc) -> p <> []).
  { intros p l I. destruct (arrays_at_node U doc [] _ _ Hwf I) as (q & -> & Hq & _).
    simpl. intros ->. simpl in Hq. inversion Hq as [E]. rewrite E in Hd.
    simpl in Hd. discriminate Hd. }
  assert (Hfun : forall p l p' l',
             In (p, l) (arrays_at [] doc) ->
             In (p', l') (arrays_at [] doc) ->
             str_join [47%N] p' = str_join [47%N] p -> l' = l).
  { intros p l p' l' I I' E.
    assert (p' = p).
    { apply str_join_inj; eauto.
      - apply (arrays_at_no_slash doc [] _ l' Hsf eq_refl I').
      - apply (arrays_at_no_slash doc [] _ l Hsf eq_refl I). }
    subst p'.
    destruct (arrays_at_node U doc [] _ _ Hwf I) as (q & Eq & Hq & _).
    destruct (arrays_at_node U doc [] _ _ Hwf I') as (q' & Eq' & Hq' & _).
    simpl in Eq, Eq'. subst q q'. congruence. }
  split.
  - intros path l I.
    destruct (arrays_at_node U doc [] _ _ Hwf I) as (q & Eq & Hq & Hq').
    simpl in Eq. subst q.
    destruct (exceeds_max_token U (JList l)) eqn:E.
    + split; [rewrite Hq'; simpl; now rewrite E|].
      apply record_all_get.
      * intros v' Iv. apply extract_arrays in Iv.
        destruct Iv as (p' & l' & I' & Hc & -> & _).
        f_equal. eapply Hfun; eauto.
      * apply extract_arrays. exists path, l. auto.
    + split; [rewrite Hq'; simpl; now rewrite E|].
      apply dict_get_None. intros Ik. apply in_map_iff in Ik.
      destruct Ik as ([c v] & Hc & Iv). simpl in Hc. subst c.
      apply record_all_In in Iv. destruct Iv as [[]|Iv].
      apply extract_arrays in Iv. destruct Iv as (p' & l' & I' & Hc & -> & E').
      rewrite (Hfun _ _ _ _ I I' (eq_sym Hc)) in E'. congruence.
  - intros chain v Iv.
    apply record_all_In in Iv. destruct Iv as [[]|Iv].
    now apply extract_arrays in Iv.
Qed.

(** C3, as stated, fails: the array under the key ["a/b"] exceeds the
    budget and is recorded under the chain ["a/b"], but the working
    document still holds the array there - the write went through the
    segments ["a"], ["b"] into a mapping attached nowhere. *)
Lemma slash_key_array_is_not_replaced :
  exists self' : JsonOperations,
    json_traverse (Examples.utility 5)
      (JsonOperations_init (Examples.utility 5) Examples.slash_key)
    = Ok self' /\
    In ([py "a/b"], [JInt 1; JInt 2; JInt 3])
      (arrays_at [] (working_document (Examples.utility 5) Examples.slash_key)) /\
    exceeds_max_token (Examples.utility 5) Examples.one_two_three = true /\
    dict_get pystr_dec (json_list_dict self') (py "a/b")
    = Some Examples.one_two_three /\
    node_at [py "a/b"] (data self') = Some Examples.one_two_three /\
    node_at [py "a"; py "b"] (data self') = None.
Proof.
  eexists. split; [vm_compute; reflexivity|].
  split; [vm_compute; tauto|]. repeat split.
Qed.

(** C3 (amended): for a document whose mapping keys (those reached
    through mappings only) hold no ["/"], and for every array reached
    through mappings only - an array inside another array is not
    visited and has no key chain: after one [json_traverse] pass, if the
    array exceeds the budget the working document holds the placeholder
    at its key path and the extraction map maps its key chain to that
    array; otherwise the document still holds the array and the map has
    no entry for its chain; and the map records nothing else. *)
Theorem extraction_completeness :
  forall (U : Utility) (d : json),
    get_delimiter U = [47%N] ->
    json_wf (working_document U d) = true ->
    slash_free (working_document U d) = true ->
    exists self' : JsonOperations,
      json_traverse U (JsonOperations_init U d) = Ok self' /\
      (forall (path : list pystr) (l : list json),
          In (path, l) (arrays_at [] (working_document U d)) ->
          if exceeds_max_token U (JList l) then
            node_at path (data self') = Some (JStr (get_dummy_placeholder U)) /\
            dict_get pystr_dec (json_list_dict self') (str_join [47%N] path)
            = Some (JList l)
          else
            node_at path (data self') = Some (JList l) /\
            dict_get pystr_dec (json_list_dict self') (str_join [47%N] path)
            = None) /\
      (forall (chain : pystr) (v : json),
          In (chain, v) (json_list_dict self') ->
          exists (path : list pystr) (l : list json),
            In (path, l) (arrays_at [] (working_document U d)) /\
            chain = str_join [47%N] path /\ v = JList l /\
            exceeds_max_token U (JList l) = true).
Proof.
  intros U d Hdel Hwf Hsf. unfold working_document in *.
  exists (indexed U [] (data (JsonOperations_init U d)) (JsonOperations_init U d)).
  split.
  - apply json_traverse_spec; auto; [now apply builder_init | apply is_dict_init].
  - apply extraction_core; auto. apply is_dict_init.
Qed.

Lemma extraction_completeness_witness :
  get_delimiter (Examples.utility 5) = [47%N] /\
  json_wf (working_document (Examples.utility 5) Examples.nested_doc) = true /\
  slash_free (working_document (Examples.utility 5) Examples.nested_doc)
  = true /\
  exists self' : JsonOperations,
    json_traverse (Examples.utility 5)
      (JsonOperations_init (Examples.utility 5) Examples.nested_doc)
    = Ok self' /\
    node_at [py "a"; py "b"] (data self') = Some Examples.placeholder /\
    dict_get pystr_dec (json_list_dict self') (py "a/b")
    = Some Examples.one_two_three /\
    node_at [py "c"] (data self') = Some (JList [JInt 1]) /\
    dict_get pystr_dec (json_list_dict self') (py "c") = None.
Proof.
  split; [reflexivity|]. split; [reflexivity|]. split; [reflexivity|].
  destruct (@extraction_completeness (Examples.utility 5) Examples.nested_doc
              eq_refl eq_refl eq_refl) as (self' & Ht & Harr & _).
  exists self'. split; [exact Ht|].
  pose proof (Harr [py "a"; py "b"] [JInt 1; JInt 2; JInt 3]) as H1.
  pose proof (Harr [py "c"] [JInt 1]) as H2.
  change (exceeds_max_token (Examples.utility 5)
            (JList [JInt 1; JInt 2; JInt 3])) with true in H1.
  change (exceeds_max_token (Examples.utility 5) (JList [JInt 1]))
    with false in H2.
  destruct H1 as [H1a H1b]; [vm_compute; tauto|].
  destruct H2 as [H2a H2b]; [vm_compute; tauto|].
  repeat split; assumption.
Defined.

(** C8, as stated, fails: on [{"a/b/c": [1], "a": {}, "a/b": [3]}]
    every array exceeds the budget; the first pass returns, having
    written the placeholder at ["a"]["b"] for the chain ["a/b"]; the
    second pass, at the chain ["a/b/c"], walks into that placeholder
    string and raises TypeError on its item assignment. *)
Lemma second_pass_raises :
  exists self' : JsonOperations,
    json_traverse (Examples.utility 0)
      (JsonOperations_init (Examples.utility 0) Examples.three_keys)
    = Ok self' /\
    json_traverse (Examples.utility 0) self' = Raise TypeError.
Proof. eexists. split; vm_compute; reflexivity. Qed.

(** C8 (amended): for a document whose mapping keys (those reached
    through mappings only) hold no ["/"], running [json_traverse] a
    second time on the already-indexed working document leaves the
    operations object as the first run left it: the same extraction map,
    no new entry, no node of the document changed. *)
Theorem reindexing_is_idempotent :
  forall (U : Utility) (d : json),
    get_delimiter U = [47%N] ->
    json_wf (working_document U d) = true ->
    slash_free (working_document U d) = true ->
    exists self' : JsonOperations,
      json_traverse U (JsonOperations_init U d) = Ok self' /\
      json_traverse U self' = Ok self'.
Proof.
  intros U d Hdel Hwf Hsf. unfold working_document in *.
  exists (indexed U [] (data (JsonOperations_init U d)) (JsonOperations_init U d)).
  split; [apply json_traverse_spec; auto;
          [now apply builder_init | apply is_dict_init]|].
  rewrite json_traverse_spec.
  - unfold indexed. simpl. rewrite index_doc_idem, extract_index_doc. reflexivity.
  - now apply builder_init.
  - simpl. apply is_dict_index_doc, is_dict_init.
  - simpl. now apply json_wf_index_doc.
  - simpl. now apply slash_free_index_doc.
Qed.

Lemma reindexing_is_idempotent_witness :
  get_delimiter (Examples.utility 5) = [47%N] /\
  json_wf (working_document (Examples.utility 5) Examples.nested_doc) = true /\
  slash_free (working_document (Examples.utility 5) Examples.nested_doc)
  = true /\
  exists self' : JsonOperations,
    json_traverse (Examples.utility 5)
      (JsonOperations_init (Examples.utility 5) Examples.nested_doc)
    = Ok self' /\
    json_traverse (Examples.utility 5) self' = Ok self'.
Proof.
  split; [reflexivity|]. split; [reflexivity|]. split; [reflexivity|].
  exact (@reindexing_is_idempotent (Examples.utility 5) Examples.nested_doc
           eq_refl eq_refl eq_refl).
Defined.

(** ** Round trip of the encoder and the decoder

    Strings. *)

Lemma scanstring_quote tail : scanstring (34%N :: tail) = Ok ([], tail).
Proof. reflexivity. Qed.

Lemma scanstring_plain c tail :
  c <> 34%N -> c <> 92%N -> (32 <= c)%N ->
  scanstring (c :: tail) = ('(x, r) <- scanstring tail ;; Ok (c :: x, r)).
Proof.
  intros H1 H2 H3. cbn [scanstring].
  destruct (N.eqb_spec c 34); [contradiction|].
  destruct (N.eqb_spec c 92); [contradiction|].
  destruct (N.ltb_spec c 32); [lia|]. reflexivity.
Qed.

Lemma scanstring_backslash e ch tail :
  e <> 117%N -> backslash e = Some ch ->
  scanstring (92%N :: e :: tail)
  = ('(x, r) <- scanstring tail ;; Ok (ch :: x, r)).
Proof.
  intros H1 H2. cbn [scanstring].
  change (92 =? 34)%N with false. change (92 =? 92)%N with true. cbv iota.
  destruct (N.eqb_spec e 117); [contradiction|]. now rewrite H2.
Qed.

Lemma control_ok_all : forallb control_ok (List.map N.of_nat (seq 0 32)) = true.
Proof. vm_compute. reflexivity. Qed.

Lemma decode_control c :
  (c < 32)%N ->
  decode_uXXXX 48 48 (hex_digit (c / 16)) (hex_digit (c mod 16)) = Some c.
Proof.
  intros H. pose proof control_ok_all as A. rewrite forallb_forall in A.
  assert (I : In c (List.map N.of_nat (seq 0 32))).
  { apply in_map_iff. exists (N.to_nat c). split; [apply N2Nat.id|].
    apply in_seq. lia. }
  specialize (A _ I). unfold control_ok in A.
  destruct (decode_uXXXX 48 48 (hex_digit (c / 16)) (hex_digit (c mod 16)));
    [|discriminate].
  apply N.eqb_eq in A. now subst.
Qed.

Lemma scanstring_control c tail :
  (c < 32)%N ->
  scanstring (92 :: 117 :: 48 :: 48 :: hex_digit (c / 16)
                 :: hex_digit (c mod 16) :: tail)%N
  = ('(x, r) <- scanstring tail ;; Ok (c :: x, r)).
Proof.
  intros H. cbn [scanstring].
  change (92 =? 34)%N with false. change (92 =? 92)%N with true.
  change (117 =? 117)%N with true. cbv iota.
  rewrite (decode_control H).
  assert (Hs : is_high_surrogate c = false).
  { unfold is_high_surrogate. destruct (N.leb_spec 55296 c); [lia|]. reflexivity. }
  rewrite Hs. cbn [andb].
  destruct tail as [|b [|u r7]]; reflexivity.
Qed.

Lemma scanstring_escape c tail :
  scanstring (escape_char c ++ tail)
  = ('(x, r) <- scanstring tail ;; Ok (c :: x, r)).
Proof.
  unfold escape_char.
  destruct (N.eqb_spec c 34); [subst; now apply scanstring_backslash|].
  destruct (N.eqb_spec c 92); [subst; now apply scanstring_backslash|].
  destruct (N.eqb_spec c 10); [subst; now apply scanstring_backslash|].
  destruct (N.eqb_spec c 13); [subst; now apply scanstring_backslash|].
  destruct (N.eqb_spec c 9); [subst; now apply scanstring_backslash|].
  destruct (N.eqb_spec c 8); [subst; now apply scanstring_backslash|].
  destruct (N.eqb_spec c 12); [subst; now apply scanstring_backslash|].
  destruct (N.ltb_spec c 32).
  - now apply scanstring_control.
  - now apply scanstring_plain.
Qed.

Lemma scanstring_roundtrip s rest :
  scanstring (flat_map escape_char s ++ 34%N :: rest) = Ok (s, rest).
Proof.
  induction s as [|c s IH]; simpl; [reflexivity|].
  rewrite <- app_assoc, scanstring_escape, IH. reflexivity.
Qed.

(** Integers. *)

Lemma chars_uint_chars u : chars_uint (uint_chars u) = u.
Proof. induction u; simpl; now rewrite ?IHu. Qed.

Lemma uint_chars_digits u : forallb is_digit (uint_chars u) = true.
Proof. induction u; simpl; auto. Qed.

Lemma take_digits_app ds rest :
  forallb is_digit ds = true -> num_follow rest = true ->
  take_digits (ds ++ rest) = (ds, rest).
Proof.
  intros Hd Hf. induction ds as [|c ds IH]; simpl in *.
  - destruct rest as [|c r]; [reflexivity|]. simpl in *.
    destruct (is_digit c); [discriminate | reflexivity].
  - apply andb_true_iff in Hd. destruct Hd as [Hc Hds].
    rewrite Hc, (IH Hds). reflexivity.
Qed.

Lemma num_follow_frac rest : num_follow rest = true -> has_frac rest = false.
Proof.
  destruct rest as [|c [|c' r]]; try reflexivity. simpl.
  destruct (c =? 46)%N; [|reflexivity].
  rewrite !andb_true_iff. simpl. intuition discriminate.
Qed.

Lemma num_follow_exp rest : num_follow rest = true -> has_exp rest = false.
Proof.
  destruct rest as [|c [|c' r]]; try reflexivity. simpl.
  destruct (c =? 101)%N; [rewrite !andb_true_iff; simpl; intuition discriminate|].
  destruct (c =? 69)%N; [rewrite !andb_true_iff; simpl; intuition discriminate|].
  reflexivity.
Qed.

Lemma nzhead_not_D0 d u : Decimal.nzhead d <> Decimal.D0 u.
Proof. induction d; simpl; try discriminate; auto. Qed.

Lemma to_uint_head p :
  exists c ds, uint_chars (Pos.to_uint p) = c :: ds /\
               c <> 48%N /\ is_digit c = true /\ forallb is_digit ds = true.
Proof.
  assert (Hn : Decimal.unorm (Pos.to_uint p) = Pos.to_uint p).
  { rewrite <- (DecimalPos.Unsigned.to_of (Pos.to_uint p)).
    now rewrite DecimalPos.Unsigned.of_to. }
  pose proof (DecimalPos.Unsigned.to_uint_nonzero p) as Hz.
  pose proof (uint_chars_digits (Pos.to_uint p)) as Hd.
  destruct (Pos.to_uint p) as [|u|u|u|u|u|u|u|u|u|u] eqn:E.
  - exfalso. apply (DecimalPos.Unsigned.to_uint_nonnil p). exact E.
  - exfalso. unfold Decimal.unorm in Hn. simpl in Hn.
    destruct (Decimal.nzhead u) eqn:En; try discriminate.
    + apply Hz. now rewrite <- Hn.
    + inversion Hn; subst. now apply nzhead_not_D0 in En.
  - simpl in *. eexists _, _. split; [reflexivity|]. repeat split; auto; discriminate.
  - simpl in *. eexists _, _. split; [reflexivity|]. repeat split; auto; discriminate.
  - simpl in *. eexists _, _. split; [reflexivity|]. repeat split; auto; discriminate.
  - simpl in *. eexists _, _. split; [reflexivity|]. repeat split; auto; discriminate.
  - simpl in *. eexists _, _. split; [reflexivity|]. repeat split; auto; discriminate.
  - simpl in *. eexists _, _. split; [reflexivity|]. repeat split; auto; discriminate.
  - simpl in *. eexists _, _. split; [reflexivity|]. repeat split; auto; discriminate.
  - simpl in *. eexists _, _. split; [reflexivity|]. repeat split; auto; discriminate.
  - simpl in *. eexists _, _. split; [reflexivity|]. repeat split; auto; discriminate.
Qed.

Lemma match_int_pos p rest :
  num_follow rest = true ->
  match_int (uint_chars (Pos.to_uint p) ++ rest)
  = Some (uint_chars (Pos.to_uint p), rest).
Proof.
  intros Hf. destruct (to_uint_head p) as (c & ds & E & Hc & Hd & Hds).
  rewrite E. simpl. destruct (N.eqb_spec c 48); [contradiction|].
  rewrite Hd, (take_digits_app ds rest Hds Hf). reflexivity.
Qed.

Lemma digits_value_pos p : digits_value (uint_chars (Pos.to_uint p)) = Z.pos p.
Proof.
  unfold digits_value. rewrite chars_uint_chars.
  unfold N.of_uint. now rewrite DecimalPos.Unsigned.of_to.
Qed.

Lemma scan_number_roundtrip z rest :
  num_follow rest = true ->
  scan_number (int_repr z ++ rest) = Ok (JInt z, rest).
Proof.
  intros Hf. unfold scan_number, int_repr.
  destruct z as [|p|p]; simpl Z.to_int.
  - simpl. rewrite (num_follow_frac _ Hf), (num_follow_exp _ Hf). reflexivity.
  - destruct (to_uint_head p) as (c & ds & E & Hc & Hd & Hds).
    assert (Hm : (c =? 45)%N = false).
    { apply N.eqb_neq. intros ->. discriminate. }
    pose proof (match_int_pos p rest Hf) as M.
    pose proof (digits_value_pos p) as V.
    rewrite E in *. cbn [app]. rewrite Hm. cbn [app] in M. rewrite M.
    rewrite (num_follow_frac _ Hf), (num_follow_exp _ Hf). cbn [orb].
    now rewrite V.
  - cbn [app]. change (45 =? 45)%N with true. cbv iota.
    rewrite (match_int_pos p rest Hf).
    rewrite (num_follow_frac _ Hf), (num_follow_exp _ Hf). cbn [orb].
    now rewrite digits_value_pos.
Qed.

(** White space and first characters. *)

Lemma skip_ws_app w s : forallb is_ws w = true -> skip_ws (w ++ s) = skip_ws s.
Proof.
  induction w as [|c w IH]; simpl; [reflexivity|].
  intros H. apply andb_true_iff in H. destruct H as [Hc Hw].
  rewrite Hc. auto.
Qed.

Lemma skip_ws_head c s : is_ws c = false -> skip_ws (c :: s) = c :: s.
Proof. intros H. simpl. now rewrite H. Qed.

Lemma repeat_space_ws n : forallb is_ws (repeat 32%N n) = true.
Proof. induction n; simpl; auto. Qed.

Lemma newline_indent_ws indent level :
  forallb is_ws (newline_indent indent level) = true.
Proof.
  destruct indent as [n|]; simpl; [|reflexivity]. apply repeat_space_ws.
Qed.

Lemma separator_shape indent level :
  exists W, item_separator indent ++ newline_indent indent level = 44%N :: W /\
            forallb is_ws W = true.
Proof.
  destruct indent as [n|]; simpl.
  - eexists. split; [reflexivity|]. simpl. apply repeat_space_ws.
  - eexists. split; reflexivity.
Qed.

Lemma is_ws_cases w :
  is_ws w = true -> w = 32%N \/ w = 9%N \/ w = 10%N \/ w = 13%N.
Proof.
  unfold is_ws. rewrite !orb_true_iff, !N.eqb_eq. tauto.
Qed.

Lemma num_follow_after (C : pystr) (c : N) (rest : pystr) :
  forallb is_ws C = true -> c = 93%N \/ c = 125%N \/ c = 44%N ->
  num_follow (C ++ c :: rest) = true.
Proof.
  intros HC Hc. destruct C as [|w C]; simpl.
  - destruct Hc as [->|[->| ->]]; reflexivity.
  - simpl in HC. apply andb_true_iff in HC. destruct HC as [Hw _].
    destruct (is_ws_cases _ Hw) as [->|[->|[->| ->]]]; reflexivity.
Qed.

Lemma int_repr_head z :
  exists c tail, int_repr z = c :: tail /\ (is_digit c = true \/ c = 45%N).
Proof.
  unfold int_repr. destruct z as [|p|p]; simpl Z.to_int.
  - eexists _, _. split; [reflexivity|]. now left.
  - destruct (to_uint_head p) as (c & ds & E & _ & Hd & _).
    rewrite E. eexists _, _. split; [reflexivity|]. now left.
  - eexists _, _. split; [reflexivity|]. now right.
Qed.

Lemma is_digit_range c : is_digit c = true -> (48 <= c <= 57)%N.
Proof.
  unfold is_digit. rewrite andb_true_iff, !N.leb_le. tauto.
Qed.

(** The first character of an encoding starts a value: it is neither
    white space nor a closing bracket. *)
Lemma encode_head indent level d :
  exists c tail, encode indent level d = c :: tail /\
                 is_ws c = false /\ c <> 93%N.
Proof.
  destruct d as [| [|] | z | s | [|x l] | [|kv kvs]];
    try (eexists _, _; split; [reflexivity|]; split; [reflexivity | discriminate]).
  destruct (int_repr_head z) as (c & tail & E & H).
  exists c, tail. split; [exact E|].
  destruct H as [H| ->]; [|split; [reflexivity | discriminate]].
  apply is_digit_range in H. split.
  - unfold is_ws. rewrite !orb_false_iff, !N.eqb_neq. lia.
  - lia.
Qed.

Lemma skip_ws_encode indent level d rest :
  skip_ws (encode indent level d ++ rest) = encode indent level d ++ rest.
Proof.
  destruct (encode_head indent level d) as (c & tail & E & Hws & _).
  rewrite E. simpl. now rewrite Hws.
Qed.

Lemma dict_of_pairs_distinct (kvs : list (pystr * json)) :
  NoDup (List.map fst kvs) -> dict_of_pairs pystr_dec kvs = kvs.
Proof.
  unfold dict_of_pairs.
  assert (G : forall acc,
             NoDup (List.map fst (acc ++ kvs)) ->
             fold_left (fun d kv => dict_set pystr_dec d (fst kv) (snd kv)) kvs acc
             = acc ++ kvs).
  { induction kvs as [|[k v] kvs IH]; intros acc H; simpl.
    - now rewrite app_nil_r.
    - assert (E : dict_set pystr_dec acc k v = acc ++ [(k, v)]).
      { rewrite map_app in H. simpl in H. apply NoDup_remove_2 in H.
        assert (Hk : ~ In k (List.map fst acc)) by (intros I; apply H, in_or_app; now left).
        clear - Hk. induction acc as [|[k0 v0] acc IHa]; simpl; [reflexivity|].
        simpl in Hk. destruct (pystr_dec k0 k); [tauto|]. f_equal. apply IHa. tauto. }
      rewrite E, IH; rewrite <- app_assoc; [reflexivity | exact H]. }
  intros H. now apply (G []).
Qed.

(** Arrays and objects. *)

Lemma str_join_two (sep a b : pystr) (l : list pystr) :
  str_join sep (a :: b :: l) = a ++ sep ++ str_join sep (b :: l).
Proof. reflexivity. Qed.

Lemma str_join_head (sep a : pystr) (l : list pystr) :
  exists t, str_join sep (a :: l) = a ++ t.
Proof.
  destruct l as [|b l].
  - exists []. simpl. now rewrite app_nil_r.
  - eexists. apply str_join_two.
Qed.

Lemma skip_ws_join indent level (sep : pystr) y (l : list pystr) (r : pystr) :
  skip_ws (str_join sep (encode indent level y :: l) ++ r)
  = str_join sep (encode indent level y :: l) ++ r.
Proof.
  destruct (str_join_head sep (encode indent level y) l) as [t ->].
  rewrite <- app_assoc. apply skip_ws_encode.
Qed.

Lemma len_cons (c : N) (l : pystr) : List.length (c :: l) = S (List.length l).
Proof. reflexivity. Qed.

Ltac norm_len H :=
  repeat (rewrite length_app in H || rewrite len_cons in H);
  repeat (rewrite length_app || rewrite len_cons).

Section Loops.
Variable indent : option nat.
Variable lvl : nat.
Variables W C : pystr.
Hypothesis HW : forallb is_ws W = true.
Hypothesis HC : forallb is_ws C = true.


Lemma array_items_roundtrip (rest : pystr) :
  forall xs : list json,
    xs <> [] -> Forall (value_parses indent lvl) xs ->
    forall fuel,
      2 * List.length (str_join (44%N :: W) (List.map (encode indent lvl) xs)
                       ++ C ++ 93%N :: rest) + 1 < fuel ->
      array_items fuel (str_join (44%N :: W) (List.map (encode indent lvl) xs)
                        ++ C ++ 93%N :: rest)
      = Ok (xs, rest).
Proof.
  induction xs as [|x xs IH]; [congruence|]. intros _ HF fuel Hfuel.
  inversion HF as [|? ? Hx HF']; subst.
  destruct fuel as [|f]; [lia|]. destruct xs as [|y ys].
  - cbn [List.map str_join] in *. cbn [array_items].
    rewrite (Hx (C ++ 93%N :: rest) f);
      [|apply num_follow_after; auto | lia].
    cbn [bind]. rewrite (@skip_ws_app C _ HC), skip_ws_head by reflexivity.
    reflexivity.
  - cbn [List.map] in *. rewrite str_join_two in *.
    set (T' := str_join (44%N :: W) (encode indent lvl y :: List.map (encode indent lvl) ys)
               ++ C ++ 93%N :: rest) in *.
    assert (E : (encode indent lvl x ++ (44%N :: W) ++ str_join (44%N :: W) (encode indent lvl y :: List.map (encode indent lvl) ys))
                ++ C ++ 93%N :: rest
                = encode indent lvl x ++ 44%N :: W ++ T').
    { unfold T'. rewrite <- !app_assoc. reflexivity. }
    rewrite E in *. cbn [array_items].
    rewrite (Hx (44%N :: W ++ T') f);
      [|reflexivity | lia].
    cbn [bind]. rewrite skip_ws_head by reflexivity.
    change (44 =? 93)%N with false. change (44 =? 44)%N with true. cbv iota.
    rewrite (@skip_ws_app W _ HW).
    assert (Es : skip_ws T' = T').
    { unfold T'. apply skip_ws_join. }
    rewrite Es.
    rewrite (IH ltac:(discriminate) HF' f); [reflexivity|].
    rewrite ?length_app in Hfuel. cbn [List.length] in Hfuel.
    rewrite ?length_app in Hfuel. lia.
Qed.

Lemma object_pairs_roundtrip (rest : pystr) :
  forall kvs : list (pystr * json),
    kvs <> [] -> Forall (fun kv => value_parses indent lvl (snd kv)) kvs ->
    forall fuel r1,
      34%N :: r1 = str_join (44%N :: W) (List.map (pair_text indent lvl) kvs)
                   ++ C ++ 125%N :: rest ->
      2 * List.length r1 + 1 < fuel ->
      object_pairs fuel r1 = Ok (kvs, rest).
Proof.
  induction kvs as [|[k v] kvs IH]; [congruence|]. intros _ HF fuel r1 E Hfuel.
  inversion HF as [|? ? Hv HF']; subst. simpl in Hv.
  destruct fuel as [|f]; [lia|]. destruct kvs as [|kv2 kvs].
  - cbn [List.map str_join pair_text] in E.
    unfold encode_basestring, key_separator in E.
    cbn [app] in E. rewrite <- !app_assoc in E. cbn [app] in E.
    inversion E as [E1]. clear E. subst r1.
    cbn [object_pairs]. rewrite scanstring_roundtrip. cbn [bind].
    rewrite skip_ws_head by reflexivity.
    change (58 =? 58)%N with true. cbv iota.
    change (skip_ws (32%N :: ?t)) with (skip_ws t).
    rewrite skip_ws_encode.
    rewrite (Hv (C ++ 125%N :: rest) f);
      [|apply num_follow_after; auto |].
    + cbn [bind]. rewrite (@skip_ws_app C _ HC), skip_ws_head by reflexivity.
      reflexivity.
    + norm_len Hfuel. lia.
  - cbn [List.map] in E. rewrite str_join_two in E.
    set (T' := str_join (44%N :: W)
                 (pair_text indent lvl kv2 :: List.map (pair_text indent lvl) kvs)
               ++ C ++ 125%N :: rest) in *.
    assert (HT : exists r4, T' = 34%N :: r4).
    { unfold T'. destruct kv2 as [k2 v2].
      destruct (str_join_head (44%N :: W) (pair_text indent lvl (k2, v2))
                  (List.map (pair_text indent lvl) kvs)) as [t ->].
      unfold pair_text, encode_basestring. cbn [app]. eexists. reflexivity. }
    destruct HT as [r4 HT].
    assert (E' : 34%N :: r1
                 = 34%N :: flat_map escape_char k ++ 34%N :: 58%N :: 32%N
                     :: encode indent lvl v ++ 44%N :: W ++ T').
    { rewrite E. unfold T', pair_text at 1, encode_basestring, key_separator.
      cbn [app]. rewrite <- !app_assoc. cbn [app]. rewrite <- !app_assoc.
      reflexivity. }
    inversion E' as [E1]. clear E E'. subst r1.
    cbn [object_pairs]. rewrite scanstring_roundtrip. cbn [bind].
    rewrite skip_ws_head by reflexivity.
    change (58 =? 58)%N with true. cbv iota.
    change (skip_ws (32%N :: ?t)) with (skip_ws t).
    rewrite skip_ws_encode.
    rewrite (Hv (44%N :: W ++ T') f); [|reflexivity|].
    + cbn [bind]. rewrite skip_ws_head by reflexivity.
      change (44 =? 125)%N with false. change (44 =? 44)%N with true. cbv iota.
      rewrite (@skip_ws_app W _ HW). rewrite HT.
      rewrite skip_ws_head by reflexivity.
      change (34 =? 34)%N with true. cbv iota.
      rewrite (IH ltac:(discriminate) HF' f r4); [reflexivity | now rewrite <- HT |].
      rewrite HT in Hfuel. norm_len Hfuel. lia.
    + norm_len Hfuel. lia.
Qed.
End Loops.

Lemma scan_once_number fuel c tail :
  is_digit c = true \/ c = 45%N ->
  scan_once (S fuel) (c :: tail) = scan_number (c :: tail).
Proof.
  intros H.
  assert (R : (48 <= c <= 57)%N \/ c = 45%N).
  { destruct H as [H|H]; [left; now apply is_digit_range | now right]. }
  cbn [scan_once].
  destruct (N.eqb_spec c 34); [lia|].
  destruct (N.eqb_spec c 123); [lia|].
  destruct (N.eqb_spec c 91); [lia|].
  assert (E1 : prefix_of (py "null") (c :: tail) = None).
  { cbn. destruct (N.eqb_spec 110 c); [lia | reflexivity]. }
  assert (E2 : prefix_of (py "true") (c :: tail) = None).
  { cbn. destruct (N.eqb_spec 116 c); [lia | reflexivity]. }
  assert (E3 : prefix_of (py "false") (c :: tail) = None).
  { cbn. destruct (N.eqb_spec 102 c); [lia | reflexivity]. }
  now rewrite E1, E2, E3.
Qed.

Lemma encode_dict_cons indent lvl kv kvs :
  encode indent lvl (JDict (kv :: kvs))
  = 123%N :: newline_indent indent (S lvl)
      ++ str_join (item_separator indent ++ newline_indent indent (S lvl))
           (List.map (pair_text indent (S lvl)) (kv :: kvs))
      ++ newline_indent indent lvl ++ [125%N].
Proof. reflexivity. Qed.

Lemma encode_parses :
  forall d, json_wf d = true -> forall indent lvl, value_parses indent lvl d.
Proof.
  induction d as [| b | z | s | l IH | kvs IH] using json_ind';
    intros Hwf indent lvl rest fuel Hfollow Hfuel;
    (destruct fuel as [|f]; [lia|]).
  - reflexivity.
  - destruct b; reflexivity.
  - cbn [encode] in *. destruct (int_repr_head z) as (c & tail & E & Hc).
    pose proof (scan_number_roundtrip z rest Hfollow) as R.
    rewrite E in *. cbn [app] in *. now rewrite scan_once_number.
  - cbn [encode] in *. unfold encode_basestring. cbn [app].
    rewrite <- app_assoc. cbn [app]. cbn [scan_once].
    change (34 =? 34)%N with true. cbv iota.
    now rewrite scanstring_roundtrip.
  - destruct l as [|x l]; [reflexivity|].
    destruct (separator_shape indent (S lvl)) as (W & EW & HW).
    pose proof (newline_indent_ws indent lvl) as HC.
    pose proof (newline_indent_ws indent (S lvl)) as HA.
    assert (HF : Forall (value_parses indent (S lvl)) (x :: l)).
    { simpl in Hwf. rewrite Forall_forall in *. intros y I.
      apply IH; [exact I|]. change (forallb json_wf (x :: l) = true) in Hwf.
      rewrite forallb_forall in Hwf. now apply Hwf. }
    cbn [encode] in *. rewrite EW in *.
    set (J := str_join (44%N :: W) (List.map (encode indent (S lvl)) (x :: l))) in *.
    assert (ET : (91%N :: newline_indent indent (S lvl) ++ J
                    ++ newline_indent indent lvl ++ [93%N]) ++ rest
                 = 91%N :: newline_indent indent (S lvl)
                     ++ (J ++ newline_indent indent lvl ++ 93%N :: rest)).
    { cbn [app]. rewrite <- !app_assoc. reflexivity. }
    rewrite ET in *. cbn [scan_once].
    change (91 =? 34)%N with false. change (91 =? 123)%N with false.
    change (91 =? 91)%N with true. cbv iota.
    rewrite (@skip_ws_app _ _ HA).
    assert (Es : skip_ws (J ++ newline_indent indent lvl ++ 93%N :: rest)
                 = J ++ newline_indent indent lvl ++ 93%N :: rest).
    { unfold J. cbn [List.map]. apply skip_ws_join. }
    rewrite Es.
    pose proof (@array_items_roundtrip indent (S lvl) W
                  (newline_indent indent lvl) HW HC rest (x :: l)
                  ltac:(discriminate) HF f) as R.
    fold J in R.
    assert (Hh : exists c1 r1,
               J ++ newline_indent indent lvl ++ 93%N :: rest = c1 :: r1 /\
               c1 <> 93%N).
    { unfold J. cbn [List.map].
      destruct (str_join_head (44%N :: W) (encode indent (S lvl) x)
                  (List.map (encode indent (S lvl)) l)) as [t ->].
      destruct (encode_head indent (S lvl) x) as (c & tl & -> & _ & Hc).
      cbn [app]. eexists _, _. split; [reflexivity | exact Hc]. }
    destruct Hh as (c1 & r1 & Eh & Hc1).
    rewrite Eh in *.
    destruct (N.eqb_spec c1 93); [contradiction|].
    rewrite R; [reflexivity|]. norm_len Hfuel. lia.
  - destruct kvs as [|[k v] kvs]; [reflexivity|].
    destruct (separator_shape indent (S lvl)) as (W & EW & HW).
    pose proof (newline_indent_ws indent lvl) as HC.
    pose proof (newline_indent_ws indent (S lvl)) as HA.
    destruct (json_wf_dict _ Hwf) as [Hnd Hwfc].
    assert (HF : Forall (fun kv => value_parses indent (S lvl) (snd kv))
                   ((k, v) :: kvs)).
    { rewrite Forall_forall in *. intros [k' v'] I. simpl.
      apply (IH _ I). eapply Hwfc; eauto. }
    rewrite encode_dict_cons in *. rewrite EW in *.
    set (J := str_join (44%N :: W)
                (List.map (pair_text indent (S lvl)) ((k, v) :: kvs))) in *.
    assert (ET : (123%N :: newline_indent indent (S lvl) ++ J
                    ++ newline_indent indent lvl ++ [125%N]) ++ rest
                 = 123%N :: newline_indent indent (S lvl)
                     ++ (J ++ newline_indent indent lvl ++ 125%N :: rest)).
    { cbn [app]. rewrite <- !app_assoc. reflexivity. }
    rewrite ET in *. cbn [scan_once].
    change (123 =? 34)%N with false. change (123 =? 123)%N with true. cbv iota.
    rewrite (@skip_ws_app _ _ HA).
    assert (Hh : exists r1,
               J ++ newline_indent indent lvl ++ 125%N :: rest = 34%N :: r1).
    { unfold J. cbn [List.map].
      destruct (str_join_head (44%N :: W) (pair_text indent (S lvl) (k, v))
                  (List.map (pair_text indent (S lvl)) kvs)) as [t ->].
      unfold pair_text, encode_basestring. cbn [app]. eexists. reflexivity. }
    destruct Hh as (r1 & Eh).
    pose proof (@object_pairs_roundtrip indent (S lvl) W
                  (newline_indent indent lvl) HW HC rest ((k, v) :: kvs)
                  ltac:(discriminate) HF f r1) as R.
    fold J in R. rewrite Eh in *.
    rewrite skip_ws_head by reflexivity.
    change (34 =? 125)%N with false. change (34 =? 34)%N with true. cbv iota.
    rewrite R; [|reflexivity | norm_len Hfuel; lia].
    cbn [bind]. now rewrite dict_of_pairs_distinct.
Qed.

Lemma json_loads_dumps (d : json) (indent : option nat) :
  json_wf d = true -> json_loads (json_dumps d indent) = Ok d.
Proof.
  intros Hwf. unfold json_loads, json_dumps.
  pose proof (@encode_parses d Hwf indent 0 [] (S (S (2 * List.length (encode indent 0 d))))
                eq_refl) as R.
  rewrite app_nil_r in R.
  rewrite <- (app_nil_r (encode indent 0 d)) at 2.
  rewrite skip_ws_encode, app_nil_r, R; [reflexivity | lia].
Qed.

(** ** StringBuilder: the stack *)

(** X1. [pop] raises IndexError exactly on the empty builder; it returns
    [x] and leaves [sb'] exactly when the builder is [sb'] with [x]
    added last, so [pop] is the inverse of [add].  After [clear], [pop]
    raises and [get] returns the empty string. *)
Theorem StringBuilder_pop_inverts_add :
  forall (sb : StringBuilder.t),
    (StringBuilder.pop sb = Raise IndexError <-> StringBuilder.container sb = []) /\
    (forall (x : pystr) (sb' : StringBuilder.t),
        StringBuilder.pop sb = Ok (x, sb') <-> sb = StringBuilder.add sb' x) /\
    StringBuilder.pop (StringBuilder.clear sb) = Raise IndexError /\
    StringBuilder.get (StringBuilder.clear sb) = [].
Proof.
  intros [c d]. unfold StringBuilder.pop, StringBuilder.add, StringBuilder.clear,
    StringBuilder.get. cbn [StringBuilder.container StringBuilder.delimeter].
  split; [|split; [|split; reflexivity]].
  - destruct (rev c) as [|x r] eqn:E.
    + split; [|reflexivity]. intros _.
      rewrite <- (rev_involutive c), E. reflexivity.
    + split; [discriminate|]. intros ->. discriminate.
  - intros x [c' d']. cbn [StringBuilder.container StringBuilder.delimeter].
    destruct (rev c) as [|y r] eqn:E.
    + split; [discriminate|]. intros H. inversion H; subst.
      rewrite rev_app_distr in E. discriminate.
    + split.
      * intros H. inversion H; subst. f_equal.
        rewrite <- (rev_involutive c), E. reflexivity.
      * intros H. inversion H; subst. rewrite rev_app_distr in E.
        simpl in E. inversion E; subst. now rewrite rev_involutive.
Qed.

(** X2. for a builder whose delimiter is ["/"] and that holds at least
    one segment, none of them with a ["/"] in it, splitting the string
    [get] returns at ["/"], as the first line of [update_value] does,
    gives back the pushed segments in order. *)
Theorem key_chain_splits_into_keys :
  forall (sb : StringBuilder.t),
    StringBuilder.delimeter sb = [47%N] ->
    StringBuilder.container sb <> [] ->
    forallb no_slash (StringBuilder.container sb) = true ->
    str_split 47%N (StringBuilder.get sb) = StringBuilder.container sb.
Proof.
  intros [c d] Hd Hne Hns. simpl in *. subst d.
  unfold StringBuilder.get. simpl. now apply str_split_join.
Qed.

Lemma key_chain_splits_into_keys_witness :
  str_split 47%N
    (StringBuilder.get
       (StringBuilder.add (StringBuilder.add (StringBuilder.init [47%N]) (py "a"))
          (py "b")))
  = [py "a"; py "b"].
Proof.
  apply (@key_chain_splits_into_keys
           (StringBuilder.add (StringBuilder.add (StringBuilder.init [47%N]) (py "a"))
              (py "b"))).
  - reflexivity.
  - discriminate.
  - reflexivity.
Defined.

(** ** update_value *)

Lemma node_at_set_at_diverge ref q v :
  diverge ref q -> forall d, node_at q (set_at ref v d) = node_at q d.
Proof.
  intros (common & k1 & k2 & r1 & r2 & -> & -> & Hk).
  induction common as [|k cs IH]; intros d; simpl.
  - destruct d; try reflexivity.
    destruct (jget kvs k1) as [c|] eqn:E; [|reflexivity].
    simpl. unfold jget, jset. now rewrite dict_get_set_other.
  - destruct d; try reflexivity.
    destruct (jget kvs k) as [c|] eqn:E; [|simpl; now rewrite E].
    simpl. unfold jget, jset in *. rewrite dict_get_set_same. apply IH.
Qed.

Lemma dict_set_new {K V} (K_dec : forall x y : K, {x = y} + {x <> y})
  (d : list (K * V)) k v :
  dict_get K_dec d k = None -> dict_set K_dec d k v = d ++ [(k, v)].
Proof.
  induction d as [|[k' v'] d IH]; simpl; [reflexivity|].
  destruct (K_dec k' k); [discriminate|]. intros H. now rewrite IH.
Qed.

Lemma update_walk_path p k v :
  forall base kvs,
    node_at p base = Some (JDict kvs) ->
    update_walk p k v base = Ok (set_at p (JDict (jset kvs k v)) base).
Proof.
  induction p as [|a p IH]; intros base kvs H; simpl in *.
  - inversion H; subst. reflexivity.
  - destruct base; try discriminate.
    destruct (jget kvs0 a) as [c|] eqn:E; [|discriminate].
    now rewrite (IH _ _ H).
Qed.

Lemma update_walk_missing p k r l v :
  forall base kvs,
    node_at p base = Some (JDict kvs) -> jget kvs k = None ->
    update_walk (p ++ k :: r) l v base = Ok base.
Proof.
  induction p as [|a p IH]; intros base kvs H Hk; simpl in *.
  - inversion H; subst. now rewrite Hk.
  - destruct base; try discriminate.
    destruct (jget kvs0 a) as [c|] eqn:E; [|discriminate].
    rewrite (IH _ _ H Hk). simpl. unfold jget, jset in *.
    now rewrite dict_set_same.
Qed.

Lemma removelast_cons_app {A} (p : list A) k q :
  q <> [] -> removelast (p ++ k :: q) = p ++ k :: removelast q.
Proof.
  intros Hq. rewrite removelast_app by discriminate.
  f_equal. simpl. destruct q; [congruence | reflexivity].
Qed.

(** X3. when the keys of a non-empty path hold no ["/"] and the path
    leads, through mappings, to a node of [base], [update_value] on the
    joined path succeeds, the new value is then found at that path, and
    every node on a path that parts from it at some key is unchanged. *)
Theorem update_value_writes_at_path :
  forall (ref : list pystr) (v base x : json),
    ref <> [] -> forallb no_slash ref = true ->
    node_at ref base = Some x ->
    exists base' : json,
      update_value (str_join [47%N] ref) v base = Ok base' /\
      node_at ref base' = Some v /\
      forall q : list pystr, diverge ref q -> node_at q base' = node_at q base.
Proof.
  intros ref v base x Hne Hns Hx. exists (set_at ref v base).
  split; [|split].
  - unfold update_value. rewrite (@str_split_join ref Hne Hns).
    exact (@update_walk_set_at ref v base x Hne Hx).
  - exact (@node_at_set_at ref v base x Hx).
  - intros q Hq. now apply node_at_set_at_diverge.
Qed.

Lemma update_value_writes_at_path_witness :
  exists base' : json,
    update_value (py "a/b") (JInt 7) Examples.nested_doc = Ok base' /\
    node_at [py "a"; py "b"] base' = Some (JInt 7) /\
    forall q : list pystr,
      diverge [py "a"; py "b"] q -> node_at q base' = node_at q Examples.nested_doc.
Proof.
  apply (@update_value_writes_at_path [py "a"; py "b"] (JInt 7)
           Examples.nested_doc Examples.one_two_three).
  - discriminate.
  - reflexivity.
  - reflexivity.
Defined.

(** X4. [update_value] creates a missing last key, appended after the
    keys of the mapping at the parent path, but never a mapping on the
    way: when a key before the last one is missing the call raises
    nothing and returns [base] unchanged, so the write is lost. *)
Theorem update_value_never_creates_a_mapping :
  forall (p : list pystr) (k : pystr) (v base : json)
         (kvs : list (pystr * json)),
    node_at p base = Some (JDict kvs) -> jget kvs k = None ->
    forallb no_slash (p ++ [k]) = true ->
    (exists base' : json,
        update_value (str_join [47%N] (p ++ [k])) v base = Ok base' /\
        node_at p base' = Some (JDict (kvs ++ [(k, v)]))) /\
    (forall q : list pystr,
        q <> [] -> forallb no_slash q = true ->
        update_value (str_join [47%N] (p ++ k :: q)) v base = Ok base).
Proof.
  intros p k v base kvs Hp Hk Hns. split.
  - exists (set_at p (JDict (jset kvs k v)) base). split.
    + unfold update_value. rewrite str_split_join; [|now destruct p|exact Hns].
      rewrite removelast_last, last_last. now apply update_walk_path.
    + rewrite (@node_at_set_at p _ base _ Hp). unfold jset.
      now rewrite (@dict_set_new _ _ pystr_dec kvs k v Hk).
  - intros q Hq Hnq. unfold update_value.
    rewrite str_split_join.
    + rewrite (removelast_cons_app p k Hq).
      eapply update_walk_missing; eauto.
    + now destruct p.
    + rewrite forallb_app in *. simpl in *.
      apply andb_true_iff in Hns. destruct Hns as [H1 H2].
      rewrite H1. simpl. apply andb_true_iff in H2. destruct H2 as [H2 _].
      now rewrite H2.
Qed.

Lemma update_value_never_creates_a_mapping_witness :
  (exists base' : json,
      update_value (py "a/z") (JInt 7) Examples.nested_doc = Ok base' /\
      node_at [py "a"] base'
      = Some (JDict [(py "b", Examples.one_two_three); (py "z", JInt 7)])) /\
  (forall q : list pystr,
      q <> [] -> forallb no_slash q = true ->
      update_value (str_join [47%N] ([py "a"] ++ py "z" :: q)) (JInt 7)
        Examples.nested_doc
      = Ok Examples.nested_doc).
Proof.
  apply (@update_value_never_creates_a_mapping [py "a"] (py "z") (JInt 7)
           Examples.nested_doc [(py "b", Examples.one_two_three)]).
  - reflexivity.
  - reflexivity.
  - reflexivity.
Defined.

Lemma str_split_two c :
  no_slash c = false -> exists a b l, str_split 47%N c = a :: b :: l.
Proof.
  induction c as [|x c IH]; [discriminate|]. intros H. simpl.
  destruct (N.eqb_spec x 47) as [E|E].
  - destruct (str_split 47%N c) as [|b l] eqn:S; [|eauto].
    destruct c; simpl in S; [discriminate|].
    destruct (N.eqb n 47); [discriminate|].
    destruct (str_split 47%N c); discriminate.
  - assert (Hc : no_slash c = false).
    { destruct (no_slash c) eqn:Hc; [|reflexivity].
      assert (no_slash (x :: c) = true) by (apply no_slash_cons; auto).
      congruence. }
    destruct (IH Hc) as (a & b & l & ->). eauto.
Qed.

(** X5. on a [base] that is no mapping [update_value] raises TypeError
    for a key chain without ["/"] (the item assignment) and
    AttributeError for a key chain with one (the call of [get]). *)
Theorem update_value_base_not_a_mapping :
  forall (key_chain : pystr) (v base : json),
    is_dict base = false ->
    update_value key_chain v base =
      Raise (if no_slash key_chain then TypeError else AttributeError).
Proof.
  intros c v base Hb. unfold update_value.
  destruct (no_slash c) eqn:Hc.
  - rewrite (str_split_single _ Hc). simpl. now destruct base.
  - destruct (str_split_two _ Hc) as (a & b & l & ->).
    change (removelast (a :: b :: l)) with (a :: removelast (b :: l)).
    simpl. now destruct base.
Qed.

Lemma update_value_base_not_a_mapping_witness :
  update_value (py "a/b") (JInt 7) Examples.one_two_three = Raise AttributeError.
Proof.
  apply (@update_value_base_not_a_mapping (py "a/b") (JInt 7)
           Examples.one_two_three).
  reflexivity.
Defined.

(** ** The loop body of json_recover *)

(** X6. in the loop body of [json_recover], for a key chain without
    ["/"] on a mapping, the direct assignment and [update_value] write
    the same key: the outcome is the mapping with that key set to the
    list of the result texts. *)
Theorem recover_chain_single_key :
  forall (entries : list (Z * pystr)) (texts : list pystr) (key : pystr)
         (kvs : list (pystr * json)),
    no_slash key = true ->
    updated_list entries = Ok texts ->
    recover_chain entries key (JDict kvs)
    = Ok (JDict (jset kvs key (JList (List.map JStr texts)))).
Proof.
  intros entries texts key kvs Hk Hl. unfold recover_chain.
  rewrite Hl. simpl. unfold update_value.
  rewrite (str_split_single _ Hk). simpl. unfold jset.
  now rewrite dict_set_set.
Qed.

Lemma recover_chain_single_key_witness :
  recover_chain Examples.shuffled (py "a") Examples.two_items
  = Ok (JDict [(py "a", JList [JStr (py "a"); JStr (py "b"); JStr (py "c")])]).
Proof.
  apply (@recover_chain_single_key Examples.shuffled
           [py "a"; py "b"; py "c"] (py "a")
           [(py "a", JList [JInt 1; JInt 2])]).
  - reflexivity.
  - reflexivity.
Defined.

(** X7. in the loop body of [json_recover], for a chain of two or more
    keys without ["/"] that leads to a node of the mapping, the rebuilt
    list ends up at the nested path, by [update_value], and also under a
    top-level key spelled like the whole chain, by the direct
    assignment. *)
Theorem recover_chain_nested_chain :
  forall (entries : list (Z * pystr)) (texts : list pystr)
         (k1 k2 : pystr) (rest : list pystr)
         (kvs : list (pystr * json)) (x : json),
    let ref := k1 :: k2 :: rest in
    let chain := str_join [47%N] ref in
    let value := JList (List.map JStr texts) in
    forallb no_slash ref = true ->
    updated_list entries = Ok texts ->
    node_at ref (JDict kvs) = Some x ->
    exists base' : json,
      recover_chain entries chain (JDict kvs) = Ok base' /\
      node_at ref base' = Some value /\
      node_at [chain] base' = Some value.
Proof.
  intros entries texts k1 k2 rest kvs x ref chain value Hns Hl Hx.
  assert (Hne : ref <> []) by discriminate.
  assert (S : str_split 47%N chain = ref) by (now apply str_split_join).
  assert (Hk1 : k1 <> chain).
  { intros E. assert (Hs : no_slash chain = true).
    { rewrite <- E. simpl in Hns. now apply andb_true_iff in Hns. }
    rewrite (str_split_single _ Hs) in S. discriminate. }
  assert (Hx' : node_at ref (JDict (jset kvs chain value)) = Some x).
  { unfold ref in *. cbn [node_at] in *. unfold jget, jset in *.
    rewrite dict_get_set_other by congruence. exact Hx. }
  exists (set_at ref value (JDict (jset kvs chain value))).
  split; [|split].
  - unfold recover_chain. rewrite Hl. cbn [bind setitem]. fold value.
    unfold update_value. rewrite S.
    exact (@update_walk_set_at ref value _ x Hne Hx').
  - exact (@node_at_set_at ref value _ x Hx').
  - rewrite node_at_set_at_diverge.
    + cbn [node_at]. unfold jget, jset. now rewrite dict_get_set_same.
    + exists [], k1, chain, (k2 :: rest), []. auto.
Qed.

Lemma recover_chain_nested_chain_witness :
  exists base' : json,
    recover_chain [(0%Z, py "1")] (py "a/b") Examples.nested_base = Ok base' /\
    node_at [py "a"; py "b"] base' = Some (JList [JStr (py "1")]) /\
    node_at [py "a/b"] base' = Some (JList [JStr (py "1")]).
Proof.
  apply (@recover_chain_nested_chain [(0%Z, py "1")] [py "1"] (py "a") (py "b") []
           [(py "a", JDict [(py "b", Examples.placeholder)])]
           Examples.placeholder).
  - reflexivity.
  - reflexivity.
  - reflexivity.
Defined.

(** ** The traversal of a document that fits the budget *)

Lemma node_at_arrays_at q :
  forall d pre l,
    node_at q d = Some (JList l) -> In (pre ++ q, l) (arrays_at pre d).
Proof.
  induction q as [|k q IH]; intros d pre l H; simpl in H.
  - inversion H; subst. rewrite app_nil_r. simpl. now left.
  - destruct d; try discriminate.
    destruct (jget kvs k) as [c|] eqn:E; [|discriminate].
    simpl. apply in_flat_map. exists (k, c). split.
    + apply (dict_get_In pystr_dec _ _ E).
    + replace (pre ++ k :: q) with ((pre ++ [k]) ++ q)
        by (now rewrite <- app_assoc).
      now apply IH.
Qed.

Lemma nothing_to_extract_node U d q l :
  nothing_to_extract U d = true -> node_at q d = Some (JList l) ->
  exceeds_max_token U (JList l) = false.
Proof.
  intros H Hq. unfold nothing_to_extract in H. rewrite forallb_forall in H.
  specialize (H _ (node_at_arrays_at q d [] Hq)). simpl in H.
  now apply negb_true_iff in H.
Qed.

Lemma jget_of_In kvs (k : pystr) (v : json) :
  In (k, v) kvs -> exists c, jget kvs k = Some c /\ In (k, c) kvs.
Proof.
  induction kvs as [|[k' v'] kvs IH]; simpl; [tauto|].
  destruct (pystr_dec k' k) as [->|Hn].
  - intros _. exists v'. split; [reflexivity | now left].
  - intros [E|I]; [inversion E; congruence|].
    destruct (IH I) as (c & Hc & Ic). exists c. split; [assumption | now right].
Qed.

Lemma traverse_items_unchanged rec ref kvs :
  forall remaining i self,
    i + remaining = List.length kvs ->
    node_at ref (data self) = Some (JDict kvs) ->
    (forall k v self1,
        In (k, v) kvs -> data self1 = data self ->
        rec (ref ++ [k]) self1 = Ok self1) ->
    traverse_items rec ref (List.length kvs) i remaining self = Ok self.
Proof.
  induction remaining as [|r IH]; intros i self Hlen Hnode Hrec; [reflexivity|].
  cbn [traverse_items]. rewrite Hnode, Nat.eqb_refl.
  destruct (nth_error kvs i) as [[key v]|] eqn:E.
  - rewrite (Hrec key v); [|eapply nth_error_In; eauto|reflexivity].
    cbn [bind with_builder string_builder]. rewrite pop_add. cbn [bind].
    replace (with_builder _ _) with self by (now destruct self).
    apply IH; [lia | assumption | assumption].
  - apply nth_error_None in E. lia.
Qed.

Lemma json_traverse_at_unchanged (U : Utility) :
  forall (fuel : nat) (node : json) (ref : list pystr) (self : JsonOperations),
    json_depth node < fuel ->
    node_at ref (data self) = Some node ->
    (forall q l, node_at q node = Some (JList l) ->
                 exceeds_max_token U (JList l) = false) ->
    json_traverse_at fuel U ref self = Ok self.
Proof.
  induction fuel as [|f IH]; intros node ref self Hfuel Hnode Hq; [lia|].
  cbn [json_traverse_at]. rewrite Hnode.
  destruct node as [| b | z | s | l | kvs]; try reflexivity.
  - now rewrite (Hq [] l eq_refl).
  - apply traverse_items_unchanged; [reflexivity | assumption|].
    intros k v self1 I Hd.
    destruct (jget_of_In _ _ _ I) as (c & Hc & Ic).
    apply (IH c).
    + pose proof (json_depth_child _ _ _ Ic). lia.
    + rewrite Hd, node_at_app, Hnode. simpl. now rewrite Hc.
    + intros q l Hl. apply (Hq (k :: q)). simpl. now rewrite Hc.
Qed.

Lemma json_traverse_quiet (U : Utility) (self : JsonOperations) :
  nothing_to_extract U (data self) = true -> json_traverse U self = Ok self.
Proof.
  intros H. unfold json_traverse.
  apply (@json_traverse_at_unchanged U _ (data self)); [lia | reflexivity|].
  intros q l Hq. eapply nothing_to_extract_node; eauto.
Qed.

(** X8. when no array reached through mappings only exceeds the budget,
    [json_traverse] returns and leaves the operations object as it was:
    same working document, same extraction map, same builder.  Nothing
    is asked of the keys. *)
Theorem json_traverse_nothing_to_extract :
  forall (U : Utility) (self : JsonOperations),
    nothing_to_extract U (data self) = true ->
    json_traverse U self = Ok self.
Proof. intros U self. apply json_traverse_quiet. Qed.

Lemma json_traverse_nothing_to_extract_witness :
  json_traverse (Examples.utility 100)
    (JsonOperations_init (Examples.utility 100) Examples.nested_doc)
  = Ok (JsonOperations_init (Examples.utility 100) Examples.nested_doc).
Proof.
  apply (@json_traverse_nothing_to_extract (Examples.utility 100)
           (JsonOperations_init (Examples.utility 100) Examples.nested_doc)).
  reflexivity.
Defined.

(** ** Wrapping and unwrapping the root *)

Lemma unwrap_init (U : Utility) (d : json) :
  no_placeholder_key U d = true ->
  unwrap_placeholder U (working_document U d) = Ok d.
Proof.
  intros Hp. unfold working_document, JsonOperations_init. cbn [data].
  assert (W : unwrap_placeholder U (JDict [(get_dummy_placeholder U, d)]) = Ok d).
  { unfold unwrap_placeholder. simpl.
    destruct (pystr_dec (get_dummy_placeholder U) (get_dummy_placeholder U));
      [reflexivity | congruence]. }
  destruct d; try exact W.
  unfold unwrap_placeholder.
  unfold no_placeholder_key, dict_mem in Hp. unfold jget.
  destruct (dict_get pystr_dec kvs (get_dummy_placeholder U));
    [discriminate | reflexivity].
Qed.

(** X9. the working document that [__init__] builds is always a mapping,
    and for an input without a top-level key equal to the placeholder
    the last line of [to_json_object_formatted] (the value under the
    placeholder key if there is one, else the object) gives the input
    back. *)
Theorem unwrap_placeholder_working_document :
  forall (U : Utility) (d : json),
    no_placeholder_key U d = true ->
    is_dict (working_document U d) = true /\
    unwrap_placeholder U (working_document U d) = Ok d.
Proof.
  intros U d Hp. split; [apply is_dict_init | now apply unwrap_init].
Qed.

Lemma unwrap_placeholder_working_document_witness :
  is_dict (working_document (Examples.utility 5) Examples.one_two_three) = true /\
  unwrap_placeholder (Examples.utility 5)
    (working_document (Examples.utility 5) Examples.one_two_three)
  = Ok Examples.one_two_three.
Proof.
  apply (@unwrap_placeholder_working_document (Examples.utility 5)
           Examples.one_two_three).
  reflexivity.
Defined.

(** ** Serialization round trips *)

(** X10. for every document of the embedding whose mappings have
    distinct keys, and for every indentation, [json.loads] of the text
    of [to_json_string] is the document. *)
Theorem to_json_string_round_trip :
  forall (d : json) (indent : option nat),
    json_wf d = true ->
    json_loads (to_json_string d indent) = Ok d.
Proof. intros d indent H. now apply json_loads_dumps. Qed.

Lemma to_json_string_round_trip_witness :
  json_loads (to_json_string Examples.nested_doc (Some 4))
  = Ok Examples.nested_doc.
Proof.
  apply (@to_json_string_round_trip Examples.nested_doc (Some 4)).
  reflexivity.
Defined.

(** X11. the text of [create_batch_message] always parses back to the
    request it was built from; the request holds the given custom id
    and, as [max_tokens], three times the token count of the system
    content. *)
Theorem create_batch_message_parses :
  forall (U : Utility) (system_content user_content custom_id : pystr),
    json_loads (create_batch_message U system_content user_content custom_id)
    = Ok (message_dict U system_content user_content custom_id) /\
    node_at [py "custom_id"]
      (message_dict U system_content user_content custom_id)
    = Some (JStr custom_id) /\
    node_at [py "body"; py "max_tokens"]
      (message_dict U system_content user_content custom_id)
    = Some (JInt (num_tokens_from_string U system_content (get_model_name U)
                  * 3)%Z).
Proof.
  intros U s u c. split; [|split; reflexivity].
  unfold create_batch_message, to_json_string.
  apply json_loads_dumps. reflexivity.
Qed.

Lemma formatted_clean (U : Utility) (d : json) :
  json_wf d = true ->
  cleanup (to_json_string d None) = to_json_string d None ->
  to_json_object_formatted U d = unwrap_placeholder U d.
Proof.
  intros Hwf Hc. unfold to_json_object_formatted. rewrite Hc.
  unfold to_json_string. now rewrite (@json_loads_dumps d None Hwf).
Qed.

(** X12. when the clean-up of [to_json_object_formatted] leaves the
    compact serialization of a document unchanged, the formatter returns
    the document, or the value under its placeholder key if it has one. *)
Theorem to_json_object_formatted_clean_text :
  forall (U : Utility) (d : json),
    json_wf d = true ->
    cleanup (to_json_string d None) = to_json_string d None ->
    to_json_object_formatted U d = unwrap_placeholder U d.
Proof. intros U d. apply formatted_clean. Qed.

Lemma to_json_object_formatted_clean_text_witness :
  to_json_object_formatted (Examples.utility 5) Examples.nested_doc
  = unwrap_placeholder (Examples.utility 5) Examples.nested_doc.
Proof.
  apply (@to_json_object_formatted_clean_text (Examples.utility 5)
           Examples.nested_doc).
  - reflexivity.
  - reflexivity.
Defined.

(** ** The whole cycle on a document that fits the budget *)

Lemma json_wf_working_document (U : Utility) (d : json) :
  json_wf d = true -> json_wf (working_document U d) = true.
Proof.
  intros H. unfold working_document, JsonOperations_init. cbn [data].
  destruct d; try reflexivity; try exact H.
  simpl. simpl in H. now rewrite H.
Qed.

Lemma create_input_list_quiet (U : Utility) (d : json) :
  nothing_to_extract U (working_document U d) = true ->
  create_input_list U (JsonOperations_init U d)
  = Ok (JsonOperations_init U d,
        [prepare_tuple_for_input_list U (working_document U d) [47%N] 0%Z]).
Proof.
  intros H. unfold create_input_list.
  rewrite json_traverse_quiet by exact H. reflexivity.
Qed.

Lemma json_recover_root_only (U : Utility) (text : pystr) (base : json) :
  json_loads text = Ok base ->
  snd (json_recover U {| default_factory := true;
                         items := [([47%N], [(0%Z, text)])] |})
  = to_json_object_formatted U base.
Proof.
  intros H. unfold json_recover. cbn [items dict_get].
  destruct (pystr_dec [47%N] [47%N]) as [_|N]; [|congruence].
  cbn [dict_get]. destruct (Z.eq_dec 0 0) as [_|N]; [|congruence].
  rewrite H. cbn [snd items dict_remove default_factory].
  destruct (pystr_dec [47%N] [47%N]) as [_|N]; [|congruence].
  reflexivity.
Qed.

Lemma identity_cycle (U : Utility) (d : json) :
  is_container d = true -> json_wf d = true ->
  no_placeholder_key U d = true ->
  nothing_to_extract U (working_document U d) = true ->
  cleanup (to_json_string (working_document U d) None)
  = to_json_string (working_document U d) None ->
  get_updated_data U identity_response d = Ok d.
Proof.
  intros Hc Hwf Hp Hq Hclean.
  assert (G : get_updated_data U identity_response d
              = ('(_, input_list) <-
                   create_input_list U (JsonOperations_init U d) ;;
                 snd (json_recover U (run_inputs identity_response input_list)))).
  { destruct d; try discriminate; reflexivity. }
  rewrite G, (@create_input_list_quiet U d Hq). cbn [bind].
  pose proof (@json_wf_working_document U d Hwf) as Hwd.
  change (run_inputs identity_response
            [prepare_tuple_for_input_list U (working_document U d) [47%N] 0%Z])
    with {| default_factory := true;
            items := [([47%N],
                       [(0%Z, to_json_string (working_document U d) (Some 4))])] |}.
  rewrite (@json_recover_root_only U _ (working_document U d)).
  - rewrite (@formatted_clean U _ Hwd Hclean). now apply unwrap_init.
  - unfold to_json_string. now apply json_loads_dumps.
Qed.

(** X13. with an external service that returns its input,
    [get_updated_data] returns the input document when this is a list or
    a mapping with distinct keys and no top-level placeholder key, no
    array reached through mappings exceeds the budget, and the clean-up
    of the formatter leaves the compact serialization of the working
    document unchanged. *)
Theorem get_updated_data_identity :
  forall (U : Utility) (d : json),
    is_container d = true -> json_wf d = true ->
    no_placeholder_key U d = true ->
    nothing_to_extract U (working_document U d) = true ->
    cleanup (to_json_string (working_document U d) None)
    = to_json_string (working_document U d) None ->
    get_updated_data U identity_response d = Ok d.
Proof. intros U d. apply identity_cycle. Qed.

Lemma get_updated_data_identity_witness :
  get_updated_data (Examples.utility 100) identity_response Examples.nested_doc
  = Ok Examples.nested_doc.
Proof.
  apply (@get_updated_data_identity (Examples.utility 100) Examples.nested_doc).
  - reflexivity.
  - reflexivity.
  - reflexivity.
  - reflexivity.
  - reflexivity.
Defined.

(** ** The compact serialization is one line *)

Lemma Forall_str_join (P : N -> Prop) (sep : pystr) (parts : list pystr) :
  Forall P sep -> Forall (Forall P) parts -> Forall P (str_join sep parts).
Proof.
  intros Hs. induction parts as [|x rest IH]; intros H; [constructor|].
  inversion H as [|? ? Hx Hr]; subst. destruct rest as [|y rest]; [exact Hx|].
  change (str_join sep (x :: y :: rest))
    with (x ++ sep ++ str_join sep (y :: rest)).
  apply Forall_app; split; [exact Hx|]. apply Forall_app; split; auto.
Qed.

Lemma no_control_forallb s : forallb (N.leb 32) s = true -> no_control s.
Proof.
  intros H. rewrite forallb_forall in H. apply Forall_forall.
  intros c I. specialize (H c I). now apply N.leb_le in H.
Qed.

Ltac literal := apply no_control_forallb; reflexivity.

Lemma hex_digit_no_control n : (32 <= hex_digit n)%N.
Proof. unfold hex_digit. destruct (N.ltb_spec n 10); lia. Qed.

Lemma escape_char_no_control c : no_control (escape_char c).
Proof.
  unfold escape_char.
  repeat match goal with
         | |- context [(?a =? ?b)%N] => destruct (N.eqb_spec a b)
         end;
    try literal.
  destruct (N.ltb_spec c 32).
  - unfold no_control.
    repeat (apply Forall_cons; [lia || apply hex_digit_no_control|]).
    apply Forall_nil.
  - apply Forall_cons; [lia | apply Forall_nil].
Qed.

Lemma encode_basestring_no_control s : no_control (encode_basestring s).
Proof.
  unfold no_control, encode_basestring. apply Forall_cons; [lia|].
  apply Forall_app; split; [|literal].
  induction s as [|c s IH]; simpl; [constructor|].
  apply Forall_app; split; [apply escape_char_no_control | exact IH].
Qed.

Lemma int_repr_no_control z : no_control (int_repr z).
Proof.
  assert (D : forall u, no_control (uint_chars u)).
  { intros u. pose proof (uint_chars_digits u) as H.
    unfold no_control. rewrite forallb_forall in H. apply Forall_forall.
    intros c I. specialize (H c I). apply is_digit_range in H. lia. }
  unfold int_repr. destruct (Z.to_int z); [apply D|].
  apply Forall_cons; [lia | apply D].
Qed.

Lemma encode_compact_no_control :
  forall (d : json) (level : nat), no_control (encode None level d).
Proof.
  induction d as [| b | z | s | l IH | kvs IH] using json_ind'; intros level.
  - literal.
  - destruct b; literal.
  - apply int_repr_no_control.
  - apply encode_basestring_no_control.
  - destruct l as [|x l]; [literal|].
    cbn [encode newline_indent item_separator app].
    apply Forall_cons; [lia|]. apply Forall_app; split; [|literal].
    apply Forall_str_join; [literal|].
    apply Forall_forall. intros t I. apply in_map_iff in I.
    destruct I as (y & <- & Iy). rewrite Forall_forall in IH.
    apply (IH y Iy).
  - destruct kvs as [|kv kvs]; [literal|].
    rewrite encode_dict_cons. cbn [newline_indent item_separator app].
    apply Forall_cons; [lia|]. apply Forall_app; split; [|literal].
    apply Forall_str_join; [literal|].
    apply Forall_forall. intros t I. apply in_map_iff in I.
    destruct I as ([k v] & <- & Iy). rewrite Forall_forall in IH.
    unfold pair_text. apply Forall_app; split.
    + apply encode_basestring_no_control.
    + apply Forall_app; split; [literal|].
      apply (IH (k, v) Iy).
Qed.

(** X14. the compact serialization of a document of the embedding holds
    no character below U+0020, in particular no newline. *)
Theorem to_json_string_compact_is_one_line :
  forall d : json,
    no_control (to_json_string d None) /\
    ~ In 10%N (to_json_string d None).
Proof.
  intros d. pose proof (encode_compact_no_control d 0) as H.
  split; [exact H|]. intros I. unfold no_control in H.
  rewrite Forall_forall in H. specialize (H _ I). lia.
Qed.

(** ** The batch text *)

Lemma str_split_sep (c : N) (w rest : pystr) :
  ~ In c w -> str_split c (w ++ c :: rest) = w :: str_split c rest.
Proof.
  induction w as [|x w IH]; intros H; simpl.
  - now rewrite N.eqb_refl.
  - destruct (N.eqb_spec x c) as [E|E]; [exfalso; apply H; now left|].
    rewrite IH; [reflexivity|]. intros I. apply H. now right.
Qed.

Lemma str_split_none (c : N) (w : pystr) : ~ In c w -> str_split c w = [w].
Proof.
  induction w as [|x w IH]; intros H; simpl; [reflexivity|].
  destruct (N.eqb_spec x c) as [E|E]; [exfalso; apply H; now left|].
  rewrite IH; [reflexivity|]. intros I. apply H. now right.
Qed.

Lemma str_split_join_sep (c : N) (parts : list pystr) :
  parts <> [] -> Forall (fun w => ~ In c w) parts ->
  str_split c (str_join [c] parts) = parts.
Proof.
  induction parts as [|w parts IH]; [congruence|]. intros _ H.
  inversion H as [|? ? Hw Hr]; subst. destruct parts as [|w' parts].
  - simpl. now apply str_split_none.
  - change (str_join [c] (w :: w' :: parts))
      with (w ++ [c] ++ str_join [c] (w' :: parts)).
    simpl app at 2. rewrite str_split_sep by assumption.
    f_equal. apply IH; [discriminate | assumption].
Qed.

Lemma fold_add_container (segs : list pystr) (sb : StringBuilder.t) :
  StringBuilder.container (fold_left StringBuilder.add segs sb)
  = StringBuilder.container sb ++ segs /\
  StringBuilder.delimeter (fold_left StringBuilder.add segs sb)
  = StringBuilder.delimeter sb.
Proof.
  revert sb. induction segs as [|s segs IH]; intros sb; simpl.
  - now rewrite app_nil_r.
  - destruct (IH (StringBuilder.add sb s)) as [H1 H2]. rewrite H1, H2.
    simpl. now rewrite <- app_assoc.
Qed.

Lemma str_join_lines (msgs : list pystr) :
  str_join [10%N] (msgs ++ [[]])
  = List.concat (List.map (fun m => m ++ [10%N]) msgs).
Proof.
  induction msgs as [|m msgs IH]; [reflexivity|].
  change ((m :: msgs) ++ [[]]) with (m :: (msgs ++ [[]])).
  destruct (msgs ++ [[]]) as [|y r] eqn:E.
  - destruct msgs; discriminate.
  - change (str_join [10%N] (m :: y :: r))
      with (m ++ [10%N] ++ str_join [10%N] (y :: r)).
    rewrite IH. simpl. now rewrite <- app_assoc.
Qed.

Lemma batch_messages_one_line (U : Utility) (instructions : pystr)
  (self : JsonOperations) :
  Forall (fun w => ~ In 10%N w) (batch_messages U instructions self).
Proof.
  assert (M : forall s u c, ~ In 10%N (create_batch_message U s u c)).
  { intros s u c I. unfold create_batch_message, to_json_string, json_dumps in I.
    pose proof (encode_compact_no_control (message_dict U s u c) 0) as H.
    unfold no_control in H. rewrite Forall_forall in H.
    specialize (H _ I). lia. }
  unfold batch_messages. constructor; [apply M|].
  apply Forall_forall. intros w I. apply in_flat_map in I.
  destruct I as ([k v] & _ & I). unfold messages_of_entry in I.
  destruct v; try contradiction. apply in_map_iff in I.
  destruct I as (ix & <- & _). apply M.
Qed.

Lemma batch_lists_text (U : Utility) (instructions : pystr)
  (self self' : JsonOperations) (text : pystr) :
  batch_lists U instructions self = Ok (self', text) ->
  json_traverse U self = Ok self' /\
  text = str_join [10%N] (batch_messages U instructions self' ++ [[]]).
Proof.
  assert (E : forall s : JsonOperations,
             StringBuilder.get
               (fold_left StringBuilder.add
                  (batch_messages U instructions s ++ [[]])
                  (StringBuilder.init [10%N]))
             = str_join [10%N] (batch_messages U instructions s ++ [[]])).
  { intros s. unfold StringBuilder.get.
    destruct (fold_add_container (batch_messages U instructions s ++ [[]])
                (StringBuilder.init [10%N])) as [H1 H2].
    rewrite H1, H2. reflexivity. }
  unfold batch_lists. destruct (json_traverse U self) as [s| | |];
    try discriminate.
  unfold bind. cbv beta match zeta. rewrite E. intros H.
  injection H as -> <-. split; reflexivity.
Qed.

(** X15. when [batch_lists] returns, its text is the messages, each
    followed by one newline, and splitting the text at the newlines
    gives back the messages followed by one empty string: one line for
    each message, no message broken across lines. *)
Theorem batch_lists_one_line_per_message :
  forall (U : Utility) (instructions : pystr) (self self' : JsonOperations)
         (text : pystr),
    batch_lists U instructions self = Ok (self', text) ->
    text = List.concat (List.map (fun m => m ++ [10%N])
                     (batch_messages U instructions self')) /\
    str_split 10%N text = batch_messages U instructions self' ++ [[]].
Proof.
  intros U instructions self self' text H.
  apply batch_lists_text in H. destruct H as [_ ->]. split.
  - apply str_join_lines.
  - apply str_split_join_sep.
    + now destruct (batch_messages U instructions self').
    + apply Forall_app; split; [apply batch_messages_one_line|].
      constructor; [|constructor]. intros I; exact I.
Qed.

Lemma batch_lists_one_line_per_message_witness :
  exists (self' : JsonOperations) (text : pystr),
    batch_lists (Examples.utility 5) (py "fix") 
      (JsonOperations_init (Examples.utility 5) Examples.two_items)
    = Ok (self', text) /\
    List.length (batch_messages (Examples.utility 5) (py "fix") self') = 3 /\
    str_split 10%N text
    = batch_messages (Examples.utility 5) (py "fix") self' ++ [[]].
Proof.
  eexists. eexists. split; [vm_compute; reflexivity|].
  split; [reflexivity|].
  eapply (@batch_lists_one_line_per_message (Examples.utility 5) (py "fix")
            (JsonOperations_init (Examples.utility 5) Examples.two_items)).
  vm_compute. reflexivity.
Defined.

Lemma messages_of_entry_units (U : Utility) (instructions : pystr)
  (e : pystr * json) :
  messages_of_entry U instructions e
  = List.map (fun u => create_batch_message U (payload u) instructions
                         (custom_id u))
      (units_of_entry U e).
Proof.
  destruct e as [k v]. destruct v; try reflexivity.
  unfold messages_of_entry, units_of_entry. rewrite map_map.
  apply map_ext. intros [i x]. reflexivity.
Qed.

(** X16. [batch_lists] and [create_input_list] describe the same work
    units in the same order: when [create_input_list] returns the units
    [root :: rest], [batch_lists] returns as well, its first message
    carries the payload of [root] under the custom id ["/"], and the
    message of every other unit carries the payload of the unit under
    the custom id made of its key chain, ["/"] and its index. *)
Theorem batch_messages_follow_the_input_list :
  forall (U : Utility) (instructions : pystr) (self self' : JsonOperations)
         (units : list work_unit),
    create_input_list U self = Ok (self', units) ->
    exists (root : work_unit) (rest : list work_unit) (text : pystr),
      units = root :: rest /\
      batch_lists U instructions self = Ok (self', text) /\
      batch_messages U instructions self'
      = create_batch_message U (payload root) instructions [47%N]
          :: List.map (fun u => create_batch_message U (payload u)
                                  instructions (custom_id u)) rest.
Proof.
  intros U instructions self self' units H. unfold create_input_list in H.
  destruct (json_traverse U self) as [s| | |] eqn:T; try discriminate.
  cbn [bind] in H. inversion H; subst.
  eexists. eexists. eexists. split; [reflexivity|]. split.
  - unfold batch_lists. rewrite T. reflexivity.
  - unfold batch_messages.
    change (payload (prepare_tuple_for_input_list U (data self') [47%N] 0%Z))
      with (to_json_string (data self') (Some 4)).
    apply f_equal. clear H T.
    induction (json_list_dict self') as [|e d IH]; [reflexivity|].
    simpl. rewrite map_app, IH, messages_of_entry_units. reflexivity.
Qed.

Lemma batch_messages_follow_the_input_list_witness :
  exists (self' : JsonOperations) (units : list work_unit),
    create_input_list (Examples.utility 5)
      (JsonOperations_init (Examples.utility 5) Examples.two_items)
    = Ok (self', units) /\
    List.map custom_id (tl units) = [py "a/0"; py "a/1"] /\
    exists (root : work_unit) (rest : list work_unit) (text : pystr),
      units = root :: rest /\
      batch_lists (Examples.utility 5) (py "fix")
        (JsonOperations_init (Examples.utility 5) Examples.two_items)
      = Ok (self', text) /\
      batch_messages (Examples.utility 5) (py "fix") self'
      = create_batch_message (Examples.utility 5) (payload root) (py "fix")
          [47%N]
          :: List.map (fun u => create_batch_message (Examples.utility 5)
                                  (payload u) (py "fix") (custom_id u)) rest.
Proof.
  eexists. eexists. split; [vm_compute; reflexivity|].
  split; [reflexivity|].
  eapply (@batch_messages_follow_the_input_list (Examples.utility 5) (py "fix")
            (JsonOperations_init (Examples.utility 5) Examples.two_items)).
  vm_compute. reflexivity.
Defined.

(** ** run_inputs: the result map *)

Section DictFolds.
Context {K V : Type} (K_dec : forall x y : K, {x = y} + {x <> y}).

Lemma dict_get_app (d1 d2 : list (K * V)) (k : K) :
  dict_get K_dec (d1 ++ d2) k =
  match dict_get K_dec d1 k with
  | Some v => Some v
  | None => dict_get K_dec d2 k
  end.
Proof.
  induction d1 as [|[k' v'] d1 IH]; simpl; [reflexivity|].
  destruct (K_dec k' k); [reflexivity | exact IH].
Qed.

Lemma dict_keys_set (d : list (K * V)) (k : K) (v : V) :
  dict_keys (dict_set K_dec d k v) =
  if dict_mem K_dec d k then dict_keys d else dict_keys d ++ [k].
Proof.
  unfold dict_mem, dict_keys.
  induction d as [|[k' v'] d IH]; simpl; [reflexivity|].
  destruct (K_dec k' k) as [->|Hn]; [reflexivity|]. simpl. rewrite IH.
  now destruct (dict_get K_dec d k).
Qed.

Lemma dict_set_wf (d : list (K * V)) (k : K) (v : V) :
  dict_wf d -> dict_wf (dict_set K_dec d k v).
Proof.
  unfold dict_wf. rewrite dict_keys_set. unfold dict_mem.
  destruct (dict_get K_dec d k) eqn:E; [auto|]. intros H.
  apply dict_get_None in E.
  apply NoDup_rev in H. rewrite <- (rev_involutive (dict_keys d ++ [k])).
  apply NoDup_rev. rewrite rev_app_distr. simpl. constructor; [|exact H].
  now rewrite <- in_rev.
Qed.

Lemma fold_set_wf (l : list (K * V)) (d : list (K * V)) :
  dict_wf d ->
  dict_wf (fold_left (fun d kv => dict_set K_dec d (fst kv) (snd kv)) l d).
Proof.
  revert d. induction l as [|x l IH]; intros d H; simpl; [exact H|].
  apply IH. now apply dict_set_wf.
Qed.

(** The last binding of a key wins. *)
Lemma fold_set_get (l : list (K * V)) (d : list (K * V)) (k : K) :
  dict_get K_dec
    (fold_left (fun d kv => dict_set K_dec d (fst kv) (snd kv)) l d) k =
  match dict_get K_dec (rev l) k with
  | Some v => Some v
  | None => dict_get K_dec d k
  end.
Proof.
  revert d. induction l as [|[k' v'] l IH]; intros d; simpl; [reflexivity|].
  rewrite IH, dict_get_app. simpl.
  destruct (dict_get K_dec (rev l) k); [reflexivity|].
  destruct (K_dec k' k) as [->|Hn].
  - apply dict_get_set_same.
  - now apply dict_get_set_other.
Qed.

Lemma dict_get_rev (d : list (K * V)) (k : K) :
  dict_wf d -> dict_get K_dec (rev d) k = dict_get K_dec d k.
Proof.
  intros H. symmetry. apply dict_get_perm; [exact H|]. apply Permutation_rev.
Qed.
End DictFolds.

Lemma group_get (tasks : list ((pystr * Z) * pystr)) :
  forall (m : list (pystr * list (Z * pystr))) (a : pystr * Z),
    entry_at
      {| default_factory := true;
         items :=
           fold_left
             (fun final_result t =>
                match t with
                | ((key_chain, index), r) =>
                    let inner :=
                      match dict_get pystr_dec final_result key_chain with
                      | Some m => m
                      | None => []
                      end in
                    dict_set pystr_dec final_result key_chain
                      (dict_set Z.eq_dec inner index r)
                end) tasks m |} a =
    match dict_get address_dec (rev tasks) a with
    | Some r => Some r
    | None => entry_at {| default_factory := true; items := m |} a
    end.
Proof.
  induction tasks as [|[[c' i'] r] tasks IH]; intros m [c i]; [reflexivity|].
  cbn [fold_left]. rewrite IH. cbn [rev]. rewrite dict_get_app.
  destruct (dict_get address_dec (rev tasks) (c, i)); [reflexivity|].
  cbn [dict_get]. unfold entry_at. cbn [items fst snd].
  destruct (address_dec (c', i') (c, i)) as [E|Hn].
  - inversion E; subst. rewrite dict_get_set_same. apply dict_get_set_same.
  - destruct (pystr_dec c' c) as [->|Hc].
    + rewrite dict_get_set_same.
      rewrite dict_get_set_other by congruence.
      now destruct (dict_get pystr_dec m c).
    + now rewrite dict_get_set_other.
Qed.

Lemma run_inputs_entry (get_response : pystr -> Z -> pystr)
  (units : list work_unit) (a : pystr * Z) :
  entry_at (run_inputs get_response units) a
  = dict_get address_dec (rev (List.map (task_of get_response) units)) a.
Proof.
  unfold run_inputs. rewrite group_get.
  change (List.map _ units) with (List.map (task_of get_response) units).
  unfold dict_of_pairs.
  rewrite dict_get_rev by (apply fold_set_wf; constructor).
  rewrite fold_set_get. cbn [dict_get].
  destruct (dict_get address_dec (rev (List.map (task_of get_response) units)) a);
    reflexivity.
Qed.

Lemma task_keys (get_response : pystr -> Z -> pystr) (units : list work_unit) :
  dict_keys (List.map (task_of get_response) units) = List.map address units.
Proof.
  unfold dict_keys. rewrite map_map. apply map_ext.
  now intros [[[c i] s] n].
Qed.

(** X17. when the addresses of the units are pairwise distinct, the map
    [run_inputs] builds holds at the address of each unit the response
    to its system input and token count, and holds nothing at any other
    address. *)
Theorem run_inputs_stores_every_response :
  forall (get_response : pystr -> Z -> pystr) (units : list work_unit),
    NoDup (List.map address units) ->
    (forall (key_chain : pystr) (index : Z) (system_input : pystr)
            (num_tokens : Z),
        In (key_chain, index, system_input, num_tokens) units ->
        entry_at (run_inputs get_response units) (key_chain, index)
        = Some (get_response system_input num_tokens)) /\
    (forall a : pystr * Z,
        ~ In a (List.map address units) ->
        entry_at (run_inputs get_response units) a = None).
Proof.
  intros f units Hnd.
  assert (Hwf : dict_wf (List.map (task_of f) units)).
  { unfold dict_wf. now rewrite task_keys. }
  split.
  - intros c i s n I. rewrite run_inputs_entry, dict_get_rev by exact Hwf.
    apply In_dict_get; [exact Hwf|].
    apply in_map_iff. exists (c, i, s, n). split; [reflexivity | exact I].
  - intros a Ha. rewrite run_inputs_entry, dict_get_rev by exact Hwf.
    apply dict_get_None. now rewrite task_keys.
Qed.

Lemma run_inputs_stores_every_response_witness :
  entry_at
    (run_inputs identity_response
       [(py "/", 0%Z, py "{}", 6%Z); (py "a", 0%Z, py "1", 3%Z);
        (py "a", 1%Z, py "2", 3%Z)])
    (py "a", 1%Z)
  = Some (py "2").
Proof.
  assert (Hnd : NoDup (List.map address
                         [(py "/", 0%Z, py "{}", 6%Z); (py "a", 0%Z, py "1", 3%Z);
                          (py "a", 1%Z, py "2", 3%Z)])).
  { apply NoDup_cons; [|apply NoDup_cons; [|apply NoDup_cons; [|apply NoDup_nil]]];
      simpl; intuition discriminate. }
  apply (proj1 (@run_inputs_stores_every_response identity_response _ Hnd)
           (py "a") 1%Z (py "2") 3%Z).
  simpl. auto.
Defined.

(** X18. when several units share an address, the map [run_inputs]
    builds keeps the response of the last of them: for a unit that no
    later unit shares its address with, the entry at the address is the
    response to this unit, whatever came before. *)
Theorem run_inputs_later_unit_wins :
  forall (get_response : pystr -> Z -> pystr)
         (before after : list work_unit) (u : work_unit),
    ~ In (address u) (List.map address after) ->
    entry_at (run_inputs get_response (before ++ u :: after)) (address u)
    = Some (snd (task_of get_response u)).
Proof.
  intros f before after u H. rewrite run_inputs_entry.
  rewrite map_app, rev_app_distr. cbn [List.map rev].
  rewrite dict_get_app, dict_get_app.
  assert (E : dict_get address_dec (rev (List.map (task_of f) after)) (address u)
              = None).
  { apply dict_get_None. unfold dict_keys. rewrite map_rev.
    fold (dict_keys (List.map (task_of f) after)). rewrite task_keys.
    now rewrite <- in_rev. }
  rewrite E. cbn [dict_get].
  destruct u as [[[c i] s] n]. cbn [task_of fst snd address].
  destruct (address_dec (c, i) (c, i)); [reflexivity | congruence].
Qed.

Lemma run_inputs_later_unit_wins_witness :
  entry_at
    (run_inputs identity_response
       ([(py "/", 0%Z, py "first", 3%Z)] ++ (py "/", 0%Z, py "second", 3%Z) :: []))
    (py "/", 0%Z)
  = Some (py "second").
Proof.
  apply (@run_inputs_later_unit_wins identity_response
           [(py "/", 0%Z, py "first", 3%Z)] [] (py "/", 0%Z, py "second", 3%Z)).
  simpl. auto.
Defined.

(** ** What every pass keeps *)

Lemma pass_keeps_refl U self : pass_keeps U self self.
Proof. unfold pass_keeps. auto. Qed.

Lemma pass_keeps_trans U a b c :
  pass_keeps U a b -> pass_keeps U b c -> pass_keeps U a c.
Proof.
  intros (A1 & A2 & A3 & A4) (B1 & B2 & B3 & B4).
  split; [congruence|]. split; [auto|]. split; [auto|].
  intros e I. destruct (B4 e I) as [J|J]; auto.
Qed.

Lemma update_walk_is_dict keys k v :
  forall d d', update_walk keys k v d = Ok d' -> is_dict d' = true.
Proof.
  induction keys as [|a keys IH]; intros d d' H; simpl in H.
  - destruct d; try discriminate. now inversion H.
  - destruct d; try discriminate.
    destruct (jget kvs a) as [c|]; [|now inversion H].
    destruct (update_walk keys k v c); try discriminate.
    now inversion H.
Qed.

Lemma traverse_items_keeps U rec ref size :
  (forall r s s', rec r s = Ok s' -> pass_keeps U s s') ->
  forall remaining i self self',
    traverse_items rec ref size i remaining self = Ok self' ->
    pass_keeps U self self'.
Proof.
  intros Hrec. induction remaining as [|n IH]; intros i self self' H.
  - simpl in H. inversion H. apply pass_keeps_refl.
  - cbn [traverse_items] in H.
    destruct (node_at ref (data self)) as [[| | | | |now]|]; try discriminate.
    destruct (Nat.eqb (List.length now) size); [|discriminate].
    destruct (nth_error now i) as [[key v]|]; [|discriminate].
    set (self1 := with_builder self
                    (StringBuilder.add (string_builder self) key)) in H.
    destruct (rec (ref ++ [key]) self1) as [self2| | |] eqn:R;
      try discriminate.
    cbn [bind] in H. apply Hrec in R. destruct R as (R1 & R2 & R3 & R4).
    rewrite R1 in H. unfold self1 in H at 1.
    cbn [with_builder string_builder] in H. rewrite pop_add in H.
    cbn [bind] in H. apply IH in H.
    apply (@pass_keeps_trans U _ (with_builder self2 (string_builder self)));
      [|exact H].
    unfold pass_keeps. cbn [with_builder string_builder data json_list_dict].
    split; [reflexivity|]. split; [exact R2|]. split; [exact R3 | exact R4].
Qed.

Lemma json_traverse_at_keeps U :
  forall fuel ref self self',
    json_traverse_at fuel U ref self = Ok self' -> pass_keeps U self self'.
Proof.
  induction fuel as [|f IH]; intros ref self self' H; [discriminate|].
  cbn [json_traverse_at] in H.
  destruct (node_at ref (data self)) as [[| b | z | s | l | kvs]|];
    try discriminate;
    try (inversion H; apply pass_keeps_refl).
  - destruct (exceeds_max_token U (JList l)) eqn:E;
      [|inversion H; apply pass_keeps_refl].
    destruct (update_value _ _ (data self)) as [d'| | |] eqn:W;
      try discriminate.
    cbn [bind] in H. inversion H; subst; clear H.
    unfold pass_keeps. cbn [string_builder data json_list_dict].
    split; [reflexivity|]. split.
    { intros _. unfold update_value in W. eapply update_walk_is_dict; eauto. }
    split; [apply dict_set_wf|].
    intros e I. apply dict_set_In in I. destruct I as [I| ->]; [now left|].
    right. exists l. split; [reflexivity | exact E].
  - eapply traverse_items_keeps; [|exact H]. intros r s s'. apply IH.
Qed.

(** X19. whenever [json_traverse] returns, whatever the keys (also keys
    with a ["/"] in them): the builder is as before the call, a working
    document that was a mapping is a mapping, an extraction map with
    distinct keys has distinct keys, and each entry the extraction map
    gained is an array over the budget. *)
Theorem json_traverse_keeps :
  forall (U : Utility) (self self' : JsonOperations),
    json_traverse U self = Ok self' ->
    string_builder self' = string_builder self /\
    (is_dict (data self) = true -> is_dict (data self') = true) /\
    (dict_wf (json_list_dict self) -> dict_wf (json_list_dict self')) /\
    (forall e : pystr * json,
        In e (json_list_dict self') ->
        In e (json_list_dict self) \/ over_budget_array U e).
Proof.
  intros U self self' H. unfold json_traverse in H.
  exact (json_traverse_at_keeps _ _ _ _ H).
Qed.

Lemma json_traverse_keeps_witness :
  exists self' : JsonOperations,
    json_traverse (Examples.utility 0)
      (JsonOperations_init (Examples.utility 0) Examples.three_keys)
    = Ok self' /\
    string_builder self'
    = string_builder
        (JsonOperations_init (Examples.utility 0) Examples.three_keys) /\
    is_dict (data self') = true /\
    dict_wf (json_list_dict self').
Proof.
  eexists. split; [vm_compute; reflexivity|].
  match goal with
  | |- string_builder ?s = _ /\ _ =>
      destruct (@json_traverse_keeps (Examples.utility 0)
                  (JsonOperations_init (Examples.utility 0) Examples.three_keys)
                  s)
        as (K1 & K2 & K3 & _)
  end.
  - vm_compute. reflexivity.
  - split; [exact K1|]. split; [apply K2; reflexivity|].
    apply K3. constructor.
Defined.

(** ** The addresses of the input list *)

Lemma NoDup_addresses (m : list (pystr * json)) :
  dict_wf m ->
  NoDup
    (flat_map
       (fun e => List.map (fun i => (fst e, Z.of_nat i))
                   (seq 0 (List.length (elements (snd e))))) m).
Proof.
  unfold dict_wf, dict_keys. induction m as [|[k v] m IH]; intros H; simpl.
  - constructor.
  - inversion H as [|? ? Hk Hm]; subst.
    assert (A : forall n len, NoDup (List.map (fun i => (k, Z.of_nat i)) (seq n len))).
    { intros n len. revert n. induction len as [|len IHl]; intros n; simpl.
      - constructor.
      - constructor; [|apply IHl]. intros I. apply in_map_iff in I.
        destruct I as (j & E & Ij). apply in_seq in Ij.
        inversion E. lia. }
    apply NoDup_app; [apply A|now apply IH|]. 
    intros a I1 I2. apply in_map_iff in I1. destruct I1 as (i & <- & _).
    apply in_flat_map in I2. destruct I2 as ([k' v'] & I & I2).
    apply in_map_iff in I2. destruct I2 as (j & E & _). simpl in E.
    inversion E; subst. apply Hk. apply in_map_iff. exists (k, v').
    split; [reflexivity | exact I].
Qed.

Lemma units_addresses (U : Utility) (m : list (pystr * json)) :
  List.map address (flat_map (units_of_entry U) m)
  = flat_map
      (fun e => List.map (fun i => (fst e, Z.of_nat i))
                  (seq 0 (List.length (elements (snd e))))) m.
Proof.
  induction m as [|e m IH]; [reflexivity|].
  simpl. now rewrite map_app, IH, units_of_entry_address.
Qed.

Lemma create_input_list_units (U : Utility) (self self' : JsonOperations)
  (units : list work_unit) :
  create_input_list U self = Ok (self', units) ->
  json_traverse U self = Ok self' /\
  units = prepare_tuple_for_input_list U (data self') [47%N] 0%Z
            :: flat_map (units_of_entry U) (json_list_dict self').
Proof.
  unfold create_input_list.
  destruct (json_traverse U self) as [s| | |]; try discriminate.
  cbn [bind]. intros H. inversion H; subst. split; reflexivity.
Qed.

(** X20. when [create_input_list] returns and the extraction map has no
    key equal to the root address ["/"], the addresses of the units are
    pairwise distinct, so that [run_inputs] stores the response to every
    unit at its address. *)
Theorem create_input_list_addresses_distinct :
  forall (U : Utility) (self self' : JsonOperations) (units : list work_unit),
    create_input_list U self = Ok (self', units) ->
    dict_wf (json_list_dict self) ->
    ~ In [47%N] (dict_keys (json_list_dict self')) ->
    NoDup (List.map address units) /\
    forall (get_response : pystr -> Z -> pystr) (key_chain : pystr)
           (index : Z) (system_input : pystr) (num_tokens : Z),
      In (key_chain, index, system_input, num_tokens) units ->
      entry_at (run_inputs get_response units) (key_chain, index)
      = Some (get_response system_input num_tokens).
Proof.
  intros U self self' units H Hwf Hroot.
  apply create_input_list_units in H. destruct H as [T ->].
  assert (Hnd : NoDup
                  (List.map address
                     (prepare_tuple_for_input_list U (data self') [47%N] 0%Z
                        :: flat_map (units_of_entry U) (json_list_dict self')))).
  { cbn [List.map]. rewrite units_addresses. constructor.
    - intros I. apply in_flat_map in I. destruct I as ([k v] & I & J).
      apply in_map_iff in J. destruct J as (i & E & _). simpl in E.
      inversion E; subst. apply Hroot. apply in_map_iff.
      exists ([47%N], v). split; [reflexivity | exact I].
    - apply NoDup_addresses.
      destruct (json_traverse_at_keeps _ _ _ _ T) as (_ & _ & K & _). auto. }
  split; [exact Hnd|].
  intros f c i s n I. rewrite run_inputs_entry.
  assert (W : dict_wf (List.map (task_of f)
                (prepare_tuple_for_input_list U (data self') [47%N] 0%Z
                   :: flat_map (units_of_entry U) (json_list_dict self')))).
  { unfold dict_wf. now rewrite task_keys. }
  rewrite dict_get_rev by exact W. apply In_dict_get; [exact W|].
  apply in_map_iff. exists (c, i, s, n). split; [reflexivity | exact I].
Qed.

Lemma create_input_list_addresses_distinct_witness :
  exists (self' : JsonOperations) (units : list work_unit),
    create_input_list (Examples.utility 5)
      (JsonOperations_init (Examples.utility 5) Examples.nested_doc)
    = Ok (self', units) /\
    List.length units = 4 /\
    NoDup (List.map address units).
Proof.
  eexists. eexists. split; [vm_compute; reflexivity|].
  split; [reflexivity|].
  eapply (@create_input_list_addresses_distinct (Examples.utility 5)
            (JsonOperations_init (Examples.utility 5) Examples.nested_doc)).
  - vm_compute. reflexivity.
  - constructor.
  - simpl. intros [E|[]]. discriminate E.
Defined.

(** ** From the input list to the rebuilt arrays *)

Lemma dict_set_Forall {K V} (K_dec : forall x y : K, {x = y} + {x <> y})
  (P : K * V -> Prop) (d : list (K * V)) (k : K) (v : V) :
  Forall P d -> P (k, v) -> Forall P (dict_set K_dec d k v).
Proof.
  intros H Hv. apply Forall_forall. intros e I.
  apply dict_set_In in I. destruct I as [I| ->]; [|exact Hv].
  rewrite Forall_forall in H. auto.
Qed.

Lemma group_inner_wf (tasks : list ((pystr * Z) * pystr)) :
  forall m : list (pystr * list (Z * pystr)),
    Forall (fun e => dict_wf (snd e)) m ->
    Forall (fun e => dict_wf (snd e))
      (fold_left
         (fun final_result t =>
            match t with
            | ((key_chain, index), r) =>
                let inner :=
                  match dict_get pystr_dec final_result key_chain with
                  | Some m => m
                  | None => []
                  end in
                dict_set pystr_dec final_result key_chain
                  (dict_set Z.eq_dec inner index r)
            end) tasks m).
Proof.
  induction tasks as [|[[c i] r] tasks IH]; intros m H; [exact H|].
  cbn [fold_left]. apply IH. apply dict_set_Forall; [exact H|].
  cbn [snd]. apply dict_set_wf.
  destruct (dict_get pystr_dec m c) as [inner|] eqn:E; [|constructor].
  apply dict_get_In in E. rewrite Forall_forall in H. exact (H _ E).
Qed.

Lemma run_inputs_inner_wf (get_response : pystr -> Z -> pystr)
  (units : list work_unit) :
  inner_wf (run_inputs get_response units).
Proof. unfold inner_wf, run_inputs. cbn [items]. apply group_inner_wf. constructor. Qed.

Lemma enumerate_In {A} (l : list A) (s : Z) (i : nat) (x : A) :
  nth_error l i = Some x -> In ((s + Z.of_nat i)%Z, x) (enumerate s l).
Proof.
  intros H. apply (@dict_get_In _ _ Z.eq_dec). now apply enumerate_get.
Qed.

Lemma unit_task_In (U : Utility) (get_response : pystr -> Z -> pystr)
  (m : list (pystr * json)) (chain : pystr) (l : list json) (i : nat)
  (x : json) :
  In (chain, JList l) m -> nth_error l i = Some x ->
  In ((chain, Z.of_nat i), response_to U get_response x)
    (List.map (task_of get_response) (flat_map (units_of_entry U) m)).
Proof.
  intros Im Hx. apply in_map_iff.
  exists (prepare_tuple_for_input_list U x chain (Z.of_nat i)).
  split; [reflexivity|]. apply in_flat_map. exists (chain, JList l).
  split; [exact Im|]. unfold units_of_entry. apply in_map_iff.
  exists (Z.of_nat i, x). split; [reflexivity|].
  apply (@enumerate_In _ l 0%Z i x Hx).
Qed.

Lemma unit_task_keys (U : Utility) (get_response : pystr -> Z -> pystr)
  (m : list (pystr * json)) (chain : pystr) (l : list json) (z : Z) :
  dict_wf m -> In (chain, JList l) m ->
  In (chain, z)
    (dict_keys (List.map (task_of get_response) (flat_map (units_of_entry U) m))) ->
  exists i, i < List.length l /\ z = Z.of_nat i.
Proof.
  intros Hwf Im I. rewrite task_keys, units_addresses in I.
  apply in_flat_map in I. destruct I as ([k v] & Ie & I).
  apply in_map_iff in I. destruct I as (j & E & Ij). cbn [fst snd] in *.
  inversion E; subst.
  assert (v = JList l).
  { pose proof (@In_dict_get _ _ pystr_dec m chain v Hwf Ie) as E1.
    pose proof (@In_dict_get _ _ pystr_dec m chain (JList l) Hwf Im) as E2. congruence. }
  subst v. apply in_seq in Ij. exists j. split; [simpl in Ij; lia | reflexivity].
Qed.

Lemma extracted_entries (U : Utility) (get_response : pystr -> Z -> pystr)
  (root : work_unit) (m : list (pystr * json)) (chain : pystr)
  (l : list json) :
  dict_wf m -> In (chain, JList l) m -> l <> [] ->
  address root = ([47%N], 0%Z) ->
  (forall i x, nth_error l i = Some x ->
     entry_at (run_inputs get_response (root :: flat_map (units_of_entry U) m))
       (chain, Z.of_nat i)
     = Some (response_to U get_response x)) /\
  (forall z, (forall i, i < List.length l -> z <> Z.of_nat i) ->
     entry_at (run_inputs get_response (root :: flat_map (units_of_entry U) m))
       (chain, z) = None).
Proof.
  intros Hwf Im Hl Hroot.
  set (T := List.map (task_of get_response) (flat_map (units_of_entry U) m)).
  assert (WT : dict_wf T).
  { unfold dict_wf, T. rewrite task_keys, units_addresses.
    now apply NoDup_addresses. }
  assert (E : forall a,
             entry_at (run_inputs get_response
                         (root :: flat_map (units_of_entry U) m)) a
             = match dict_get address_dec T a with
               | Some r => Some r
               | None => dict_get address_dec [task_of get_response root] a
               end).
  { intros a. rewrite run_inputs_entry. cbn [List.map rev]. fold T.
    rewrite dict_get_app, dict_get_rev by exact WT. reflexivity. }
  split.
  - intros i x Hx. rewrite E.
    now rewrite (@In_dict_get _ _ address_dec T _ _ WT
                   (@unit_task_In U get_response m chain l i x Im Hx)).
  - intros z Hz. rewrite E.
    assert (N : dict_get address_dec T (chain, z) = None).
    { apply dict_get_None. intros I.
      destruct (@unit_task_keys U get_response m chain l z Hwf Im I)
        as (i & Hi & ->).
      exact (Hz i Hi eq_refl). }
    rewrite N. destruct root as [[[c i] s] n]. cbn [task_of dict_get].
    simpl in Hroot. inversion Hroot; subst.
    match goal with
    | |- context [address_dec ?p ?q] => destruct (address_dec p q) as [A|A]
    end; [|reflexivity].
    inversion A; subst. exfalso. apply (Hz 0); [|reflexivity].
    destruct l; [congruence | simpl; lia].
Qed.

Lemma classic_index (z : Z) (n : nat) :
  (exists i, i < n /\ z = Z.of_nat i) \/
  (forall i, i < n -> z <> Z.of_nat i).
Proof.
  destruct (Z_lt_dec z 0) as [Hneg|Hpos].
  - right. intros i _. lia.
  - destruct (lt_dec (Z.to_nat z) n) as [Hlt|Hge].
    + left. exists (Z.to_nat z). split; [exact Hlt | lia].
    + right. intros i Hi. lia.
Qed.

Lemma responses_in_order (U : Utility) (get_response : pystr -> Z -> pystr)
  (root : work_unit) (m : list (pystr * json)) (chain : pystr)
  (l : list json) :
  dict_wf m -> In (chain, JList l) m -> l <> [] ->
  address root = ([47%N], 0%Z) ->
  exists entries : list (Z * pystr),
    dict_get pystr_dec
      (items (run_inputs get_response (root :: flat_map (units_of_entry U) m)))
      chain = Some entries /\
    updated_list entries = Ok (List.map (response_to U get_response) l).
Proof.
  intros Hwf Im Hl Hroot.
  destruct (@extracted_entries U get_response root m chain l Hwf Im Hl Hroot)
    as [A B].
  set (R := run_inputs get_response (root :: flat_map (units_of_entry U) m))
    in *.
  destruct (dict_get pystr_dec (items R) chain) as [entries|] eqn:G.
  - exists entries. split; [reflexivity|].
    assert (Eg : forall z, dict_get Z.eq_dec entries z = entry_at R (chain, z)).
    { intros z. unfold entry_at. cbn [fst snd]. now rewrite G. }
    assert (We : dict_wf entries).
    { pose proof (run_inputs_inner_wf get_response
                    (root :: flat_map (units_of_entry U) m)) as W.
      unfold inner_wf in W. fold R in W. rewrite Forall_forall in W.
      exact (W _ (@dict_get_In _ _ pystr_dec _ _ _ G)). }
    assert (Len : List.length entries = List.length l).
    { transitivity (List.length (dict_keys entries));
        [unfold dict_keys; now rewrite length_map|].
      transitivity (List.length (List.map Z.of_nat (seq 0 (List.length l))));
        [|now rewrite length_map, length_seq].
      apply Permutation_length. apply NoDup_Permutation.
      - exact We.
      - clear. generalize 0. induction (List.length l) as [|n IH]; intros s; simpl.
        + constructor.
        + constructor; [|apply IH]. intros I. apply in_map_iff in I.
          destruct I as (j & E & Ij). apply in_seq in Ij. lia.
      - intros z. split.
        + intros I. apply in_map_iff.
          destruct (classic_index z (List.length l)) as [(i & Hi & ->)|Hn].
          * exists i. split; [reflexivity|]. apply in_seq. lia.
          * exfalso. apply (proj1 (@dict_get_None _ _ Z.eq_dec entries z)); [|exact I].
            rewrite Eg. now apply B.
        + intros I. apply in_map_iff in I. destruct I as (i & <- & Ii).
          apply in_seq in Ii.
          destruct (nth_error l i) as [x|] eqn:Hx;
            [|apply nth_error_None in Hx; lia].
          destruct (in_dec Z.eq_dec (Z.of_nat i) (dict_keys entries)) as [I|I];
            [exact I|].
          apply (@dict_get_None _ _ Z.eq_dec) in I. rewrite Eg, (A i x Hx) in I.
          discriminate. }
    unfold updated_list. rewrite Len, <- (length_map (response_to U get_response) l).
    apply lookup_all. intros i t Ht. simpl.
    rewrite nth_error_map in Ht.
    destruct (nth_error l i) as [x|] eqn:Hx; [|discriminate].
    simpl in Ht. inversion Ht; subst. rewrite Eg. now apply A.
  - exfalso. destruct l as [|x l]; [congruence|].
    pose proof (A 0 x eq_refl) as A0. unfold entry_at in A0.
    cbn [fst snd] in A0. rewrite G in A0. discriminate.
Qed.

(** X21. for every non-empty array that [create_input_list] extracted
    under a key chain, the map [run_inputs] builds has an entry for the
    chain, and the list [json_recover] rebuilds from it, reading the
    indices from 0 on, is the list of the responses to the elements of
    the array, in element order. *)
Theorem responses_come_back_in_element_order :
  forall (U : Utility) (get_response : pystr -> Z -> pystr)
         (self self' : JsonOperations) (units : list work_unit)
         (chain : pystr) (l : list json),
    create_input_list U self = Ok (self', units) ->
    dict_wf (json_list_dict self) ->
    In (chain, JList l) (json_list_dict self') -> l <> [] ->
    exists entries : list (Z * pystr),
      dict_get pystr_dec (items (run_inputs get_response units)) chain
      = Some entries /\
      updated_list entries = Ok (List.map (response_to U get_response) l).
Proof.
  intros U f self self' units chain l H Hwf Im Hl.
  apply create_input_list_units in H. destruct H as [T ->].
  apply responses_in_order; auto.
  destruct (json_traverse_at_keeps _ _ _ _ T) as (_ & _ & K & _). auto.
Qed.

Lemma responses_come_back_in_element_order_witness :
  exists (self' : JsonOperations) (units : list work_unit)
         (entries : list (Z * pystr)),
    create_input_list (Examples.utility 5)
      (JsonOperations_init (Examples.utility 5) Examples.nested_doc)
    = Ok (self', units) /\
    dict_get pystr_dec (items (run_inputs identity_response units)) (py "a/b")
    = Some entries /\
    updated_list entries = Ok [py "1"; py "2"; py "3"].
Proof.
  eexists. eexists.
  match goal with
  | |- exists entries, ?c = Ok (?s, ?u) /\ _ =>
      assert (C : c = Ok (s, u)) by (vm_compute; reflexivity);
      destruct (@responses_come_back_in_element_order (Examples.utility 5)
                  identity_response _ s u (py "a/b") [JInt 1; JInt 2; JInt 3] C)
        as (entries & G & L)
  end.
  - constructor.
  - simpl. auto.
  - discriminate.
  - exists entries. split; [exact C|]. split; [exact G | exact L].
Defined.

(** ** The clean-up of the formatter *)

Lemma str_contains_false (needle : pystr) (c : N) (s : pystr) :
  str_contains needle (c :: s) = false ->
  prefix_of needle (c :: s) = None /\ str_contains needle s = false.
Proof.
  cbn [str_contains]. destruct (prefix_of needle (c :: s)); [discriminate|].
  auto.
Qed.

Lemma str_replace_absent (old new : pystr) :
  forall (s : pystr) (fuel : nat),
    str_contains old s = false -> str_replace_fuel fuel old new s = s.
Proof.
  induction s as [|c s IH]; intros fuel H; destruct fuel as [|f];
    try reflexivity.
  - cbn [str_replace_fuel]. cbn [str_contains] in H.
    destruct (prefix_of old []); [discriminate | reflexivity].
  - apply str_contains_false in H. destruct H as [P H].
    cbn [str_replace_fuel]. rewrite P. now rewrite IH.
Qed.

Lemma sub_spaces_single :
  forall (s : pystr) (in_run : bool),
    single_spaced in_run s = true -> sub_spaces in_run s = s.
Proof.
  induction s as [|c s IH]; intros b H; [reflexivity|].
  cbn [single_spaced sub_spaces] in *. destruct (is_space c).
  - apply andb_true_iff in H. destruct H as [H Hs].
    apply andb_true_iff in H. destruct H as [Hc Hb].
    apply N.eqb_eq in Hc. subst c. destruct b; [discriminate|].
    now rewrite IH.
  - now rewrite IH.
Qed.

Lemma strip_trimmed (s : pystr) : trimmed s = true -> strip s = s.
Proof.
  unfold trimmed, strip. destruct s as [|c s]; [reflexivity|].
  destruct (rev (c :: s)) as [|e r] eqn:E.
  - intros _. apply (f_equal (@List.length N)) in E.
    rewrite length_rev in E. discriminate.
  - intros H. apply andb_true_iff in H. destruct H as [Hc He].
    apply negb_true_iff in Hc, He.
    cbn [lstrip]. rewrite Hc, E. cbn [lstrip]. rewrite He, <- E.
    apply rev_involutive.
Qed.

Lemma sub_quoted_braces_absent :
  forall (s : pystr) (fuel : nat),
    str_contains [34; 123]%N s = false -> sub_quoted_braces_fuel fuel s = s.
Proof.
  induction s as [|c s IH]; intros fuel H; destruct fuel as [|f];
    try reflexivity.
  apply str_contains_false in H. destruct H as [P H].
  cbn [sub_quoted_braces_fuel]. rewrite P. now rewrite IH.
Qed.

Lemma cleanup_clean (s : pystr) : clean_text s = true -> cleanup s = s.
Proof.
  unfold clean_text. intros H.
  apply andb_true_iff in H. destruct H as [H H6].
  apply andb_true_iff in H. destruct H as [H H5].
  apply andb_true_iff in H. destruct H as [H H4].
  apply andb_true_iff in H. destruct H as [H H3].
  apply andb_true_iff in H. destruct H as [H1 H2].
  apply negb_true_iff in H1, H2, H3, H6.
  unfold cleanup, str_replace, sub_quoted_braces.
  rewrite (@str_replace_absent [92; 110]%N [] s _ H1).
  rewrite (@str_replace_absent [92; 34]%N [34%N] s _ H2).
  rewrite (@str_replace_absent [226; 8364; 8221]%N [226; 8364; 8220]%N s _ H3).
  rewrite (@sub_spaces_single s false H4), (@strip_trimmed s H5).
  now apply sub_quoted_braces_absent.
Qed.

(** X22. the clean-up of [to_json_object_formatted] returns its input
    when the text holds none of the sequences it rewrites (backslash n,
    backslash quote, U+00E2 U+20AC U+201D, quote opening brace), its
    white space is single spaces, and it neither starts nor ends with
    white space. *)
Theorem cleanup_leaves_clean_text :
  forall s : pystr, clean_text s = true -> cleanup s = s.
Proof. intros s. apply cleanup_clean. Qed.

Lemma cleanup_leaves_clean_text_witness :
  cleanup (to_json_string Examples.nested_doc None)
  = to_json_string Examples.nested_doc None.
Proof.
  apply (@cleanup_leaves_clean_text (to_json_string Examples.nested_doc None)).
  reflexivity.
Defined.

(** ** Documents whose serialization the clean-up leaves alone *)

Lemma escape_plain (c : N) : plain_char c = true -> escape_char c = [c].
Proof.
  unfold plain_char, escape_char. intros H.
  repeat (apply andb_true_iff in H; destruct H as [H ?]).
  apply N.leb_le in H.
  repeat match goal with
         | X : negb (_ =? _)%N = true |- _ =>
             apply negb_true_iff in X; apply N.eqb_neq in X
         end.
  repeat match goal with
         | |- context [(c =? ?b)%N] =>
             destruct (N.eqb_spec c b); [lia|]
         end.
  destruct (N.ltb_spec c 32); [lia | reflexivity].
Qed.

Lemma encode_plain_str (s : pystr) :
  forallb plain_char s = true -> encode_basestring s = 34%N :: s ++ [34%N].
Proof.
  intros H. unfold encode_basestring. f_equal. f_equal.
  induction s as [|c s IH]; [reflexivity|]. simpl in H.
  apply andb_true_iff in H. destruct H as [Hc Hs].
  simpl. now rewrite (escape_plain c Hc), IH.
Qed.

(** The serialization of a plain document is built from the literals
    and plain strings by separators and brackets. *)
Section Shapes.
Variable Cl : pystr -> Prop.
Hypothesis Cl_null : Cl (py "null").
Hypothesis Cl_true : Cl (py "true").
Hypothesis Cl_false : Cl (py "false").
Hypothesis Cl_list : Cl (py "[]").
Hypothesis Cl_dict : Cl (py "{}").
Hypothesis Cl_int : forall z, Cl (int_repr z).
Hypothesis Cl_str : forall s, plain_str s = true -> Cl (34%N :: s ++ [34%N]).
Hypothesis Cl_sep :
  forall x y c, Cl x -> Cl y -> c = 44%N \/ c = 58%N -> Cl (x ++ c :: 32%N :: y).
Hypothesis Cl_wrap :
  forall x o c, Cl x -> (o = 91%N /\ c = 93%N) \/ (o = 123%N /\ c = 125%N) ->
                Cl (o :: x ++ [c]).

Lemma Cl_join (parts : list pystr) :
  parts <> [] -> Forall Cl parts -> Cl (str_join [44; 32]%N parts).
Proof.
  induction parts as [|x parts IH]; [congruence|]. intros _ H.
  inversion H as [|? ? Hx Hr]; subst. destruct parts as [|y parts]; [exact Hx|].
  change (str_join [44; 32]%N (x :: y :: parts))
    with (x ++ 44%N :: 32%N :: str_join [44; 32]%N (y :: parts)).
  apply Cl_sep; [exact Hx | apply IH; [discriminate | exact Hr] | now left].
Qed.

Lemma plain_str_chars s : plain_str s = true -> forallb plain_char s = true.
Proof.
  unfold plain_str. intros H.
  apply andb_true_iff in H. destruct H as [H _].
  apply andb_true_iff in H. now destruct H.
Qed.

Lemma encode_shape :
  forall (d : json) (level : nat),
    plain_doc d = true -> Cl (encode None level d).
Proof.
  induction d as [| b | z | s | l IH | kvs IH] using json_ind';
    intros level Hp.
  - exact Cl_null.
  - destruct b; [exact Cl_true | exact Cl_false].
  - apply Cl_int.
  - cbn [encode]. simpl in Hp.
    rewrite (encode_plain_str s (plain_str_chars s Hp)). now apply Cl_str.
  - destruct l as [|x l]; [exact Cl_list|].
    cbn [encode newline_indent item_separator app].
    apply Cl_wrap; [|left; split; reflexivity].
    apply Cl_join; [discriminate|].
    apply Forall_forall. intros t I. apply in_map_iff in I.
    destruct I as (y & <- & Iy). rewrite Forall_forall in IH.
    apply (IH y Iy). cbn [plain_doc] in Hp. rewrite forallb_forall in Hp.
    exact (Hp y Iy).
  - destruct kvs as [|kv kvs]; [exact Cl_dict|].
    rewrite encode_dict_cons. cbn [newline_indent item_separator app].
    apply Cl_wrap; [|right; split; reflexivity].
    apply Cl_join; [discriminate|].
    apply Forall_forall. intros t I. apply in_map_iff in I.
    destruct I as ([k v] & <- & Iy). rewrite Forall_forall in IH.
    cbn [plain_doc] in Hp. rewrite forallb_forall in Hp.
    specialize (Hp (k, v) Iy). cbn beta iota in Hp.
    apply andb_true_iff in Hp. destruct Hp as [Hk Hv].
    unfold pair_text, key_separator.
    rewrite (encode_plain_str k (plain_str_chars k Hk)).
    change ((34%N :: k ++ [34%N]) ++ [58; 32]%N ++ encode None (S level) v)
      with ((34%N :: k ++ [34%N]) ++ 58%N :: 32%N :: encode None (S level) v).
    apply Cl_sep; [now apply Cl_str | exact (IH (k, v) Iy (S level) Hv) | now right].
Qed.
End Shapes.

Lemma prefix_of_spec (p : pystr) :
  forall s r, prefix_of p s = Some r -> s = p ++ r.
Proof.
  induction p as [|c p IH]; intros s r H; simpl in H.
  - now inversion H.
  - destruct s as [|d s]; [discriminate|].
    destruct (N.eqb_spec c d); [|discriminate]. subst. simpl.
    now rewrite (IH _ _ H).
Qed.

Lemma prefix_of_app (p : pystr) :
  forall s r y, prefix_of p s = Some r -> prefix_of p (s ++ y) = Some (r ++ y).
Proof.
  induction p as [|c p IH]; intros s r y H; simpl in H.
  - now inversion H.
  - destruct s as [|d s]; [discriminate|]. simpl.
    destruct (N.eqb c d); [|discriminate]. now apply IH.
Qed.

Lemma str_contains_incl (needle : pystr) :
  forall s, str_contains needle s = true -> incl needle s.
Proof.
  induction s as [|c s IH]; intros H; cbn [str_contains] in H.
  - destruct (prefix_of needle []) as [r|] eqn:P; [|discriminate].
    apply prefix_of_spec in P. destruct needle; [|discriminate].
    intros x [].
  - destruct (prefix_of needle (c :: s)) as [r|] eqn:P.
    + apply prefix_of_spec in P. rewrite P. now apply incl_appl, incl_refl.
    + now apply incl_tl, IH.
Qed.

Lemma str_contains_app (needle : pystr) (y : pystr) :
  forall x, str_contains needle x = true -> str_contains needle (x ++ y) = true.
Proof.
  induction x as [|c x IH]; intros H; cbn [str_contains] in H.
  - destruct (prefix_of needle []) as [r|] eqn:P; [|discriminate].
    apply prefix_of_spec in P. destruct needle; [|discriminate].
    simpl. now destruct y.
  - simpl app. cbn [str_contains].
    destruct (prefix_of needle (c :: x)) as [r|] eqn:P.
    + change (c :: x ++ y) with ((c :: x) ++ y).
      now rewrite (prefix_of_app _ _ y P).
    + destruct (prefix_of needle (c :: x ++ y)); [reflexivity | now apply IH].
Qed.

(** *** No backslash, no closing double quotation mark *)

Lemma never_rewritten_check (t : pystr) :
  forallb (fun c => negb (c =? 92)%N && negb (c =? 8221)%N) t = true ->
  never_rewritten t.
Proof.
  intros H. rewrite forallb_forall in H. apply Forall_forall. intros c I.
  specialize (H c I). apply andb_true_iff in H. destruct H as [H1 H2].
  apply negb_true_iff in H1, H2. apply N.eqb_neq in H1, H2. auto.
Qed.

Lemma int_repr_chars (z : Z) :
  Forall (fun c => is_digit c = true \/ c = 45%N) (int_repr z).
Proof.
  assert (D : forall u, Forall (fun c => is_digit c = true \/ c = 45%N)
                          (uint_chars u)).
  { intros u. pose proof (uint_chars_digits u) as H.
    rewrite forallb_forall in H. apply Forall_forall. intros c I. left. auto. }
  unfold int_repr. destruct (Z.to_int z); [apply D|].
  constructor; [now right | apply D].
Qed.

Lemma int_repr_not_nil (z : Z) : int_repr z <> [].
Proof. destruct (int_repr_head z) as (c & t & E & _). rewrite E. discriminate. Qed.

Lemma plain_char_facts (c : N) :
  plain_char c = true ->
  (32 <= c)%N /\ c <> 34%N /\ c <> 92%N /\ c <> 8221%N /\
  (is_space c = true -> c = 32%N).
Proof.
  unfold plain_char. intros H.
  repeat (apply andb_true_iff in H; destruct H as [H ?]).
  apply N.leb_le in H.
  repeat match goal with
         | X : negb (_ =? _)%N = true |- _ =>
             apply negb_true_iff in X; apply N.eqb_neq in X
         end.
  repeat split; auto. intros S.
  match goal with
  | X : (_ || _) = true |- _ => rewrite S in X; simpl in X; now apply N.eqb_eq in X
  end.
Qed.

Lemma encode_never_rewritten (d : json) (level : nat) :
  plain_doc d = true -> never_rewritten (encode None level d).
Proof.
  apply encode_shape; try (apply never_rewritten_check; reflexivity).
  - intros z. eapply Forall_impl; [|apply int_repr_chars].
    intros c [H| ->]; [apply is_digit_range in H; lia | lia].
  - intros s H. apply plain_str_chars in H. rewrite forallb_forall in H.
    constructor; [lia|]. apply Forall_app; split.
    + apply Forall_forall. intros c I.
      destruct (plain_char_facts c (H c I)) as (_ & _ & A & B & _). auto.
    + constructor; [lia | constructor].
  - intros x y c Hx Hy Hc. apply Forall_app; split; [exact Hx|].
    constructor; [destruct Hc; subst; lia|]. constructor; [lia | exact Hy].
  - intros x o c Hx Hc. constructor; [intuition lia|].
    apply Forall_app; split; [exact Hx|]. constructor; [intuition lia | constructor].
Qed.

(** *** Single spaces *)

Lemma single_spaced_solid (c : N) (in_run : bool) (y : pystr) :
  is_space c = false -> single_spaced in_run (c :: y) = single_spaced false y.
Proof. intros H. cbn [single_spaced]. now rewrite H. Qed.

Lemma spaced_solid (t : pystr) :
  t <> [] -> Forall (fun c => is_space c = false) t -> spaced t.
Proof.
  intros Hne H b rest. revert b. induction H as [|c t Hc Ht IH]; [congruence|].
  intros b. simpl app. rewrite single_spaced_solid by exact Hc.
  destruct t as [|c' t]; [reflexivity|]. apply IH. discriminate.
Qed.

Lemma spaced_check (t : pystr) :
  t <> [] -> forallb (fun c => negb (is_space c)) t = true -> spaced t.
Proof.
  intros Hne H. apply spaced_solid; [exact Hne|].
  rewrite forallb_forall in H. apply Forall_forall. intros c I.
  specialize (H c I). now apply negb_true_iff in H.
Qed.

Lemma single_spaced_app (s : pystr) (c : N) (y : pystr) :
  is_space c = false ->
  forall in_run,
    single_spaced in_run s = true ->
    single_spaced in_run (s ++ c :: y) = single_spaced false y.
Proof.
  intros Hc. induction s as [|a s IH]; intros b H.
  - simpl. now apply single_spaced_solid.
  - simpl app. cbn [single_spaced] in *. destruct (is_space a).
    + apply andb_true_iff in H. destruct H as [H Hs]. rewrite H. simpl.
      now apply IH.
    + now apply IH.
Qed.

Lemma is_digit_not_space (c : N) : is_digit c = true -> is_space c = false.
Proof.
  intros H. apply is_digit_range in H. unfold is_space.
  repeat match goal with
         | |- context [(?a <=? ?b)%N] => destruct (N.leb_spec a b); try lia
         | |- context [(?a =? ?b)%N] => destruct (N.eqb_spec a b); try lia
         end; reflexivity.
Qed.

Lemma encode_spaced (d : json) (level : nat) :
  plain_doc d = true -> spaced (encode None level d).
Proof.
  apply encode_shape;
    try (apply spaced_check; [discriminate | reflexivity]).
  - intros z. apply spaced_solid; [apply int_repr_not_nil|].
    eapply Forall_impl; [|apply int_repr_chars].
    intros c [H| ->]; [now apply is_digit_not_space | reflexivity].
  - intros s H b rest. unfold plain_str in H.
    apply andb_true_iff in H. destruct H as [H _].
    apply andb_true_iff in H. destruct H as [_ H].
    simpl app. rewrite single_spaced_solid by reflexivity.
    rewrite <- app_assoc. simpl app.
    now rewrite (@single_spaced_app s 34%N rest eq_refl false H).
  - intros x y c Hx Hy Hc b rest. rewrite <- app_assoc. simpl app.
    rewrite Hx. rewrite single_spaced_solid by (destruct Hc; subst; reflexivity).
    cbn [single_spaced]. change (is_space 32) with true. cbv iota.
    change (32 =? 32)%N with true. simpl. apply Hy.
  - intros x o c Hx Hc b rest. simpl app.
    rewrite single_spaced_solid by (intuition (subst; reflexivity)).
    rewrite <- app_assoc. rewrite Hx. simpl app.
    apply single_spaced_solid. intuition (subst; reflexivity).
Qed.

(** *** No quoted brace *)

Lemma unquoted_step (a : N) (s : pystr) :
  a <> 34%N -> str_contains [34; 123]%N (a :: s) = str_contains [34; 123]%N s.
Proof.
  intros H. cbn [str_contains prefix_of].
  destruct (N.eqb_spec 34 a); [congruence | reflexivity].
Qed.

Lemma unquoted_quote (d : N) (s : pystr) :
  d <> 123%N ->
  str_contains [34; 123]%N (34%N :: d :: s) = str_contains [34; 123]%N (d :: s).
Proof.
  intros H. cbn [str_contains prefix_of]. change (34 =? 34)%N with true.
  cbv iota. destruct (N.eqb_spec 123 d); [congruence | reflexivity].
Qed.

Lemma unquoted_free (t y : pystr) :
  Forall (fun c => c <> 34%N) t ->
  str_contains [34; 123]%N (t ++ y) = str_contains [34; 123]%N y.
Proof.
  induction 1 as [|c t Hc Ht IH]; [reflexivity|].
  simpl app. now rewrite unquoted_step.
Qed.

Lemma unquoted_check (t : pystr) :
  forallb (fun c => negb (c =? 34)%N) t = true -> unquoted t.
Proof.
  intros H c rest _. apply unquoted_free.
  rewrite forallb_forall in H. apply Forall_forall. intros a I.
  specialize (H a I). apply negb_true_iff in H. now apply N.eqb_neq in H.
Qed.

Lemma encode_unquoted (d : json) (level : nat) :
  plain_doc d = true -> unquoted (encode None level d).
Proof.
  apply encode_shape; try (apply unquoted_check; reflexivity).
  - intros z c rest _. apply unquoted_free.
    eapply Forall_impl; [|apply int_repr_chars].
    intros a [H| ->]; [apply is_digit_range in H; lia | lia].
  - intros s H c rest Hc.
    assert (Hq : Forall (fun a => a <> 34%N) s).
    { pose proof (plain_str_chars s H) as P. rewrite forallb_forall in P.
      apply Forall_forall. intros a I.
      destruct (plain_char_facts a (P a I)) as (_ & A & _). exact A. }
    unfold plain_str in H. apply andb_true_iff in H. destruct H as [_ Hb].
    simpl app. rewrite <- app_assoc. simpl app.
    destruct s as [|a s].
    + simpl app. rewrite unquoted_quote by lia. now rewrite unquoted_quote.
    + apply negb_true_iff in Hb. apply N.eqb_neq in Hb.
      simpl app. rewrite unquoted_quote by exact Hb.
      change (a :: s ++ 34%N :: c :: rest) with ((a :: s) ++ 34%N :: c :: rest).
      rewrite unquoted_free by exact Hq. now apply unquoted_quote.
  - intros x y c Hx Hy Hc a rest Ha. rewrite <- app_assoc. simpl app.
    rewrite Hx by (destruct Hc; subst; lia).
    rewrite unquoted_step by (destruct Hc; subst; lia).
    rewrite unquoted_step by lia. now apply Hy.
  - intros x o c Hx Hc a rest Ha. simpl app.
    rewrite unquoted_step by (intuition lia).
    rewrite <- app_assoc. simpl app. rewrite Hx by (intuition lia).
    apply unquoted_step. intuition lia.
Qed.

(** *** Ends *)

Lemma solid_ends_solid (t : pystr) :
  t <> [] -> Forall (fun c => is_space c = false) t -> solid_ends t.
Proof.
  intros Hne H. split.
  - destruct t as [|h r]; [congruence|]. exists h, r. split; [reflexivity|].
    now inversion H.
  - destruct (exists_last Hne) as (x & e & ->). exists x, e.
    split; [reflexivity|]. apply Forall_app in H. destruct H as [_ H].
    now inversion H.
Qed.

Lemma solid_ends_check (t : pystr) :
  t <> [] -> forallb (fun c => negb (is_space c)) t = true -> solid_ends t.
Proof.
  intros Hne H. apply solid_ends_solid; [exact Hne|].
  rewrite forallb_forall in H. apply Forall_forall. intros c I.
  specialize (H c I). now apply negb_true_iff in H.
Qed.

Lemma encode_solid_ends (d : json) (level : nat) :
  plain_doc d = true -> solid_ends (encode None level d).
Proof.
  apply encode_shape;
    try (apply solid_ends_check; [discriminate | reflexivity]).
  - intros z. apply solid_ends_solid; [apply int_repr_not_nil|].
    eapply Forall_impl; [|apply int_repr_chars].
    intros c [H| ->]; [now apply is_digit_not_space | reflexivity].
  - intros s _. split.
    + exists 34%N, (s ++ [34%N]). split; reflexivity.
    + exists (34%N :: s), 34%N. split; reflexivity.
  - intros x y c [(h & r & -> & Hh) _] [_ (y' & e & -> & He)] _. split.
    + exists h, (r ++ c :: 32%N :: y' ++ [e]). split; [reflexivity | exact Hh].
    + exists ((h :: r) ++ c :: 32%N :: y'), e. split; [|exact He].
      rewrite <- app_assoc. reflexivity.
  - intros x o c _ Hc. split.
    + exists o, (x ++ [c]). split; [reflexivity|].
      intuition (subst; reflexivity).
    + exists (o :: x), c. split; [reflexivity|].
      intuition (subst; reflexivity).
Qed.

Lemma trimmed_solid_ends (t : pystr) : solid_ends t -> trimmed t = true.
Proof.
  intros [(h & r & E1 & Hh) (x & e & E2 & He)]. unfold trimmed.
  assert (R : rev t = e :: rev x) by (rewrite E2, rev_app_distr; reflexivity).
  rewrite E1. cbv iota. rewrite <- E1, R. now rewrite Hh, He.
Qed.

Lemma plain_doc_clean_text (d : json) :
  plain_doc d = true -> clean_text (to_json_string d None) = true.
Proof.
  intros H. unfold to_json_string, json_dumps.
  pose proof (encode_never_rewritten d 0 H) as A.
  pose proof (encode_spaced d 0 H) as B.
  pose proof (encode_unquoted d 0 H) as C.
  pose proof (encode_solid_ends d 0 H) as D.
  set (t := encode None 0 d) in *.
  assert (N1 : forall needle c,
             In c needle -> (c = 92%N \/ c = 8221%N) ->
             str_contains needle t = false).
  { intros needle c I Hc. destruct (str_contains needle t) eqn:E; [|reflexivity].
    apply str_contains_incl in E. specialize (E c I).
    unfold never_rewritten in A. rewrite Forall_forall in A.
    specialize (A c E). destruct A, Hc; congruence. }
  unfold clean_text.
  rewrite (N1 [92; 110]%N 92%N) by (simpl; auto).
  rewrite (N1 [92; 34]%N 92%N) by (simpl; auto).
  rewrite (N1 [226; 8364; 8221]%N 8221%N) by (simpl; auto).
  rewrite (trimmed_solid_ends D).
  assert (S1 : single_spaced false t = true).
  { specialize (B false []). rewrite app_nil_r in B. exact B. }
  rewrite S1.
  assert (Q : str_contains [34; 123]%N t = false).
  { destruct (str_contains [34; 123]%N t) eqn:E; [|reflexivity].
    apply (str_contains_app [34; 123]%N [0%N]) in E.
    rewrite (C 0%N [] ltac:(lia)) in E. discriminate. }
  now rewrite Q.
Qed.

(** X23. for a document whose strings and keys are plain (characters
    from U+0020 on, without the quote, the backslash, U+201D and white
    space other than the space; spaces single; no opening brace first),
    the compact serialization is such a text, so the clean-up of
    [to_json_object_formatted] leaves it unchanged. *)
Theorem plain_document_survives_cleanup :
  forall d : json,
    plain_doc d = true ->
    clean_text (to_json_string d None) = true /\
    cleanup (to_json_string d None) = to_json_string d None.
Proof.
  intros d H. pose proof (plain_doc_clean_text d H) as C.
  split; [exact C | now apply cleanup_clean].
Qed.

Lemma plain_document_survives_cleanup_witness :
  clean_text (to_json_string Examples.nested_doc None) = true /\
  cleanup (to_json_string Examples.nested_doc None)
  = to_json_string Examples.nested_doc None.
Proof.
  apply (@plain_document_survives_cleanup Examples.nested_doc).
  reflexivity.
Defined.

Lemma plain_working_document (U : Utility) (d : json) :
  plain_str (get_dummy_placeholder U) = true -> plain_doc d = true ->
  plain_doc (working_document U d) = true.
Proof.
  intros Hp Hd. unfold working_document, JsonOperations_init. cbn [data].
  destruct d; try exact Hd; cbn [plain_doc forallb]; rewrite Hp;
    try reflexivity.
  - cbn [plain_doc] in Hd. now rewrite Hd.
  - cbn [plain_doc] in Hd. now rewrite Hd.
Qed.

(** X24. with an external service that returns its input, and with
    conditions on the document only: a list or a mapping with distinct
    keys, plain strings and keys, no top-level placeholder key (the
    placeholder being plain itself) and no array reached through
    mappings over the budget comes back from [get_updated_data]
    unchanged. *)
Theorem get_updated_data_identity_plain :
  forall (U : Utility) (d : json),
    is_container d = true -> json_wf d = true ->
    plain_doc d = true -> plain_str (get_dummy_placeholder U) = true ->
    no_placeholder_key U d = true ->
    nothing_to_extract U (working_document U d) = true ->
    get_updated_data U identity_response d = Ok d.
Proof.
  intros U d Hc Hwf Hpd Hpp Hk Hq. apply identity_cycle; auto.
  apply cleanup_clean. apply plain_doc_clean_text.
  now apply plain_working_document.
Qed.

Lemma get_updated_data_identity_plain_witness :
  get_updated_data (Examples.utility 100) identity_response
    Examples.one_two_three
  = Ok Examples.one_two_three.
Proof.
  apply (@get_updated_data_identity_plain (Examples.utility 100)
           Examples.one_two_three).
  - reflexivity.
  - reflexivity.
  - reflexivity.
  - reflexivity.
  - reflexivity.
  - reflexivity.
Defined.
